(** * Assemble.c (mdadm): a shallow embedding and its properties

    [Assemble] collects the member devices of an md array from their
    version-0.90 superblocks and hands them to the md driver.  The C
    function is one long body; the embedding follows it block by block
    (probe loop, availability scan, force loop, choice of the reference
    drive, reconciliation, driver calls), threading the local variables in
    a record [locals] and every outside effect (open, superblock store,
    ioctl, diagnostic) in a log of [event]s.  Whatever the outside world
    answers is read from an [env] whose answers may depend on the log so
    far, so that every sequence of answers the kernel and the disks can
    give is covered. *)

From stdpp Require Import base numbers list strings.

Open Scope Z_scope.

(** ** Machine integers *)

(** [unsigned int] / [__u32]: arithmetic modulo 2^32. *)
Definition u32 (z : Z) : Z := z mod 2 ^ 32.

(** [(int)x]: the two's complement reading of the low 32 bits. *)
Definition s32 (z : Z) : Z := (z + 2 ^ 31) mod 2 ^ 32 - 2 ^ 31.

(** [long long]: the two's complement reading of the low 64 bits.  Signed
    overflow is undefined in C; the embedding wraps, and the theorems that
    depend on a sum say when it does not overflow. *)
Definition s64 (z : Z) : Z := (z + 2 ^ 63) mod 2 ^ 64 - 2 ^ 63.

(** [1 << n] *)
Definition bit (n : Z) : Z := Z.shiftl 1 n.

(** [x & (1 << n)] read as a C truth value. *)
Definition has_bit (x n : Z) : bool := negb (Z.land x (bit n) =? 0).

(** A C [int] read as a truth value. *)
Definition truthy (x : Z) : bool := negb (x =? 0).

(** ** Arrays indexed by C integers *)

(** [l[i]]: nothing is found below index 0 or past the end. *)
Definition zlookup {A} (l : list A) (i : Z) : option A :=
  if i <? 0 then None else l !! Z.to_nat i.

(** [l[i] = x]: a store inside the array; outside it the list is left as
    it is (the callers that can store outside say what happens there). *)
Definition zinsert {A} (i : Z) (x : A) (l : list A) : list A :=
  if i <? 0 then l else <[Z.to_nat i := x]> l.

(** [for (i = lo; i < lo + n; i++) s = body i s] *)
Fixpoint for_range {St : Type} (lo : Z) (n : nat) (body : Z -> St -> St) (s : St) : St :=
  match n with
  | O => s
  | S n' => for_range (lo + 1) n' body (body lo s)
  end.

(** ** Data model *)

(** [mdp_disk_t], the per-slot descriptor of the superblock (all [__u32]). *)
Module Disk.
Record t := mk {
  number : Z;
  major : Z;
  minor : Z;
  raid_disk : Z;
  state : Z }.
Definition zero : t := mk 0 0 0 0 0.
Definition set_major_minor (ma mi : Z) (d : t) : t :=
  mk (number d) ma mi (raid_disk d) (state d).
Definition set_state (s : Z) (d : t) : t :=
  mk (number d) (major d) (minor d) (raid_disk d) s.
End Disk.

(** [mdp_super_t]: the fields Assemble.c reads or writes, [rest] standing
    for the words it only passes on to the superblock helpers. *)
Module Super.
Record t := mk {
  md_magic : Z;
  md_minor : Z;
  level : Z;
  raid_disks : Z;
  layout : Z;
  utime : Z;
  state : Z;
  nr_disks : Z;
  active_disks : Z;
  working_disks : Z;
  failed_disks : Z;
  spare_disks : Z;
  sb_csum : Z;
  events_hi : Z;
  events_lo : Z;
  recovery_cp : Z;
  disks : list Disk.t;
  this_disk : Disk.t;
  rest : list Z }.

Definition zero : t :=
  mk 0 0 0 0 0 0 0 0 0 0 0 0 0 0 0 0 [] Disk.zero [].

Definition set_md_magic (v : Z) (s : t) : t :=
  mk v (md_minor s) (level s) (raid_disks s) (layout s) (utime s) (state s)
     (nr_disks s) (active_disks s) (working_disks s) (failed_disks s)
     (spare_disks s) (sb_csum s) (events_hi s) (events_lo s) (recovery_cp s)
     (disks s) (this_disk s) (rest s).
Definition set_md_minor (v : Z) (s : t) : t :=
  mk (md_magic s) v (level s) (raid_disks s) (layout s) (utime s) (state s)
     (nr_disks s) (active_disks s) (working_disks s) (failed_disks s)
     (spare_disks s) (sb_csum s) (events_hi s) (events_lo s) (recovery_cp s)
     (disks s) (this_disk s) (rest s).
Definition set_state (v : Z) (s : t) : t :=
  mk (md_magic s) (md_minor s) (level s) (raid_disks s) (layout s) (utime s) v
     (nr_disks s) (active_disks s) (working_disks s) (failed_disks s)
     (spare_disks s) (sb_csum s) (events_hi s) (events_lo s) (recovery_cp s)
     (disks s) (this_disk s) (rest s).
Definition set_counts (nr ac wo fa sp : Z) (s : t) : t :=
  mk (md_magic s) (md_minor s) (level s) (raid_disks s) (layout s) (utime s)
     (state s) nr ac wo fa sp (sb_csum s) (events_hi s) (events_lo s)
     (recovery_cp s) (disks s) (this_disk s) (rest s).
Definition set_sb_csum (v : Z) (s : t) : t :=
  mk (md_magic s) (md_minor s) (level s) (raid_disks s) (layout s) (utime s)
     (state s) (nr_disks s) (active_disks s) (working_disks s) (failed_disks s)
     (spare_disks s) v (events_hi s) (events_lo s) (recovery_cp s)
     (disks s) (this_disk s) (rest s).
Definition set_events (hi lo : Z) (s : t) : t :=
  mk (md_magic s) (md_minor s) (level s) (raid_disks s) (layout s) (utime s)
     (state s) (nr_disks s) (active_disks s) (working_disks s) (failed_disks s)
     (spare_disks s) (sb_csum s) hi lo (recovery_cp s)
     (disks s) (this_disk s) (rest s).
Definition set_recovery_cp (v : Z) (s : t) : t :=
  mk (md_magic s) (md_minor s) (level s) (raid_disks s) (layout s) (utime s)
     (state s) (nr_disks s) (active_disks s) (working_disks s) (failed_disks s)
     (spare_disks s) (sb_csum s) (events_hi s) (events_lo s) v
     (disks s) (this_disk s) (rest s).
Definition set_disks (v : list Disk.t) (s : t) : t :=
  mk (md_magic s) (md_minor s) (level s) (raid_disks s) (layout s) (utime s)
     (state s) (nr_disks s) (active_disks s) (working_disks s) (failed_disks s)
     (spare_disks s) (sb_csum s) (events_hi s) (events_lo s) (recovery_cp s)
     v (this_disk s) (rest s).

(** [s.disks[i]].  The table has [MD_SB_DISKS] entries.  The reconciler
    forms [super.disks[i]] for every slot [i] of [best] that holds an
    up-to-date drive, and such a slot can be any below 10000: at
    [i = MD_SB_DISKS] the C expression is [this_disk], further on it is
    memory past the struct.  The embedding reads a zero descriptor there,
    which is not what C reads; the properties that depend on the table are
    stated for the slots inside it ([slots_in_table], [in_bounds]). *)
Definition disk (s : t) (i : Z) : Disk.t := default Disk.zero (zlookup (disks s) i).

(** [s.disks[i] = d].  A store past the end of the table is dropped here,
    while C stores there (into [this_disk] at [i = MD_SB_DISKS]); see
    [disk]. *)
Definition set_disk (i : Z) (d : Disk.t) (s : t) : t :=
  set_disks (zinsert i d (disks s)) s.
End Super.

(** The anonymous [struct] of the [devices] array: one committed device. *)
Module Dev.
Record t := mk {
  devname : string;
  major : Z;
  minor : Z;
  oldmajor : Z;
  oldminor : Z;
  events : Z;
  utime : Z;
  uptodate : bool;
  state : Z;
  raid_disk : Z }.
Definition zero : t := mk "" 0 0 0 0 0 0 false 0 0.
Definition set_events (v : Z) (d : t) : t :=
  mk (devname d) (major d) (minor d) (oldmajor d) (oldminor d) v (utime d)
     (uptodate d) (state d) (raid_disk d).
Definition set_uptodate (v : bool) (d : t) : t :=
  mk (devname d) (major d) (minor d) (oldmajor d) (oldminor d) (events d)
     (utime d) v (state d) (raid_disk d).
End Dev.

(** [mddev_ident_t]: the identity the caller asks for. *)
Module Ident.
Record t := mk {
  uuid_set : Z;
  uuid : list Z;
  super_minor : Z;
  devices : option string;
  level : Z;
  raid_disks : Z }.
End Ident.

(** What [fstat] tells about a device: whether [st_mode] says block device,
    and [major(st_rdev)], [minor(st_rdev)]. *)
Record stat := {
  st_isblk : bool;
  st_major : Z;
  st_minor : Z }.

(** ** The outside world *)

(** The requests sent to the md driver through [ioctl(mdfd, ...)]. *)
Inductive md_ioctl :=
| GET_ARRAY_INFO
| STOP_ARRAY
| SET_ARRAY_INFO
| ADD_NEW_DISK (major minor : Z)
| RUN_ARRAY
| START_ARRAY (dev : Z).

Inductive open_flags := O_RDONLY_EXCL | O_RDWR_EXCL.

(** The diagnostics written to stderr, one constructor per [fprintf]. *)
Inductive message :=
| not_an_md_device
| driver_too_old
| already_active
| no_identity
| looking_for_devices
| not_one_of (devname : string)
| cannot_open (devname : string)
| fstat_failed (devname : string)
| not_block_device (devname : string)
| no_raid_superblock (devname : string)
| wrong_uuid (devname : string)
| wrong_super_minor (devname : string)
| wrong_raid_level (devname : string)
| wrong_number_of_drives (devname : string)
| no_superblock_aborted (devname : string)
| superblock_mismatch_aborted (devname : string)
| too_many_devices (devname : string)
| adjusting_sparc (devname : string)
| updating_minor (devname : string) (md_minor : Z)
| cannot_open_for_update (devname : string)
| update_not_rewritten (devname : string)
| identified_member (devname : string) (slot : Z)
| no_devices_found
| forcing_event_count (devname : string) (raid_disk from upto : Z)
| force_cannot_open (devname : string)
| force_superblock_disappeared (devname : string)
| force_not_rewritten (devname : string)
| chosen_cannot_open (devname : string)
| chosen_superblock_disappeared (devname : string)
| clearing_faulty (j : Z) (devname : string)
| wrong_state_but_ok (i : Z) (devname : string)
| not_marked_faulty (i : Z)
| reconcile_cannot_open (devname : string)
| reconcile_not_rewritten (devname : string)
| set_array_info_failed
| failed_to_add (devname : string)
| added (devname : string) (raid_disk : Z)
| no_uptodate_device (i : Z)
| started (okcnt : Z) (out_of : option Z) (spares : option Z)
| failed_to_run
| assembled_not_started (okcnt : Z)
| assembled_from (okcnt : Z) (spares : option Z)
| not_enough_to_start
| need_all_to_start (req_cnt : Z)
| need_some_to_start (req_cnt raid_disks : Z)
| cannot_start_array.

(** Everything Assemble does to the outside, in the order it does it. *)
Inductive event :=
| EvOpen (devname : string) (flags : open_flags) (ok : bool)
| EvStore (devname : string) (sb : Super.t) (ret : Z)
| EvIoctl (req : md_ioctl) (ret : Z)
| EvMsg (m : message).

(** The answers of the outside world.  The answers to the calls made on a
    device or on the driver take the log of what was done before, so they
    may change from one call to the next. *)
Record env := {
  md_get_version : Z;
  get_linux_version : Z;
  conf_get_devs : string -> list string;
  mdfd_minor : Z;
  sys_open : list event -> string -> open_flags -> bool;
  sys_fstat : list event -> string -> option stat;
  load_super : list event -> string -> Super.t -> Z * Super.t;
  store_super : list event -> string -> Super.t -> Z;
  ioctl : list event -> md_ioctl -> Z }.

(** The declarations Assemble.c takes from mdadm.h, md_p.h and util.c,
    none of which is in the source tree at hand: the constants, and the
    helpers that compute on superblocks.  The embedding is parametric in
    them. *)
Class MdHeaders := {
  MD_SB_DISKS : Z;
  UnSet : Z;
  MD_DISK_FAULTY : Z;
  MD_DISK_ACTIVE : Z;
  MD_DISK_SYNC : Z;
  MD_DISK_REMOVED : Z;
  MD_SB_CLEAN : Z;
  match_oneof : string -> string -> Z;
  uuid_from_super : Super.t -> list Z;
  same_uuid : list Z -> list Z -> Z;
  compare_super : Super.t -> Super.t -> Super.t * Z;
  calc_sb_csum : Super.t -> Z;
  sparc22_shift : Super.t -> Super.t;
  enough : Z -> Z -> Z -> list bool -> Z -> bool;
  makedev : Z -> Z -> Z }.


(** ** The local variables of [Assemble] *)

(** The variables that live across the blocks of the function.  [devcnt]
    and [bestcnt] are the lengths of [devices] and [best]: the code grows
    each array exactly when it bumps its counter.  [avail] is the
    [malloc]ed block of [first_super.raid_disks] bytes; [overrun] lists the
    indices of the bytes stored past its end.  [log] is the trace of outside
    effects so far. *)
Record locals := mk_locals {
  first_super : Super.t;
  super : Super.t;
  devices : list Dev.t;
  best : list Z;
  most_recent : Z;
  avail : list bool;
  overrun : list Z;
  okcnt : Z;
  sparecnt : Z;
  chosen_drive : Z;
  change : Z;
  log : list event }.

Definition set_first_super (v : Super.t) (st : locals) : locals :=
  mk_locals v (super st) (devices st) (best st) (most_recent st) (avail st)
    (overrun st) (okcnt st) (sparecnt st) (chosen_drive st) (change st) (log st).
Definition set_super (v : Super.t) (st : locals) : locals :=
  mk_locals (first_super st) v (devices st) (best st) (most_recent st) (avail st)
    (overrun st) (okcnt st) (sparecnt st) (chosen_drive st) (change st) (log st).
Definition set_devices (v : list Dev.t) (st : locals) : locals :=
  mk_locals (first_super st) (super st) v (best st) (most_recent st) (avail st)
    (overrun st) (okcnt st) (sparecnt st) (chosen_drive st) (change st) (log st).
Definition set_best (v : list Z) (st : locals) : locals :=
  mk_locals (first_super st) (super st) (devices st) v (most_recent st) (avail st)
    (overrun st) (okcnt st) (sparecnt st) (chosen_drive st) (change st) (log st).
Definition set_most_recent (v : Z) (st : locals) : locals :=
  mk_locals (first_super st) (super st) (devices st) (best st) v (avail st)
    (overrun st) (okcnt st) (sparecnt st) (chosen_drive st) (change st) (log st).
Definition set_avail (v : list bool) (st : locals) : locals :=
  mk_locals (first_super st) (super st) (devices st) (best st) (most_recent st) v
    (overrun st) (okcnt st) (sparecnt st) (chosen_drive st) (change st) (log st).
Definition set_overrun (v : list Z) (st : locals) : locals :=
  mk_locals (first_super st) (super st) (devices st) (best st) (most_recent st)
    (avail st) v (okcnt st) (sparecnt st) (chosen_drive st) (change st) (log st).
Definition set_okcnt (v : Z) (st : locals) : locals :=
  mk_locals (first_super st) (super st) (devices st) (best st) (most_recent st)
    (avail st) (overrun st) v (sparecnt st) (chosen_drive st) (change st) (log st).
Definition set_sparecnt (v : Z) (st : locals) : locals :=
  mk_locals (first_super st) (super st) (devices st) (best st) (most_recent st)
    (avail st) (overrun st) (okcnt st) v (chosen_drive st) (change st) (log st).
Definition set_chosen_drive (v : Z) (st : locals) : locals :=
  mk_locals (first_super st) (super st) (devices st) (best st) (most_recent st)
    (avail st) (overrun st) (okcnt st) (sparecnt st) v (change st) (log st).
Definition set_change (v : Z) (st : locals) : locals :=
  mk_locals (first_super st) (super st) (devices st) (best st) (most_recent st)
    (avail st) (overrun st) (okcnt st) (sparecnt st) (chosen_drive st) v (log st).
Definition set_log (v : list event) (st : locals) : locals :=
  mk_locals (first_super st) (super st) (devices st) (best st) (most_recent st)
    (avail st) (overrun st) (okcnt st) (sparecnt st) (chosen_drive st) (change st) v.

(** Lines 95-122 and 172: the initial values ([first_super.md_magic = 0],
    [most_recent = 0], [change = 0], [bestcnt = 0], [devcnt = 0]). *)
Definition init_locals : locals :=
  mk_locals Super.zero Super.zero [] [] 0 [] [] 0 0 (-1) 0 [].

Definition devcnt (st : locals) : Z := Z.of_nat (length (devices st)).
Definition bestcnt (st : locals) : Z := Z.of_nat (length (best st)).

(** [devices[j]].  The code only forms [devices[j]] for [j] outside the
    array when no drive was chosen ([chosen_drive == -1]): in the open of
    line 566 and in the [makedev] of lines 675-676.  C reads whatever lies
    before the array there; the embedding reads a zeroed record, which is
    not what C reads, and the properties that name the chosen drive in
    those places are stated for a run that has one ([in_bounds]). *)
Definition dev_at (devs : list Dev.t) (j : Z) : Dev.t :=
  default Dev.zero (zlookup devs j).

(** [best[i]] *)
Definition best_at (b : list Z) (i : Z) : Z := default (-1) (zlookup b i).

(** Appending to the log. *)
Definition record (e : event) (st : locals) : locals := set_log (log st ++ [e]) st.
Definition say (m : message) (st : locals) : locals := record (EvMsg m) st.
Definition say_if (b : bool) (m : message) (st : locals) : locals :=
  if b then say m st else st.

(** How a block of the function ends: [return code], or on to the next
    statement. *)
Inductive flow :=
| Exit (code : Z) (st : locals)
| Go (st : locals).

(** Modelled from the spec: md_p.h, which defines [md_event], is not among
    the sources; the spec has the event counter as the 64-bit value
    [events_hi << 32 | events_lo].  Assemble.c stores it in a [long long]. *)
Definition md_event (sb : Super.t) : Z :=
  s64 (Z.lor (Z.shiftl (Super.events_hi sb) 32) (Super.events_lo sb)).

Section WithEnv.
Context `{H : MdHeaders}.
Variable E : env.
Variable ident : Ident.t.
Variable update : option string.
Variables (runstop : Z) (verbose force : bool).

(** *** Device probe, lines 197-220 *)

(** Opens the device, checks that it is a block device and loads its
    superblock into [super]; the result is the [fstat] record when
    [havesuper] is set. *)
Definition probe (inargv : bool) (devname : string) (st : locals) : locals * option stat :=
  let ok := sys_open E (log st) devname O_RDONLY_EXCL in
  let st := record (EvOpen devname O_RDONLY_EXCL ok) st in
  if negb ok then (say_if (inargv || verbose) (cannot_open devname) st, None)
  else
    match sys_fstat E (log st) devname with
    | None => (say (fstat_failed devname) st, None)
    | Some stb =>
        if negb (st_isblk stb) then (say (not_block_device devname) st, None)
        else
          let '(r, sb) := load_super E (log st) devname (super st) in
          let st := set_super sb st in
          if truthy r
          then (say_if (inargv || verbose) (no_raid_superblock devname) st, None)
          else (st, Some stb)
    end.

(** *** Identity filter, lines 190-195 and 222-249 *)

(** [ident->devices && !match_oneof(ident->devices, devname)] *)
Definition not_listed (devname : string) : bool :=
  match Ident.devices ident with
  | Some pats => negb (truthy (match_oneof pats devname))
  | None => false
  end.

(** The four tests on the superblock, in the order of the code; the result
    is the diagnostic of the first test that rejects the device. *)
Definition ident_mismatch (havesuper : bool) (sb : Super.t) (devname : string)
  : option message :=
  if truthy (Ident.uuid_set ident)
     && (negb havesuper
         || (same_uuid (uuid_from_super sb) (Ident.uuid ident) =? 0))
  then Some (wrong_uuid devname)
  else if negb (Ident.super_minor ident =? UnSet)
          && (negb havesuper
              || negb (u32 (Ident.super_minor ident) =? Super.md_minor sb))
  then Some (wrong_super_minor devname)
  else if negb (Ident.level ident =? UnSet)
          && (negb havesuper
              || negb (Ident.level ident =? s32 (Super.level sb)))
  then Some (wrong_raid_level devname)
  else if negb (Ident.raid_disks ident =? UnSet)
          && (negb havesuper
              || negb (u32 (Ident.raid_disks ident) =? Super.raid_disks sb))
  then Some (wrong_number_of_drives devname)
  else None.

(** *** Metadata updater, lines 276-339 *)

(** One turn of the loop of the [summaries] update, lines 306-322. *)
Definition summaries_slot (i : Z) (sb : Super.t) : Super.t :=
  let d := Super.disk sb i in
  if truthy (Disk.major d) || truthy (Disk.minor d) then
    let state := s32 (Disk.state d) in
    if has_bit state MD_DISK_REMOVED then sb
    else
      Super.set_counts
        (u32 (Super.nr_disks sb + 1))
        (if has_bit state MD_DISK_ACTIVE
         then u32 (Super.active_disks sb + 1) else Super.active_disks sb)
        (if has_bit state MD_DISK_FAULTY
         then Super.working_disks sb else u32 (Super.working_disks sb + 1))
        (if has_bit state MD_DISK_FAULTY
         then u32 (Super.failed_disks sb + 1) else Super.failed_disks sb)
        (if state =? 0
         then u32 (Super.spare_disks sb + 1) else Super.spare_disks sb)
        sb
  else if (Super.raid_disks sb <=? i) && (Disk.number d =? 0)
  then Super.set_disk i (Disk.set_state 0 d) sb
  else sb.

Definition summaries (sb : Super.t) : Super.t :=
  for_range 0 (Z.to_nat MD_SB_DISKS) summaries_slot (Super.set_counts 0 0 0 0 0 sb).

(** [super.state &= ~(1<<MD_SB_CLEAN); super.recovery_cp = 0;] *)
Definition resync (sb : Super.t) : Super.t :=
  Super.set_recovery_cp 0
    (Super.set_state (u32 (Z.land (Super.state sb) (Z.lnot (bit MD_SB_CLEAN)))) sb).

(** Lines 277-288, [update] being [u]. *)
Definition update_sparc (u devname : string) (st : locals) : locals :=
  if String.eqb u "sparc2.2"
  then say (adjusting_sparc devname) (set_super (sparc22_shift (super st)) st)
  else st.

(** Lines 289-296 *)
Definition update_minor (u devname : string) (st : locals) : locals :=
  if String.eqb u "super-minor"
  then
    let st := set_super (Super.set_md_minor (u32 (mdfd_minor E)) (super st)) st in
    say_if verbose (updating_minor devname (s32 (Super.md_minor (super st)))) st
  else st.

(** Lines 297-323 *)
Definition update_summaries (u : string) (st : locals) : locals :=
  if String.eqb u "summaries" then set_super (summaries (super st)) st else st.

(** Lines 324-328 *)
Definition update_resync (u : string) (st : locals) : locals :=
  if String.eqb u "resync" then set_super (resync (super st)) st else st.

(** Lines 329-338: the checksum, and the write through a read-write reopen;
    a failed write is only reported. *)
Definition store_update (devname : string) (st : locals) : locals :=
  let st := set_super (Super.set_sb_csum (calc_sb_csum (super st)) (super st)) st in
  let ok := sys_open E (log st) devname O_RDWR_EXCL in
  let st := record (EvOpen devname O_RDWR_EXCL ok) st in
  if negb ok then say (cannot_open_for_update devname) st
  else
    let r := store_super E (log st) devname (super st) in
    let st := record (EvStore devname (super st) r) st in
    if truthy r then say (update_not_rewritten devname) st else st.

(** The whole [if (update)] block, lines 276-339. *)
Definition apply_update (u : string) (devname : string) (st : locals) : locals :=
  store_update devname
    (update_resync u
       (update_summaries u (update_minor u devname (update_sparc u devname st)))).

(** *** Slot chooser, lines 354-381 *)

(** Lines 365-377: [best] is reallocated with [i+10] entries, the old ones
    copied and the new ones set to -1. *)
Definition grow_best (b : list Z) (i : Z) : list Z :=
  if Z.of_nat (length b) <=? i then
    let newbestcnt := u32 (i + 10) in
    (fun c => if c <? Z.of_nat (length b) then best_at b c else -1)
      <$> seqZ 0 newbestcnt
  else b.

(** Lines 364-381, for the device just stored at [devices[devcnt]] and its
    slot key [i]. *)
Definition choose_slot (devs : list Dev.t) (b : list Z) (i devcnt : Z) : list Z :=
  if i <? 10000 then
    let b := grow_best b i in
    if (best_at b i =? -1)
       || (Dev.events (dev_at devs (best_at b i)) <? Dev.events (dev_at devs devcnt))
    then zinsert i devcnt b
    else b
  else b.

(** Lines 359-363: the slot key of the device at [devices[devcnt]], an
    [unsigned int]. *)
Definition slot_key (level : Z) (d : Dev.t) (devcnt : Z) : Z :=
  if s32 level =? -4 then u32 devcnt else u32 (Dev.raid_disk d).

(** Lines 354-358 *)
Definition newer (devs : list Dev.t) (most_recent devcnt : Z) : Z :=
  if most_recent <? devcnt then
    if Dev.events (dev_at devs devcnt) >? Dev.events (dev_at devs most_recent)
    then devcnt else most_recent
  else most_recent.

(** Lines 344-353: the record made of a committed device. *)
Definition candidate (devname : string) (stb : stat) (sb : Super.t) : Dev.t :=
  Dev.mk devname (st_major stb) (st_minor stb)
    (Disk.major (Super.this_disk sb)) (Disk.minor (Super.this_disk sb))
    (md_event sb) (Super.utime sb) false
    (s32 (Disk.state (Super.this_disk sb)))
    (s32 (Disk.raid_disk (Super.this_disk sb))).

(** Lines 341-382: the device enters [devices], [most_recent] and [best]. *)
Definition commit (devname : string) (stb : stat) (st : locals) : locals :=
  let sb := super st in
  let n := devcnt st in
  let st :=
    say_if verbose
      (identified_member devname (s32 (Disk.raid_disk (Super.this_disk sb)))) st in
  let devs := devices st ++ [candidate devname stb sb] in
  let st := set_devices devs st in
  let st := set_most_recent (newer devs (most_recent st) n) st in
  set_best
    (choose_slot devs (best st) (slot_key (Super.level sb) (dev_at devs n) n) n) st.

(** *** One turn of the [while (devlist)] loop, lines 180-383 *)
Definition probe_step (inargv : bool) (st : locals) (devname : string) : flow :=
  if not_listed devname
  then Go (say_if (inargv || verbose) (not_one_of devname) st)
  else
    let '(st, stb) := probe inargv devname st in
    match ident_mismatch (bool_decide (is_Some stb)) (super st) devname with
    | Some m => Go (say_if (inargv || verbose) m st)
    | None =>
        match stb with
        | None => Exit 1 (say (no_superblock_aborted devname) st)
        | Some stb =>
            let '(first, r) := compare_super (first_super st) (super st) in
            let st := set_first_super first st in
            if truthy r
            then Exit 1 (say (superblock_mismatch_aborted devname) st)
            else if MD_SB_DISKS <=? devcnt st
            then Go (say (too_many_devices devname) st)
            else
              let st :=
                match update with
                | Some u => apply_update u devname st
                | None => st
                end in
              Go (commit devname stb st)
        end
    end.

Fixpoint probe_loop (inargv : bool) (devlist : list string) (st : locals) : flow :=
  match devlist with
  | [] => Go st
  | devname :: devlist =>
      match probe_step inargv st devname with
      | Exit c st => Exit c st
      | Go st => probe_loop inargv devlist st
      end
  end.

(** *** Availability scan, lines 393-419 *)

(** [avail[k] = 1].  [avail] has [first_super.raid_disks] bytes; a store at
    an index outside the block lands in memory that is not [avail]'s, and
    is kept in [overrun]. *)
Definition store_avail (k : Z) (st : locals) : locals :=
  if (0 <=? k) && (k <? Z.of_nat (length (avail st)))
  then set_avail (zinsert k true (avail st)) st
  else set_overrun (overrun st ++ [k]) st.

(** [devices[j].uptodate = 1] *)
Definition mark_uptodate (j : Z) (st : locals) : locals :=
  set_devices (zinsert j (Dev.set_uptodate true (dev_at (devices st) j)) (devices st)) st.

(** [int event_margin = !force] *)
Definition event_margin : Z := if force then 0 else 1.

(** The body of the loop of lines 397-419 for slot [i]. *)
Definition scan_slot (i : Z) (st : locals) : locals :=
  let j := best_at (best st) i in
  if j <? 0 then st
  else if negb (s32 (Super.level (first_super st)) =? -4)
          && negb (has_bit (Dev.state (dev_at (devices st) j)) MD_DISK_SYNC)
  then
    if negb (has_bit (Dev.state (dev_at (devices st) j)) MD_DISK_FAULTY)
    then set_sparecnt (u32 (sparecnt st + 1)) st
    else st
  else if s64 (Dev.events (dev_at (devices st) j) + event_margin)
          >=? Dev.events (dev_at (devices st) (most_recent st))
  then
    let st := mark_uptodate j st in
    if i <? Super.raid_disks (first_super st)
    then store_avail i (set_okcnt (u32 (okcnt st + 1)) st)
    else set_sparecnt (u32 (sparecnt st + 1)) st
  else st.

(** Lines 393-419: [avail] is allocated and cleared, the counters are
    reset, and every slot of [best] is looked at. *)
Definition avail_scan (st : locals) : locals :=
  let st :=
    set_avail (replicate (Z.to_nat (Super.raid_disks (first_super st))) false) st in
  let st := set_sparecnt 0 (set_okcnt 0 st) in
  for_range 0 (length (best st)) scan_slot st.

(** *** Force loop, lines 420-477 *)

(** [enough(first_super.level, first_super.raid_disks, first_super.layout,
    avail, okcnt)]; the conversion of the arguments to the types of
    [enough]'s parameters is left to [enough]. *)
Definition enough_now (st : locals) : bool :=
  enough (Super.level (first_super st)) (Super.raid_disks (first_super st))
    (Super.layout (first_super st)) (avail st) (okcnt st).

(** The body of the selection loop of lines 429-437, [chosen] being the
    value of [chosen_drive] so far. *)
Definition pick_slot (st : locals) (i : Z) (chosen : Z) : Z :=
  let j := best_at (best st) i in
  if (0 <=? j)
     && negb (Dev.uptodate (dev_at (devices st) j))
     && (Dev.events (dev_at (devices st) j) >? 0)
     && ((chosen <? 0)
         || (Dev.events (dev_at (devices st) j)
             >? Dev.events (dev_at (devices st) chosen)))
  then j else chosen.

(** Lines 428-437: the newest drive of a data slot that is not up to date. *)
Definition pick_stale (st : locals) : Z :=
  for_range 0
    (Z.to_nat (Z.min (Super.raid_disks (first_super st)) (bestcnt st)))
    (pick_slot st) (-1).

(** [devices[chosen_drive].events = v] *)
Definition set_dev_events (j v : Z) (st : locals) : locals :=
  set_devices (zinsert j (Dev.set_events v (dev_at (devices st) j)) (devices st)) st.

(** Lines 458-464: the superblock that is written to the forced drive. *)
Definition forced_super (newest : Z) (sb : Super.t) : Super.t :=
  let sb :=
    Super.set_events (Z.land (Z.shiftr newest 32) 4294967295)
      (Z.land newest 4294967295) sb in
  let sb :=
    if (Super.level sb =? 5) || (Super.level sb =? 4)
    then Super.set_state (bit MD_SB_CLEAN) sb else sb in
  Super.set_sb_csum (calc_sb_csum sb) sb.

(** One test of the [while] condition and, when it holds, one turn of the
    body.  The boolean tells whether the loop goes round again: it is
    [false] when the condition fails and when the body [break]s. *)
Definition force_iter (st : locals) : locals * bool :=
  if force && negb (enough_now st) then
    let st := set_chosen_drive (pick_stale st) st in
    let c := chosen_drive st in
    if c <? 0 then (st, false)
    else
      let name := Dev.devname (dev_at (devices st) c) in
      let newest := Dev.events (dev_at (devices st) (most_recent st)) in
      let st :=
        say (forcing_event_count name (Dev.raid_disk (dev_at (devices st) c))
               (s32 (Dev.events (dev_at (devices st) c))) (s32 newest)) st in
      let ok := sys_open E (log st) name O_RDWR_EXCL in
      let st := record (EvOpen name O_RDWR_EXCL ok) st in
      if negb ok
      then (set_dev_events c 0 (say (force_cannot_open name) st), true)
      else
        let '(r, sb) := load_super E (log st) name (super st) in
        let st := set_super sb st in
        if truthy r
        then (set_dev_events c 0 (say (force_superblock_disappeared name) st), true)
        else
          let st := set_super (forced_super newest (super st)) st in
          let r := store_super E (log st) name (super st) in
          let st := record (EvStore name (super st) r) st in
          if truthy r
          then (set_dev_events c 0 (say (force_not_rewritten name) st), true)
          else
            let st := set_dev_events c newest st in
            let st := mark_uptodate c st in
            let st := store_avail c st in
            (set_okcnt (u32 (okcnt st + 1)) st, true)
  else (st, false).

(** The [while] loop, run for at most [fuel] tests of its condition;
    [None] when the fuel runs out before the loop is left. *)
Fixpoint force_loop (fuel : nat) (st : locals) : option locals :=
  match fuel with
  | O => None
  | S fuel =>
      let '(st, again) := force_iter st in
      if again then force_loop fuel st else Some st
  end.

(** *** Choice of the reference drive, lines 485-506 *)

(** The loop from slot [i] on, with [n] slots to go; it stops at the first
    slot whose drive is up to date and reloads [super] from that drive. *)
Fixpoint choose_drive (n : nat) (i : Z) (st : locals) : flow :=
  match n with
  | O => Go st
  | S n =>
      if 0 <=? chosen_drive st then Go st
      else
        let j := best_at (best st) i in
        if j <? 0 then choose_drive n (i + 1) st
        else if negb (Dev.uptodate (dev_at (devices st) j))
        then choose_drive n (i + 1) st
        else
          let st := set_chosen_drive j st in
          let name := Dev.devname (dev_at (devices st) j) in
          let ok := sys_open E (log st) name O_RDONLY_EXCL in
          let st := record (EvOpen name O_RDONLY_EXCL ok) st in
          if negb ok then Exit 1 (say (chosen_cannot_open name) st)
          else
            let '(r, sb) := load_super E (log st) name (super st) in
            let st := set_super sb st in
            if truthy r
            then Exit 1 (say (chosen_superblock_disappeared name) st)
            else choose_drive n (i + 1) st
  end.

(** *** Reconciler, lines 508-580 *)

(** The two values or-ed into [change]: 1 by the renumbering that is
    compiled out ([#if 0]), 2 by everything else. *)
Definition CHANGE_RENUMBER : Z := 1.
Definition CHANGE_STATE : Z := 2.

(** Lines 530-535: the slot of [super] is made to agree with the numbers the
    drive recorded for itself. *)
Definition patch_numbers (i : Z) (d : Dev.t) (st : locals) : locals :=
  if negb (Dev.oldmajor d =? Disk.major (Super.disk (super st) i))
     || negb (Dev.oldminor d =? Disk.minor (Super.disk (super st) i))
  then
    let st := set_change (Z.lor (change st) 2) st in
    set_super
      (Super.set_disk i
         (Disk.set_major_minor (Dev.oldmajor d) (Dev.oldminor d)
            (Super.disk (super st) i))
         (super st)) st
  else st.

(** Lines 536-549 *)
Definition patch_state (i j desired_state : Z) (d : Dev.t) (st : locals) : locals :=
  if Dev.uptodate d && negb (Disk.state (Super.disk (super st) i) =? desired_state)
  then
    if force then
      let st := say (clearing_faulty j (Dev.devname d)) st in
      let st :=
        set_super
          (Super.set_disk i (Disk.set_state desired_state (Super.disk (super st) i))
             (super st)) st in
      set_change (Z.lor (change st) 2) st
    else say (wrong_state_but_ok i (Dev.devname d)) st
  else st.

(** The body of the loop of lines 508-555 for slot [i]. *)
Definition reconcile_slot (i : Z) (st : locals) : locals :=
  let j := best_at (best st) i in
  let desired_state :=
    if i <? Super.raid_disks (super st)
    then Z.lor (bit MD_DISK_ACTIVE) (bit MD_DISK_SYNC) else 0 in
  if j <? 0 then st
  else if negb (Dev.uptodate (dev_at (devices st) j)) then st
  else
    let d := dev_at (devices st) j in
    let st := patch_numbers i d st in
    let st := patch_state i j desired_state d st in
    if negb (Dev.uptodate d)
       && negb (has_bit (Disk.state (Super.disk (super st) i)) MD_DISK_FAULTY)
    then say (not_marked_faulty i) st
    else st.

(** Lines 556-560 *)
Definition force_clean (st : locals) : locals :=
  if force
     && ((Super.level (super st) =? 4) || (Super.level (super st) =? 5))
     && (okcnt st =? u32 (Super.raid_disks (super st) - 1))
  then
    set_change (Z.lor (change st) 2)
      (set_super (Super.set_state (bit MD_SB_CLEAN) (super st)) st)
  else st.

(** Lines 508-560 *)
Definition reconcile (st : locals) : locals :=
  force_clean (for_range 0 (length (best st)) reconcile_slot st).

(** The condition of line 562-563. *)
Definition must_write (old_linux : bool) (st : locals) : bool :=
  (force && truthy (Z.land (change st) 2))
  || (old_linux && truthy (Z.land (change st) 1)).

(** Lines 562-580: the reconciled superblock goes back to the chosen drive. *)
Definition write_back (old_linux : bool) (st : locals) : flow :=
  if must_write old_linux st then
    let st := set_super (Super.set_sb_csum (calc_sb_csum (super st)) (super st)) st in
    let name := Dev.devname (dev_at (devices st) (chosen_drive st)) in
    let ok := sys_open E (log st) name O_RDWR_EXCL in
    let st := record (EvOpen name O_RDWR_EXCL ok) st in
    if negb ok then Exit 1 (say (reconcile_cannot_open name) st)
    else
      let r := store_super E (log st) name (super st) in
      let st := record (EvStore name (super st) r) st in
      if truthy r then Exit 1 (say (reconcile_not_rewritten name) st)
      else Go (set_change 0 st)
  else Go st.

(** *** Driver plan, lines 585-683 *)

(** Lines 585-590: the slots of the reference superblock that are in sync,
    active and not faulty. *)
Definition in_sync (d : Disk.t) : bool :=
  has_bit (Disk.state d) MD_DISK_SYNC
  && has_bit (Disk.state d) MD_DISK_ACTIVE
  && negb (has_bit (Disk.state d) MD_DISK_FAULTY).

Definition count_req (sb : Super.t) : Z :=
  for_range 0 (Z.to_nat MD_SB_DISKS)
    (fun i req_cnt => if in_sync (Super.disk sb i) then u32 (req_cnt + 1) else req_cnt)
    0.

(** The body of the loop of lines 601-630, for [i] from 0 to [bestcnt]
    included. *)
Definition add_disk (i : Z) (st : locals) : locals :=
  if (i <? bestcnt st) && (best_at (best st) i =? chosen_drive st) then st
  else
    let j := if i <? bestcnt st then best_at (best st) i else chosen_drive st in
    if 0 <=? j then
      let d := dev_at (devices st) j in
      let req := ADD_NEW_DISK (Dev.major d) (Dev.minor d) in
      let r := ioctl E (log st) req in
      let st := record (EvIoctl req r) st in
      if truthy r then
        let st := say (failed_to_add (Dev.devname d)) st in
        if (i <? Super.raid_disks (first_super st)) || (i =? bestcnt st)
        then set_okcnt (u32 (okcnt st - 1)) st
        else set_sparecnt (u32 (sparecnt st - 1)) st
      else say_if verbose (added (Dev.devname d) (Dev.raid_disk d)) st
    else
      say_if (verbose && (i <? Super.raid_disks (first_super st)))
        (no_uptodate_device i) st.

Definition add_disks (st : locals) : locals :=
  for_range 0 (S (length (best st))) add_disk st.

(** The condition of lines 632-636. *)
Definition should_run (req_cnt : Z) (start_partial_ok : bool) (st : locals) : bool :=
  (runstop =? 1)
  || ((runstop =? 0)
      && (enough_now st && ((okcnt st >=? req_cnt) || start_partial_ok))).

Definition spares_shown (st : locals) : option Z :=
  if truthy (sparecnt st) then Some (sparecnt st) else None.

(** Lines 632-668: the array is started, or left assembled. *)
Definition run_policy (req_cnt : Z) (start_partial_ok : bool) (st : locals) : Z * locals :=
  if should_run req_cnt start_partial_ok st then
    let r := ioctl E (log st) RUN_ARRAY in
    let st := record (EvIoctl RUN_ARRAY r) st in
    if r =? 0 then
      (0, say (started (okcnt st)
                 (if okcnt st <? Super.raid_disks (first_super st)
                  then Some (Super.raid_disks (first_super st)) else None)
                 (spares_shown st)) st)
    else (1, say failed_to_run st)
  else if runstop =? -1 then (0, say (assembled_not_started (okcnt st)) st)
  else
    let st := say (assembled_from (okcnt st) (spares_shown st)) st in
    if negb (enough_now st) then (1, say not_enough_to_start st)
    else if req_cnt =? Super.raid_disks (first_super st)
    then (1, say (need_all_to_start req_cnt) st)
    else (1, say (need_some_to_start req_cnt (Super.raid_disks (first_super st))) st).

(** Lines 594-668, the plan for Linux 2.4 and later. *)
Definition modern_plan (req_cnt : Z) (start_partial_ok : bool) (st : locals) : Z * locals :=
  let r := ioctl E (log st) SET_ARRAY_INFO in
  let st := record (EvIoctl SET_ARRAY_INFO r) st in
  if truthy r then (1, say set_array_info_failed st)
  else run_policy req_cnt start_partial_ok (add_disks st).

(** Lines 669-683, the plan for older kernels. *)
Definition legacy_plan (st : locals) : Z * locals :=
  let d := dev_at (devices st) (chosen_drive st) in
  let req := START_ARRAY (makedev (Dev.major d) (Dev.minor d)) in
  let r := ioctl E (log st) req in
  let st := record (EvIoctl req r) st in
  (0, if truthy r then say cannot_start_array st else st).

(** Lines 393-683: everything after the probe loop. *)
Definition assemble_devices (old_linux start_partial_ok : bool) (st : locals)
  : option (Z * locals) :=
  if devcnt st =? 0 then Some (1, say no_devices_found st)
  else
    match force_loop (S (length (best st))) (avail_scan st) with
    | None => None
    | Some st =>
        match choose_drive (length (best st)) 0 (set_chosen_drive (-1) st) with
        | Exit c st => Some (c, st)
        | Go st =>
            match write_back old_linux (reconcile st) with
            | Exit c st => Some (c, st)
            | Go st =>
                let req_cnt := count_req (first_super st) in
                if negb old_linux
                then Some (modern_plan req_cnt start_partial_ok st)
                else Some (legacy_plan st)
            end
        end
    end.

(** Line 119: [int start_partial_ok = force || devlist==NULL;] *)
Definition start_partial_ok (devlist : list string) : bool :=
  force || bool_decide (devlist = []).

(** [Assemble], the exit status and the final log.  [None] would mean that
    the fuel given to the force loop was too small; it never is
    ([Assemble_returns]). *)
Definition Assemble (conffile : string) (devlist : list string) : option (Z * locals) :=
  let st := init_locals in
  let start_partial_ok := start_partial_ok devlist in
  if md_get_version E <=? 0 then Some (1, say not_an_md_device st)
  else if md_get_version E <? 9000 then Some (1, say driver_too_old st)
  else
    let old_linux := get_linux_version E <? 2004000 in
    let r := ioctl E (log st) GET_ARRAY_INFO in
    let st := record (EvIoctl GET_ARRAY_INFO r) st in
    if r >=? 0 then Some (1, say already_active st)
    else
      let r := ioctl E (log st) STOP_ARRAY in
      let st := record (EvIoctl STOP_ARRAY r) st in
      if bool_decide (devlist = [])
         && (Ident.uuid_set ident =? 0)
         && (Ident.super_minor ident <? 0)
         && bool_decide (Ident.devices ident = None)
      then Some (1, say no_identity st)
      else
        let inargv := negb (bool_decide (devlist = [])) in
        let devlist :=
          if bool_decide (devlist = []) then conf_get_devs E conffile else devlist in
        let st := say_if verbose looking_for_devices st in
        match probe_loop inargv devlist st with
        | Exit c st => Some (c, st)
        | Go st => assemble_devices old_linux start_partial_ok st
        end.

End WithEnv.

(** ** A concrete world, for running the embedding *)

(** Modelled from the spec: util.c, which defines [enough], is not among the
    sources.  The spec gives: level 0 and linear (-1) need all slots,
    level 1 and multipath (-4) need one, level 4 and 5 allow one missing
    slot, level 6 two; for level 10 no group of mirrored slots may be
    missing as a whole, the size of a group being the product of the two
    low bytes of [layout]. *)
Definition enough_spec (level raid_disks layout : Z) (avail : list bool) (avail_disks : Z)
  : bool :=
  let level := s32 level in
  if (level =? 0) || (level =? -1) then avail_disks =? raid_disks
  else if (level =? 1) || (level =? -4) then 1 <=? avail_disks
  else if (level =? 4) || (level =? 5) then raid_disks - 1 <=? avail_disks
  else if level =? 6 then raid_disks - 2 <=? avail_disks
  else if level =? 10 then
    let copies := Z.to_nat (Z.land layout 255 * Z.land (Z.shiftr layout 8) 255) in
    forallb
      (fun g => existsb id (take copies (drop (g * copies)%nat avail)))
      (seq 0 (length avail / copies)%nat)
  else false.

(** Modelled from the spec: util.c, which defines [compare_super], is not
    among the sources.  The first superblock seen becomes the reference;
    later ones must agree with it on magic, level, raid_disks, layout and
    on the words that hold the set UUID, size, chunk size and ctime (kept
    in [rest]); the result is 0 on agreement. *)
Definition compare_super_spec (first second : Super.t) : Super.t * Z :=
  if Super.md_magic first =? 0 then (second, 0)
  else if (Super.md_magic first =? Super.md_magic second)
          && (Super.level first =? Super.level second)
          && (Super.raid_disks first =? Super.raid_disks second)
          && (Super.layout first =? Super.layout second)
          && bool_decide (Super.rest first = Super.rest second)
  then (first, 0)
  else (first, 3).

(** Modelled from the spec: the headers and util.c are not among the
    sources.  The slot table has 28 entries in the spec; the flag bits are
    numbered as in the version-0.90 format (faulty 0, active 1, sync 2,
    removed 3; clean 0); the UUID is the first four words of [rest]; the
    checksum is the sum of the counters; a name matches a pattern that is
    equal to it.  The [sparc2.2] move depends on the byte layout of the
    block and is left out (no example runs that mode). *)
Definition md_0_90 : MdHeaders := {|
  MD_SB_DISKS := 28;
  UnSet := 65534;
  MD_DISK_FAULTY := 0;
  MD_DISK_ACTIVE := 1;
  MD_DISK_SYNC := 2;
  MD_DISK_REMOVED := 3;
  MD_SB_CLEAN := 0;
  match_oneof := fun pats devname => if String.eqb pats devname then 1 else 0;
  uuid_from_super := fun sb => take 4 (Super.rest sb);
  same_uuid := fun a b => if bool_decide (a = b) then 1 else 0;
  compare_super := compare_super_spec;
  calc_sb_csum := fun sb =>
    u32 (Super.events_hi sb + Super.events_lo sb + Super.state sb + Super.md_minor sb);
  sparc22_shift := fun sb => sb;
  enough := enough_spec;
  makedev := fun major minor => Z.lor (Z.shiftl major 8) minor |}.

(** A block device as the concrete world has it: its path, its device
    numbers, the superblock on it (if any), and whether it can be opened
    for writing. *)
Record blockdev := {
  bd_path : string;
  bd_major : Z;
  bd_minor : Z;
  bd_super : option Super.t;
  bd_writable : bool }.

Definition find_dev (disks : list blockdev) (name : string) : option blockdev :=
  List.find (fun d => String.eqb (bd_path d) name) disks.

(** The superblock last stored on [name] according to the log, if any. *)
Fixpoint last_stored (tr : list event) (name : string) : option Super.t :=
  match tr with
  | [] => None
  | e :: tr =>
      match last_stored tr name with
      | Some sb => Some sb
      | None =>
          match e with
          | EvStore n sb 0 => if String.eqb n name then Some sb else None
          | _ => None
          end
      end
  end.

(** The world made of the given disks, on a kernel of version [linux]
    whose md driver answers [kernel req] to every request but
    [GET_ARRAY_INFO] (the array is not active).  A superblock stored on a
    disk is what the next load finds there. *)
Definition world (linux : Z) (disks : list blockdev) (kernel : md_ioctl -> Z) : env := {|
  md_get_version := 9000;
  get_linux_version := linux;
  conf_get_devs := fun _ => bd_path <$> disks;
  mdfd_minor := 0;
  sys_open := fun _ name flags =>
    match find_dev disks name with
    | Some d => match flags with O_RDONLY_EXCL => true | O_RDWR_EXCL => bd_writable d end
    | None => false
    end;
  sys_fstat := fun _ name =>
    (fun d => {| st_isblk := true; st_major := bd_major d; st_minor := bd_minor d |})
      <$> find_dev disks name;
  load_super := fun tr name buf =>
    match last_stored tr name with
    | Some sb => (0, sb)
    | None =>
        match mbind bd_super (find_dev disks name) with
        | Some sb => (0, sb)
        | None => (1, buf)
        end
    end;
  store_super := fun _ _ _ => 0;
  ioctl := fun _ req => match req with GET_ARRAY_INFO => -1 | _ => kernel req end |}.

(** A superblock of an array of [raid_disks] drives at [level], as found on
    the drive of slot [slot] with flags [state] and event counter
    [events]; [table] is its slot table. *)
Definition member_super (level raid_disks : Z) (table : list Disk.t)
    (major minor slot state events : Z) : Super.t :=
  Super.mk 2838187772 0 level raid_disks 0 0 1 0 0 0 0 0 0
    (Z.shiftr events 32) (Z.land events 4294967295) 0
    table (Disk.mk slot major minor slot state) [1; 2; 3; 4].

Definition no_ident : Ident.t := Ident.mk 0 [] 65534 None 65534 65534.

(** The ioctl requests of a log, in order. *)
Definition ioctls (tr : list event) : list md_ioctl :=
  omap (fun e => match e with EvIoctl req _ => Some req | _ => None end) tr.

(** The diagnostics of a log, in order. *)
Definition messages (tr : list event) : list message :=
  omap (fun e => match e with EvMsg m => Some m | _ => None end) tr.

(** The superblock stores of a log, in order. *)
Definition stores (tr : list event) : list string :=
  omap (fun e => match e with EvStore n _ _ => Some n | _ => None end) tr.

(** ** Runs of parts of [Assemble] *)

(** [n] turns of the force loop in a row, each of which goes round again;
    [None] if the loop is left before. *)
Fixpoint force_turns `{H : MdHeaders} (E : env) (force : bool) (n : nat) (st : locals)
  : option locals :=
  match n with
  | O => Some st
  | S n =>
      let '(st, again) := force_iter E force st in
      if again then force_turns E force n st else None
  end.

(** The slot chooser run over a sequence of committed devices, each given
    by its name, its [fstat] record and its superblock after the update. *)
Definition commit_all (verbose : bool) (xs : list (string * stat * Super.t)) (st : locals)
  : locals :=
  foldl (fun st x => commit verbose x.1.1 x.1.2 (set_super x.2 st)) st xs.

(** The state in which the devices of [devlist] leave the probe loop. *)
Definition probed `{H : MdHeaders} (E : env) (ident : Ident.t) (update : option string)
    (verbose inargv : bool) (devlist : list string) : locals :=
  match probe_loop E ident update verbose inargv devlist init_locals with
  | Exit _ st => st
  | Go st => st
  end.

(** The exit status and the final state of a run. *)
Definition status (r : option (Z * locals)) : Z :=
  match r with Some (code, _) => code | None => -1 end.
Definition final (r : option (Z * locals)) : locals :=
  match r with Some (_, st) => st | None => init_locals end.

(** The state in which the devices of [devlist], named by the caller, enter
    the force loop, and the state in which they enter the reconciler. *)
Definition scanned `{H : MdHeaders} (E : env) (ident : Ident.t) (force : bool)
    (devlist : list string) : locals :=
  avail_scan force (probed E ident None false true devlist).

Definition chosen `{H : MdHeaders} (E : env) (ident : Ident.t) (force : bool)
    (devlist : list string) : locals :=
  match force_loop E force (S (length (best (scanned E ident force devlist))))
          (scanned E ident force devlist) with
  | Some st =>
      match choose_drive E (length (best st)) 0 (set_chosen_drive (-1) st) with
      | Exit _ st => st
      | Go st => st
      end
  | None => init_locals
  end.

(** ** Concrete inputs *)

(** The slot table of a healthy three-drive array: slots 0, 1, 2 on
    (8,1), (8,17), (8,33), all active and in sync. *)
Definition table3 : list Disk.t :=
  [Disk.mk 0 8 1 0 6; Disk.mk 1 8 17 1 6; Disk.mk 2 8 33 2 6].

(** A member of a three-drive RAID-5 array. *)
Definition raid5_member (name : string) (minor slot state events : Z) : blockdev :=
  {| bd_path := name; bd_major := 8; bd_minor := minor;
     bd_super := Some (member_super 5 3 table3 8 minor slot state events);
     bd_writable := true |}.

Definition kernel_ok : md_ioctl -> Z := fun _ => 0.

(** [Assemble] on the concrete world made of [disks], all of them named on
    the command line, with no identity, no update and [runstop = 0]. *)
Definition assemble_named (linux : Z) (kernel : md_ioctl -> Z) (force : bool)
    (disks : list blockdev) : option (Z * locals) :=
  Assemble (H := md_0_90) (world linux disks kernel) no_ident None 0 false force
    "mdadm.conf" (bd_path <$> disks).

(** Slot 0 is current; /dev/sdd1 is an older drive that also claims slot 0;
    slots 1 and 2 are stale, slot 2 the newer of the two. *)
Definition stale_slot2_disks : list blockdev :=
  [raid5_member "/dev/sda1" 1 0 6 100;
   raid5_member "/dev/sdd1" 49 0 6 90;
   raid5_member "/dev/sdb1" 17 1 6 95;
   raid5_member "/dev/sdc1" 33 2 6 97].

(** Three current drives. *)
Definition clean_disks : list blockdev :=
  [raid5_member "/dev/sda1" 1 0 6 100;
   raid5_member "/dev/sdb1" 17 1 6 100;
   raid5_member "/dev/sdc1" 33 2 6 100].

(** A driver that refuses [START_ARRAY]. *)
Definition kernel_no_start : md_ioctl -> Z :=
  fun req => match req with START_ARRAY _ => -1 | _ => 0 end.


(** A spare of the array and nothing else: slot 3 of three, no flag set. *)
Definition spare_only : list blockdev :=
  [raid5_member "/dev/sde1" 65 3 0 100].

(** A disk without a superblock, named before three good drives. *)
Definition blank_first_disks : list blockdev :=
  {| bd_path := "/dev/sdx"; bd_major := 8; bd_minor := 80; bd_super := None;
     bd_writable := true |} :: clean_disks.

(** An identity that asks for a UUID. *)
Definition uuid_ident : Ident.t := Ident.mk 1 [1; 2; 3; 4] 65534 None 65534 65534.

(** Three current drives whose slot table has slot 1 on (8,18), while the
    drive of slot 1 recorded (8,17) for itself. *)
Definition moved_table : list Disk.t :=
  [Disk.mk 0 8 1 0 6; Disk.mk 1 8 18 1 6; Disk.mk 2 8 33 2 6].

Definition moved_member (name : string) (minor slot : Z) : blockdev :=
  {| bd_path := name; bd_major := 8; bd_minor := minor;
     bd_super := Some (member_super 5 3 moved_table 8 minor slot 6 100);
     bd_writable := true |}.

Definition moved_disks : list blockdev :=
  [moved_member "/dev/sda1" 1 0; moved_member "/dev/sdb1" 17 1;
   moved_member "/dev/sdc1" 33 2].

(** Slot 0 is current, slots 1 and 2 are stale, and the drive of slot 1
    cannot be opened for writing. *)
Definition readonly_stale_disks : list blockdev :=
  [raid5_member "/dev/sda1" 1 0 6 100;
   {| bd_path := "/dev/sdb1"; bd_major := 8; bd_minor := 17;
      bd_super := Some (member_super 5 3 table3 8 17 1 6 95);
      bd_writable := false |};
   raid5_member "/dev/sdc1" 33 2 6 95].

(** Slots 0 and 1 are current, slot 2 is five events behind. *)
Definition one_stale_disks : list blockdev :=
  [raid5_member "/dev/sda1" 1 0 6 100;
   raid5_member "/dev/sdb1" 17 1 6 100;
   raid5_member "/dev/sdc1" 33 2 6 95].

(** [n] mirrors of a RAID-1 array, the [k]-th on (8,k) in slot [k]. *)
Definition mirror (k : nat) : blockdev :=
  {| bd_path :=
       String.append "/dev/loop"
         (String (Ascii.ascii_of_nat (48 + k / 10))
            (String (Ascii.ascii_of_nat (48 + k mod 10)) ""));
     bd_major := 8; bd_minor := Z.of_nat k;
     bd_super := Some (member_super 1 2 [] 8 (Z.of_nat k) (Z.of_nat k) 6 100);
     bd_writable := true |}.

Definition mirrors (n : nat) : list blockdev := mirror <$> seq 0 n.

(** The three committed devices of [clean_disks], as the slot chooser takes
    them. *)
Definition clean_committed : list (string * stat * Super.t) :=
  [("/dev/sda1", Build_stat true 8 1, member_super 5 3 table3 8 1 0 6 100);
   ("/dev/sdb1", Build_stat true 8 17, member_super 5 3 table3 8 17 1 6 100);
   ("/dev/sdc1", Build_stat true 8 33, member_super 5 3 table3 8 33 2 6 100)].

(** The worlds and the states the properties are tried on. *)
Definition clean_world : env := world 2004020 clean_disks kernel_ok.
Definition clean_names : list string := bd_path <$> clean_disks.
Definition clean_run : option (Z * locals) :=
  Assemble (H := md_0_90) clean_world no_ident None 0 false false "mdadm.conf"
    clean_names.

Definition clean_probed : locals :=
  probed (H := md_0_90) clean_world no_ident None false true clean_names.

Definition blank_world : env := world 2004020 blank_first_disks kernel_ok.

Definition moved_chosen : locals :=
  chosen (H := md_0_90) (world 2004020 moved_disks kernel_ok) no_ident true
    (bd_path <$> moved_disks).

Definition readonly_world : env := world 2004020 readonly_stale_disks kernel_ok.
Definition readonly_scanned : locals :=
  scanned (H := md_0_90) readonly_world no_ident true (bd_path <$> readonly_stale_disks).

Definition one_stale_probed : locals :=
  probed (H := md_0_90) (world 2004020 one_stale_disks kernel_ok) no_ident None false
    true (bd_path <$> one_stale_disks).

Definition full_world : env := world 2004020 (mirrors 29) kernel_ok.
Definition full_probed : locals :=
  probed (H := md_0_90) full_world no_ident None false true (bd_path <$> mirrors 28).
Definition one_too_many : string := bd_path (mirror 28).


(** 28 mirrors of a RAID-1 array and, named after them, a drive of a
    three-drive RAID-5 array. *)
Definition stranger : blockdev := raid5_member "/dev/sdz1" 129 0 6 100.
Definition stranger_disks : list blockdev := mirrors 28 ++ [stranger].
Definition stranger_run : option (Z * locals) :=
  Assemble (H := md_0_90) (world 2004020 stranger_disks kernel_ok) no_ident None 0
    false false "mdadm.conf" (bd_path <$> stranger_disks).

(** ** Vocabulary of the properties *)

(** The ioctl requests of a log with the driver's answers, in order. *)
Definition kcalls (tr : list event) : list (md_ioctl * Z) :=
  omap (fun e => match e with EvIoctl req r => Some (req, r) | _ => None end) tr.

(** A call that is neither part of the modern plan nor [START_ARRAY]. *)
Definition is_preparation (c : md_ioctl * Z) : Prop :=
  c.1 = GET_ARRAY_INFO \/ c.1 = STOP_ARRAY.

Definition is_add (c : md_ioctl * Z) : Prop :=
  exists major minor, c.1 = ADD_NEW_DISK major minor.

(** The call that turn [i] of the loop of lines 601-630 makes, if any,
    with the driver's answer. *)
Definition added_by (E : env) (i : Z) (st : locals) : list (md_ioctl * Z) :=
  if (i <? bestcnt st) && (best_at (best st) i =? chosen_drive st) then []
  else
    let j := if i <? bestcnt st then best_at (best st) i else chosen_drive st in
    if 0 <=? j
    then
      let req :=
        ADD_NEW_DISK (Dev.major (dev_at (devices st) j))
          (Dev.minor (dev_at (devices st) j)) in
      [(req, ioctl E (log st) req)]
    else [].

(** The variables the driver plan reads and does not change. *)
Definition same_plan_vars (st st' : locals) : Prop :=
  devices st' = devices st /\ best st' = best st
  /\ chosen_drive st' = chosen_drive st /\ first_super st' = first_super st
  /\ avail st' = avail st.

(** [st'] has the candidates, the slot map and the newest device of [st]. *)
Definition same_candidates (st st' : locals) : Prop :=
  devices st' = devices st /\ best st' = best st /\ most_recent st' = most_recent st.

(** None of the four identity criteria of lines 222-249 is set. *)
Definition identity_unset `{H : MdHeaders} (ident : Ident.t) : Prop :=
  Ident.uuid_set ident = 0 /\ Ident.super_minor ident = UnSet
  /\ Ident.level ident = UnSet /\ Ident.raid_disks ident = UnSet.

(** The record the probe loop makes of a committed device. *)
Definition candidate_of (x : string * stat * Super.t) : Dev.t :=
  candidate x.1.1 x.1.2 x.2.

(** The slot the [k]-th committed device claims: its slot key when that is
    below 10000, no slot otherwise. *)
Definition claimed_slot (xs : list (string * stat * Super.t)) (k : nat) : option Z :=
  match xs !! k with
  | Some x =>
      let key := slot_key (Super.level x.2) (candidate_of x) (Z.of_nat k) in
      if key <? 10000 then Some key else None
  | None => None
  end.

(** The slot map holds, for slot [i], the newest of the devices of [xs]
    that claim it, and among the newest the first to arrive; the entry is
    -1 when no device of [xs] claims the slot. *)
Definition holds_newest (xs : list (string * stat * Super.t)) (b : list Z) (i : Z) : Prop :=
  let ev k := Dev.events (dev_at (candidate_of <$> xs) (Z.of_nat k)) in
  (best_at b i = -1 /\ forall k, claimed_slot xs k <> Some i)
  \/ exists j : nat,
       best_at b i = Z.of_nat j /\ claimed_slot xs j = Some i
       /\ forall k, claimed_slot xs k = Some i ->
                    ev k < ev j \/ (ev k = ev j /\ (j <= k)%nat).

(** [devices[j]] can still be picked by the force loop: it is in the array,
    not up to date, and its event counter is positive. *)
Definition stale (devs : list Dev.t) (j : Z) : bool :=
  (0 <=? j) && negb (Dev.uptodate (dev_at devs j)) && (Dev.events (dev_at devs j) >? 0).

(** The slots the selection loop of the force loop looks at: the first
    [raid_disks] entries of [best]. *)
Definition data_slots (st : locals) : list Z :=
  take (Z.to_nat (Super.raid_disks (first_super st))) (best st).

(** The number of data slots whose drive can still be picked. *)
Definition stale_slots (st : locals) : nat :=
  length (filter (fun j => stale (devices st) j = true) (data_slots st)).

(** The test of lines 404-405: the array is not multipath and the drive is
    not marked in sync. *)
Definition out_of_sync `{H : MdHeaders} (level : Z) (d : Dev.t) : bool :=
  negb (s32 level =? -4) && negb (has_bit (Dev.state d) MD_DISK_SYNC).

(** The test of lines 410-411 against the newest event counter. *)
Definition recent (force : bool) (newest : Z) (d : Dev.t) : bool :=
  s64 (Dev.events d + event_margin force) >=? newest.

(** The drive [devices[j]] passes both tests. *)
Definition passes `{H : MdHeaders} (force : bool) (st : locals) (j : Z) : bool :=
  negb (out_of_sync (Super.level (first_super st)) (dev_at (devices st) j))
  && recent force (Dev.events (dev_at (devices st) (most_recent st)))
       (dev_at (devices st) j).

(** Slot [i] adds one to [okcnt] in the scan. *)
Definition ok_slot `{H : MdHeaders} (force : bool) (st : locals) (i : Z) : bool :=
  (0 <=? best_at (best st) i)
  && passes force st (best_at (best st) i)
  && (i <? Super.raid_disks (first_super st)).

(** Slot [i] adds one to [sparecnt] in the scan. *)
Definition spare_slot `{H : MdHeaders} (force : bool) (st : locals) (i : Z) : bool :=
  let j := best_at (best st) i in
  (0 <=? j)
  && (if out_of_sync (Super.level (first_super st)) (dev_at (devices st) j)
      then negb (has_bit (Dev.state (dev_at (devices st) j)) MD_DISK_FAULTY)
      else recent force (Dev.events (dev_at (devices st) (most_recent st)))
             (dev_at (devices st) j)
           && (Super.raid_disks (first_super st) <=? i)).

(** The drives of [st'] are those of [st] but for their [uptodate] flags. *)
Definition same_drives (st st' : locals) : Prop :=
  length (devices st') = length (devices st)
  /\ forall j, Dev.events (dev_at (devices st') j) = Dev.events (dev_at (devices st) j)
            /\ Dev.state (dev_at (devices st') j) = Dev.state (dev_at (devices st) j).

(** The state [s] of the availability scan of [st0] after the slots below
    [k]. *)
Record scanned_to `{H : MdHeaders} (force : bool) (st0 : locals) (k : Z) (s : locals)
  : Prop := {
  sc_best : best s = best st0;
  sc_first : first_super s = first_super st0;
  sc_recent : most_recent s = most_recent st0;
  sc_drives : same_drives st0 s;
  sc_avail_len : length (avail s) = Z.to_nat (Super.raid_disks (first_super st0));
  sc_overrun : overrun s = overrun st0;
  sc_uptodate : forall j,
    Dev.uptodate (dev_at (devices s) j) = true <->
    0 <= j < devcnt st0
    /\ exists i, 0 <= i < k /\ best_at (best st0) i = j /\ passes force st0 j = true;
  sc_avail : forall i,
    zlookup (avail s) i = Some true <->
    0 <= i < k /\ i < Super.raid_disks (first_super st0)
    /\ 0 <= best_at (best st0) i /\ passes force st0 (best_at (best st0) i) = true;
  sc_okcnt : okcnt s
    = u32 (Z.of_nat (length (filter (fun i => ok_slot force st0 i = true) (seqZ 0 k))));
  sc_sparecnt : sparecnt s
    = u32 (Z.of_nat (length (filter (fun i => spare_slot force st0 i = true)
                               (seqZ 0 k)))) }.

(** The numbers a drive recorded for itself differ from those of slot [i]
    of [super] (the test of lines 530-531). *)
Definition renumbered (i : Z) (d : Dev.t) (st : locals) : bool :=
  negb (Dev.oldmajor d =? Disk.major (Super.disk (super st) i))
  || negb (Dev.oldminor d =? Disk.minor (Super.disk (super st) i)).

(** Slot [i] holds a drive that is up to date (the tests of lines 489-492
    and 517-520). *)
Definition usable (st : locals) (i : Z) : bool :=
  (0 <=? best_at (best st) i)
  && Dev.uptodate (dev_at (devices st) (best_at (best st) i)).

(** Every slot that holds an up-to-date drive lies inside the slot table
    of [super]: those are the slots for which the reconciler reads and
    writes [super.disks[i]], and the table has [MD_SB_DISKS] entries. *)
Definition slots_in_table `{H : MdHeaders} (st : locals) : bool :=
  forallb
    (fun i =>
       negb (usable st i)
       || (i <? Z.min MD_SB_DISKS (Z.of_nat (length (Super.disks (super st))))))
    (seqZ 0 (bestcnt st)).


(** ** Vocabulary of the further properties *)

(** The devices a log opens, in order. *)
Definition opened (tr : list event) : list string :=
  omap (fun e => match e with EvOpen n _ _ => Some n | _ => None end) tr.

(** The devices a log opens for writing or stores a superblock on, in
    order. *)
Definition written (tr : list event) : list string :=
  omap (fun e => match e with
                 | EvOpen n O_RDWR_EXCL _ => Some n
                 | EvStore n _ _ => Some n
                 | _ => None
                 end) tr.

(** [devices[m]] has the largest event counter of the candidates, and is
    the first of those that have it. *)
Definition newest_first (devs : list Dev.t) (m : Z) : Prop :=
  0 <= m < Z.of_nat (length devs)
  /\ forall k, 0 <= k < Z.of_nat (length devs) ->
       Dev.events (dev_at devs k) <= Dev.events (dev_at devs m)
       /\ (k < m -> Dev.events (dev_at devs k) < Dev.events (dev_at devs m)).

(** An [ADD_NEW_DISK] that the driver refused. *)
Definition refused_add (c : md_ioctl * Z) : bool :=
  match c.1 with
  | ADD_NEW_DISK _ _ => negb (c.2 =? 0)
  | _ => false
  end.

(** The number of [ADD_NEW_DISK] calls of a log that the driver refused. *)
Definition refused_adds (tr : list event) : Z :=
  Z.of_nat (length (filter (fun c => refused_add c = true) (kcalls tr))).

(** Slot [i] of the table of [sb] names a device (lines 307-308). *)
Definition named_slot (sb : Super.t) (i : Z) : bool :=
  truthy (Disk.major (Super.disk sb i)) || truthy (Disk.minor (Super.disk sb i)).

(** [x & (1 << n)] for the state of slot [i] read as an [int]. *)
Definition slot_flag `{H : MdHeaders} (sb : Super.t) (n i : Z) : bool :=
  has_bit (s32 (Disk.state (Super.disk sb i))) n.

(** Slot [i] is counted by the [summaries] update: it names a device that
    is not removed. *)
Definition counted_slot `{H : MdHeaders} (sb : Super.t) (i : Z) : bool :=
  named_slot sb i && negb (slot_flag sb MD_DISK_REMOVED i).

(** The number of slots below [k] that satisfy [P], as an [unsigned int]. *)
Definition count_below (k : Z) (P : Z -> bool) : Z :=
  u32 (Z.of_nat (length (filter (fun i => P i = true) (seqZ 0 k)))).

(** The same over the whole table. *)
Definition count_slots `{H : MdHeaders} (P : Z -> bool) : Z :=
  count_below MD_SB_DISKS P.

(** Slot [i] is one whose state the [summaries] update clears: it names no
    device, lies past the data slots and has number 0 (line 321). *)
Definition cleared_slot `{H : MdHeaders} (sb : Super.t) (i : Z) : bool :=
  (0 <=? i) && (i <? MD_SB_DISKS) && negb (named_slot sb i)
  && (Super.raid_disks sb <=? i) && (Disk.number (Super.disk sb i) =? 0).

(** The number of bytes of [avail] that are set. *)
Definition set_bytes (avail : list bool) : Z :=
  Z.of_nat (length (filter (fun b => b = true) avail)).

(** The superblock after the slots below [k] of the loop of lines
    306-322, started on [sb] with its five counters cleared. *)
Definition summed_to `{H : MdHeaders} (sb : Super.t) (k : Z) (s : Super.t) : Prop :=
  let count := count_below k in
  Super.nr_disks s = count (counted_slot sb)
  /\ Super.active_disks s
     = count (fun i => counted_slot sb i && slot_flag sb MD_DISK_ACTIVE i)
  /\ Super.failed_disks s
     = count (fun i => counted_slot sb i && slot_flag sb MD_DISK_FAULTY i)
  /\ Super.working_disks s
     = count (fun i => counted_slot sb i && negb (slot_flag sb MD_DISK_FAULTY i))
  /\ Super.spare_disks s
     = count (fun i => counted_slot sb i
                       && (s32 (Disk.state (Super.disk sb i)) =? 0))
  /\ u32 (Super.working_disks s + Super.failed_disks s) = Super.nr_disks s
  /\ (forall c, Super.disk s c
                = if (c <? k) && cleared_slot sb c
                  then Disk.set_state 0 (Super.disk sb c) else Super.disk sb c)
  /\ length (Super.disks s) = length (Super.disks sb)
  /\ Super.raid_disks s = Super.raid_disks sb
  /\ Super.level s = Super.level sb
  /\ Super.state s = Super.state sb
  /\ Super.events_hi s = Super.events_hi sb
  /\ Super.events_lo s = Super.events_lo sb.


(** [avail[i]] is inside the block and set. *)
Definition is_set (avail : list bool) (i : Z) : bool :=
  match zlookup avail i with Some true => true | _ => false end.

(** The state a slot should have (lines 512-515): active and in sync for a
    data slot, 0 past the data slots. *)
Definition desired_state `{H : MdHeaders} (sb : Super.t) (i : Z) : Z :=
  if i <? Super.raid_disks sb
  then Z.lor (bit MD_DISK_ACTIVE) (bit MD_DISK_SYNC) else 0.

(** Slot [i] of [super] as the reconciler leaves it when the drive of the
    slot is up to date: the numbers the drive recorded for itself, and with
    [force] the state the slot should have. *)
Definition reconciled_disk `{H : MdHeaders} (force : bool) (st : locals) (i : Z)
  : Disk.t :=
  let d := dev_at (devices st) (best_at (best st) i) in
  let old := Super.disk (super st) i in
  Disk.mk (Disk.number old) (Dev.oldmajor d) (Dev.oldminor d) (Disk.raid_disk old)
    (if force then desired_state (super st) i else Disk.state old).

(** What the blocks of the reconciler keep. *)
Definition same_but_super (s s' : locals) : Prop :=
  devices s' = devices s /\ best s' = best s /\ okcnt s' = okcnt s
  /\ Super.raid_disks (super s') = Super.raid_disks (super s)
  /\ Super.level (super s') = Super.level (super s)
  /\ Super.state (super s') = Super.state (super s)
  /\ length (Super.disks (super s')) = length (Super.disks (super s)).

(** The request that hands [devices[j]] to the driver: the numbers the
    device has now (lines 613-614). *)
Definition add_request (devs : list Dev.t) (j : Z) : md_ioctl :=
  ADD_NEW_DISK (Dev.major (dev_at devs j)) (Dev.minor (dev_at devs j)).

(** An entry of the slot map that the loop of lines 601-630 adds in its
    turn: a drive, and not the chosen one. *)
Definition added_in_turn (chosen j : Z) : bool := (0 <=? j) && negb (j =? chosen).

(** ** Further concrete inputs *)


(** An identity that says nothing, with [super_minor] at -1, and a world
    whose array is active already: [GET_ARRAY_INFO] answers 0. *)
Definition blank_ident : Ident.t := Ident.mk 0 [] (-1) None 65534 65534.
Definition active_world : env :=
  {| md_get_version := 9000;
     get_linux_version := 2004020;
     conf_get_devs := fun _ => clean_names;
     mdfd_minor := 0;
     sys_open := sys_open clean_world;
     sys_fstat := sys_fstat clean_world;
     load_super := load_super clean_world;
     store_super := store_super clean_world;
     ioctl := fun _ _ => 0 |}.
Definition active_run : option (Z * locals) :=
  Assemble (H := md_0_90) active_world blank_ident None 0 false false "mdadm.conf" [].

(** The three current drives after the availability scan and after the
    choice of the reference drive. *)
Definition clean_scanned : locals :=
  scanned (H := md_0_90) clean_world no_ident false clean_names.
Definition clean_chosen : locals :=
  chosen (H := md_0_90) clean_world no_ident false clean_names.

(** The state in which the force loop leaves [readonly_scanned]. *)
Definition readonly_forced : locals :=
  default init_locals (force_loop (H := md_0_90) readonly_world true 4 readonly_scanned).

Definition one_stale_world : env := world 2004020 one_stale_disks kernel_ok.
Definition one_stale_names : list string := bd_path <$> one_stale_disks.
Definition one_stale_loop : locals :=
  probed (H := md_0_90) one_stale_world no_ident None false true one_stale_names.

(** A superblock of the three-drive array whose state has the clean bit
    and the bit above it set. *)
Definition clean_super : Super.t :=
  Super.set_state 3 (member_super 5 3 table3 8 1 0 6 100).

(** * Properties *)

(** ** Loops, arrays and machine integers *)

Lemma for_range_ind {St : Type} (P : Z -> St -> Prop) (body : Z -> St -> St) :
  forall n lo s,
    P lo s ->
    (forall k s, lo <= k < lo + Z.of_nat n -> P k s -> P (k + 1) (body k s)) ->
    P (lo + Z.of_nat n) (for_range lo n body s).
Proof.
  induction n as [|n IH]; intros lo s H0 Hstep; simpl for_range.
  - replace (lo + Z.of_nat 0) with lo by lia. exact H0.
  - replace (lo + Z.of_nat (S n)) with ((lo + 1) + Z.of_nat n) by lia.
    apply IH.
    + apply Hstep; [lia | exact H0].
    + intros k s' Hk. apply Hstep. lia.
Qed.

Lemma for_range_last {St : Type} (body : Z -> St -> St) : forall n lo s,
  for_range lo (S n) body s = body (lo + Z.of_nat n) (for_range lo n body s).
Proof.
  induction n as [|n IH]; intros lo s.
  - replace (lo + Z.of_nat 0) with lo by lia. done.
  - change (for_range lo (S (S n)) body s)
      with (for_range (lo + 1) (S n) body (body lo s)).
    rewrite IH. simpl for_range.
    replace (lo + 1 + Z.of_nat n) with (lo + Z.of_nat (S n)) by lia. done.
Qed.

Lemma zlookup_Some {A} (l : list A) i x :
  zlookup l i = Some x <-> 0 <= i /\ l !! Z.to_nat i = Some x.
Proof.
  unfold zlookup. destruct (i <? 0) eqn:Hi.
  - apply Z.ltb_lt in Hi. split; [done|]. intros [? _]. lia.
  - apply Z.ltb_ge in Hi. split; [done|]. intros [_ ?]. done.
Qed.

Lemma zlookup_zinsert {A} (l : list A) k x i :
  zlookup (zinsert k x l) i
  = if decide (i = k /\ 0 <= k < Z.of_nat (length l)) then Some x else zlookup l i.
Proof.
  unfold zlookup, zinsert.
  destruct (decide _) as [[-> Hv]|Hn].
  - destruct (k <? 0) eqn:Hk; [apply Z.ltb_lt in Hk; lia|].
    apply list_lookup_insert_eq. lia.
  - destruct (i <? 0) eqn:Hi; [done|]. apply Z.ltb_ge in Hi.
    destruct (k <? 0) eqn:Hk; [done|]. apply Z.ltb_ge in Hk.
    destruct (decide (i = k)) as [->|Hne].
    + rewrite list_insert_ge; [done|lia].
    + apply list_lookup_insert_ne. lia.
Qed.

Lemma dev_at_zinsert_eq devs j d :
  0 <= j < Z.of_nat (length devs) -> dev_at (zinsert j d devs) j = d.
Proof.
  intros Hj. unfold dev_at. rewrite zlookup_zinsert, decide_True by done. done.
Qed.

Lemma dev_at_zinsert_ne devs j k d :
  j <> k -> dev_at (zinsert j d devs) k = dev_at devs k.
Proof.
  intros Hne. unfold dev_at. rewrite zlookup_zinsert, decide_False; [done|].
  intros [? _]. congruence.
Qed.

Lemma length_zinsert {A} (l : list A) i x : length (zinsert i x l) = length l.
Proof. unfold zinsert. destruct (i <? 0); [done|]. apply length_insert. Qed.

Lemma dev_at_valid devs j :
  0 <= j < Z.of_nat (length devs) -> zlookup devs j = Some (dev_at devs j).
Proof.
  intros Hj. unfold dev_at.
  destruct (zlookup devs j) eqn:Hl; [done|].
  unfold zlookup in Hl. destruct (j <? 0) eqn:Hlt; [apply Z.ltb_lt in Hlt; lia|].
  apply lookup_ge_None in Hl. lia.
Qed.

Lemma dev_at_invalid devs j :
  ~ (0 <= j < Z.of_nat (length devs)) -> dev_at devs j = Dev.zero.
Proof.
  intros Hj. unfold dev_at, zlookup.
  destruct (j <? 0) eqn:Hlt; [done|]. apply Z.ltb_ge in Hlt.
  rewrite (proj2 (lookup_ge_None _ _)); [done|lia].
Qed.

Lemma dev_at_Forall (P : Dev.t -> Prop) devs j :
  P Dev.zero -> Forall P devs -> P (dev_at devs j).
Proof.
  intros H0 Hall. unfold dev_at, zlookup.
  destruct (j <? 0); [done|].
  destruct (devs !! Z.to_nat j) as [d|] eqn:Hd; [|done].
  simpl. eapply Forall_lookup_1; done.
Qed.

Lemma truthy_false r : truthy r = false -> r = 0.
Proof. unfold truthy. destruct (r =? 0) eqn:Hr; [|done]. intros _. lia. Qed.

Lemma u32_succ x : u32 (u32 x + 1) = u32 (x + 1).
Proof. unfold u32. apply Zplus_mod_idemp_l. Qed.

Lemma s64_small x : - 2 ^ 63 <= x < 2 ^ 63 -> s64 x = x.
Proof. intros Hx. unfold s64. rewrite Z.mod_small; lia. Qed.

Lemma count_snoc (P : Z -> bool) k :
  0 <= k ->
  length (filter (fun i => P i = true) (seqZ 0 (k + 1)))
  = (length (filter (fun i => P i = true) (seqZ 0 k)) + (if P k then 1 else 0))%nat.
Proof.
  intros Hk. rewrite seqZ_app by lia. rewrite filter_app, length_app.
  f_equal. change (0 + k) with k.
  rewrite seqZ_cons by lia. rewrite seqZ_nil by lia.
  rewrite filter_cons, filter_nil.
  destruct (decide (P k = true)) as [->|Hn]; [done|].
  destruct (P k); done.
Qed.

Lemma u32_count n (b : bool) :
  u32 (Z.of_nat (n + (if b then 1 else 0)))
  = if b then u32 (u32 (Z.of_nat n) + 1) else u32 (Z.of_nat n).
Proof.
  destruct b.
  - rewrite u32_succ. f_equal. lia.
  - f_equal. lia.
Qed.

Lemma filter_shrinks (f g : Z -> bool) (c : Z) (l : list Z) :
  (forall x, g x = true -> f x = true) ->
  elem_of c l -> f c = true -> g c = false ->
  (length (filter (fun x => g x = true) l) < length (filter (fun x => f x = true) l))%nat.
Proof.
  intros Hgf Hin Hfc Hgc.
  assert (forall l', length (filter (fun x => g x = true) l')
                     <= length (filter (fun x => f x = true) l'))%nat as Hle.
  { induction l' as [|x l' IH]; [done|].
    rewrite !filter_cons.
    destruct (decide (g x = true)) as [Hg|Hg].
    - rewrite decide_True by auto. simpl. lia.
    - destruct (decide (f x = true)); simpl; lia. }
  induction l as [|x l IH]; [by apply elem_of_nil in Hin|].
  rewrite !filter_cons.
  apply elem_of_cons in Hin as [<-|Hin].
  - rewrite decide_False by congruence. rewrite decide_True by done.
    simpl. specialize (Hle l). lia.
  - specialize (IH Hin).
    destruct (decide (g x = true)) as [Hg|Hg].
    + rewrite decide_True by auto. simpl. lia.
    + destruct (decide (f x = true)); simpl; lia.
Qed.

Ltac st_simpl :=
  cbn [first_super super devices best most_recent avail overrun okcnt sparecnt
       chosen_drive change log set_first_super set_super set_devices set_best
       set_most_recent set_avail set_overrun set_okcnt set_sparecnt
       set_chosen_drive set_change set_log record say fst snd] in *.

(** ** The log *)

Lemma kcalls_app l1 l2 : kcalls (l1 ++ l2) = kcalls l1 ++ kcalls l2.
Proof. unfold kcalls. apply omap_app. Qed.

Lemma ioctls_kcalls tr : ioctls tr = fst <$> kcalls tr.
Proof.
  induction tr as [|e tr IH]; [done|].
  destruct e; simpl; rewrite ?IH; done.
Qed.

Lemma kcalls_say m st : kcalls (log (say m st)) = kcalls (log st).
Proof. unfold say, record. simpl. rewrite kcalls_app. simpl. apply app_nil_r. Qed.

Lemma kcalls_say_if b m st : kcalls (log (say_if b m st)) = kcalls (log st).
Proof. destruct b; simpl; [apply kcalls_say | done]. Qed.

Lemma kcalls_open n f ok st : kcalls (log (record (EvOpen n f ok) st)) = kcalls (log st).
Proof. unfold record. simpl. rewrite kcalls_app. simpl. apply app_nil_r. Qed.

Lemma kcalls_store n sb r st : kcalls (log (record (EvStore n sb r) st)) = kcalls (log st).
Proof. unfold record. simpl. rewrite kcalls_app. simpl. apply app_nil_r. Qed.

Lemma stores_app l1 l2 : stores (l1 ++ l2) = stores l1 ++ stores l2.
Proof. unfold stores. apply omap_app. Qed.

Ltac crunch_log :=
  repeat (case_match; simpl in * );
  repeat progress
    (rewrite ?kcalls_say_if, ?kcalls_say, ?kcalls_open, ?kcalls_store, ?kcalls_app;
     simpl);
  rewrite ?app_nil_r; try done.

(** ** The slot chooser on its own *)

Lemma best_at_grow_best b i c :
  0 <= i < 10000 -> best_at (grow_best b i) c = best_at b c.
Proof.
  intros Hi. unfold grow_best.
  destruct (Z.of_nat (length b) <=? i) eqn:Hlen; [|done].
  apply Z.leb_le in Hlen.
  assert (u32 (i + 10) = i + 10) as -> by (unfold u32; apply Z.mod_small; lia).
  unfold best_at at 1. unfold zlookup.
  destruct (c <? 0) eqn:Hc.
  { unfold best_at, zlookup. rewrite Hc. done. }
  apply Z.ltb_ge in Hc.
  rewrite list_lookup_fmap.
  destruct (decide (c < i + 10)) as [Hlt|Hge].
  - rewrite lookup_seqZ_lt by lia. simpl.
    replace (0 + Z.of_nat (Z.to_nat c)) with c by lia.
    destruct (c <? Z.of_nat (length b)) eqn:Hcb; [done|].
    apply Z.ltb_ge in Hcb. unfold best_at, zlookup.
    replace (c <? 0) with false by (symmetry; apply Z.ltb_ge; lia).
    rewrite (proj2 (lookup_ge_None _ _)); [done|lia].
  - rewrite lookup_seqZ_ge by lia. simpl.
    unfold best_at, zlookup.
    replace (c <? 0) with false by (symmetry; apply Z.ltb_ge; lia).
    rewrite (proj2 (lookup_ge_None _ _)); [done|lia].
Qed.

Lemma length_grow_best b i :
  0 <= i < 10000 -> i < Z.of_nat (length (grow_best b i)).
Proof.
  intros Hi. unfold grow_best.
  destruct (Z.of_nat (length b) <=? i) eqn:Hlen.
  - rewrite length_fmap, length_seqZ.
    assert (u32 (i + 10) = i + 10) as -> by (unfold u32; apply Z.mod_small; lia).
    lia.
  - apply Z.leb_gt in Hlen. done.
Qed.

Lemma best_at_zinsert b k x c :
  0 <= k < Z.of_nat (length b) ->
  best_at (zinsert k x b) c = if decide (c = k) then x else best_at b c.
Proof.
  intros Hk. unfold best_at. rewrite zlookup_zinsert.
  destruct (decide (c = k)) as [->|Hne].
  - rewrite decide_True by done. done.
  - rewrite decide_False; [done|]. intros [? _]. done.
Qed.

(** What [choose_slot] does to each entry of [best], for a key below
    10000. *)
Lemma choose_slot_spec devs b i n c :
  0 <= i < 10000 ->
  best_at (choose_slot devs b i n) c
  = if decide (c = i) then
      if (best_at b i =? -1)
         || (Dev.events (dev_at devs (best_at b i)) <? Dev.events (dev_at devs n))
      then n else best_at b i
    else best_at b c.
Proof.
  intros Hi. unfold choose_slot.
  replace (i <? 10000) with true by (symmetry; apply Z.ltb_lt; lia).
  rewrite (best_at_grow_best b i i) by done.
  destruct (_ || _).
  - rewrite best_at_zinsert by (split; [lia|apply length_grow_best; done]).
    rewrite best_at_grow_best by done. done.
  - rewrite best_at_grow_best by done.
    destruct (decide (c = i)) as [->|]; done.
Qed.

Lemma choose_slot_none devs b i n : 10000 <= i -> choose_slot devs b i n = b.
Proof.
  intros Hi. unfold choose_slot.
  replace (i <? 10000) with false by (symmetry; apply Z.ltb_ge; lia). done.
Qed.

Lemma claimed_slot_snoc xs x k :
  claimed_slot (xs ++ [x]) k
  = if decide (k < length xs)%nat then claimed_slot xs k
    else if decide (k = length xs) then
      if slot_key (Super.level x.2) (candidate_of x) (Z.of_nat k) <? 10000
      then Some (slot_key (Super.level x.2) (candidate_of x) (Z.of_nat k))
      else None
    else None.
Proof.
  unfold claimed_slot.
  destruct (decide (k < length xs)%nat) as [Hlt|Hge].
  - rewrite lookup_app_l by done. done.
  - destruct (decide (k = length xs)) as [->|Hne].
    + rewrite list_lookup_middle by done. done.
    + rewrite (proj2 (lookup_ge_None _ _)); [done|].
      rewrite length_app. simpl. lia.
Qed.

Lemma claimed_slot_lt xs k i : claimed_slot xs k = Some i -> (k < length xs)%nat.
Proof.
  unfold claimed_slot. destruct (xs !! k) eqn:Hx; [|done].
  intros _. eapply lookup_lt_Some. done.
Qed.

Lemma dev_at_snoc_old devs d k :
  (k < length devs)%nat -> dev_at (devs ++ [d]) (Z.of_nat k) = dev_at devs (Z.of_nat k).
Proof.
  intros Hk. unfold dev_at, zlookup.
  replace (Z.of_nat k <? 0) with false by (symmetry; apply Z.ltb_ge; lia).
  rewrite Nat2Z.id, lookup_app_l by done. done.
Qed.

Lemma dev_at_snoc_new devs d : dev_at (devs ++ [d]) (Z.of_nat (length devs)) = d.
Proof.
  unfold dev_at, zlookup.
  replace (Z.of_nat (length devs) <? 0) with false by (symmetry; apply Z.ltb_ge; lia).
  rewrite Nat2Z.id, list_lookup_middle by done. done.
Qed.

Lemma slot_key_range level d n : 0 <= slot_key level d n.
Proof. unfold slot_key, u32. destruct (_ =? _); apply Z.mod_pos_bound; lia. Qed.

(** One more committed device keeps the slot map right. *)
Lemma choose_slot_holds xs x b :
  (forall i, holds_newest xs b i) ->
  let n := Z.of_nat (length xs) in
  let devs := candidate_of <$> (xs ++ [x]) in
  forall i,
    holds_newest (xs ++ [x])
      (choose_slot devs b (slot_key (Super.level x.2) (dev_at devs n) n) n) i.
Proof.
  intros Hold n devs i.
  assert (Hdevs : devs = (candidate_of <$> xs) ++ [candidate_of x])
    by (subst devs; rewrite fmap_app; done).
  assert (Hnew : dev_at devs n = candidate_of x).
  { rewrite Hdevs. subst n. rewrite <- (length_fmap candidate_of xs).
    apply dev_at_snoc_new. }
  assert (Hev_old : forall k, (k < length xs)%nat ->
            dev_at devs (Z.of_nat k) = dev_at (candidate_of <$> xs) (Z.of_nat k)).
  { intros k Hk. rewrite Hdevs. apply dev_at_snoc_old. rewrite length_fmap. done. }
  rewrite Hnew.
  set (key := slot_key (Super.level x.2) (candidate_of x) n).
  pose proof (slot_key_range (Super.level x.2) (candidate_of x) n) as Hkey0.
  fold key in Hkey0.
  unfold holds_newest. fold devs.
  destruct (decide (key < 10000)) as [Hk|Hk].
  2:{ rewrite choose_slot_none by lia.
      destruct (Hold i) as [[Hb Hno]|(j & Hb & Hj & Hmax)].
      - left. split; [done|]. intros k. rewrite claimed_slot_snoc.
        repeat case_decide; try done. subst k. fold n. fold key.
        replace (key <? 10000) with false by (symmetry; apply Z.ltb_ge; lia). done.
      - right. exists j. pose proof (claimed_slot_lt _ _ _ Hj) as Hjl.
        split; [done|]. split.
        + rewrite claimed_slot_snoc, decide_True by done. done.
        + intros k. rewrite claimed_slot_snoc.
          repeat case_decide; try done.
          * intros Hc. rewrite !Hev_old by done. apply Hmax. done.
          * subst k. fold n. fold key.
            replace (key <? 10000) with false by (symmetry; apply Z.ltb_ge; lia).
            done. }
  rewrite choose_slot_spec by lia. rewrite Hnew.
  assert (Hclaim_new : claimed_slot (xs ++ [x]) (length xs) = Some key).
  { rewrite claimed_slot_snoc, decide_False by lia. rewrite decide_True by done.
    fold n. fold key.
    replace (key <? 10000) with true by (symmetry; apply Z.ltb_lt; lia). done. }
  destruct (decide (i = key)) as [->|Hne].
  2:{ destruct (Hold i) as [[Hb Hno]|(j & Hb & Hj & Hmax)].
      - left. split; [done|]. intros k. rewrite claimed_slot_snoc.
        repeat case_decide; try done. subst k. fold n. fold key.
        replace (key <? 10000) with true by (symmetry; apply Z.ltb_lt; lia).
        congruence.
      - right. exists j. pose proof (claimed_slot_lt _ _ _ Hj) as Hjl.
        split; [done|]. split.
        + rewrite claimed_slot_snoc, decide_True by done. done.
        + intros k. rewrite claimed_slot_snoc.
          repeat case_decide; try done.
          * intros Hc. rewrite !Hev_old by done. apply Hmax. done.
          * subst k. fold n. fold key.
            replace (key <? 10000) with true by (symmetry; apply Z.ltb_lt; lia).
            congruence. }
  destruct (Hold key) as [[Hb Hno]|(j & Hb & Hj & Hmax)].
  - rewrite Hb. cbn [Z.eqb Pos.eqb orb]. right. exists (length xs).
    split; [done|]. split; [done|].
    intros k. rewrite claimed_slot_snoc.
    repeat case_decide; try done.
    + intros Hc. exfalso. eapply Hno. done.
    + subst k. intros _. right. split; [done|lia].
  - pose proof (claimed_slot_lt _ _ _ Hj) as Hjl.
    rewrite Hb.
    replace (Z.of_nat j =? -1) with false by (symmetry; apply Z.eqb_neq; lia).
    cbn [orb]. rewrite Hev_old by done.
    destruct (_ <? _) eqn:Hlt.
    + apply Z.ltb_lt in Hlt. right. exists (length xs).
      split; [done|]. split; [done|].
      intros k. rewrite claimed_slot_snoc.
      repeat case_decide; try done.
      * intros Hc. left. fold n. rewrite Hnew, Hev_old by done.
        destruct (Hmax k Hc) as [?|[? _]]; lia.
      * subst k. intros _. right. split; [done|lia].
    + apply Z.ltb_ge in Hlt. right. exists j.
      split; [done|]. split.
      * rewrite claimed_slot_snoc, decide_True by done. done.
      * intros k. rewrite claimed_slot_snoc.
        repeat case_decide; try done.
        -- intros Hc. rewrite !Hev_old by done. apply Hmax. done.
        -- subst k. intros _. fold n. rewrite Hnew, Hev_old by done.
           destruct (decide (Dev.events (candidate_of x)
                             < Dev.events (dev_at (candidate_of <$> xs) (Z.of_nat j))));
             [left; done|right; split; lia].
Qed.

Lemma stale_valid devs j : stale devs j = true -> 0 <= j < Z.of_nat (length devs).
Proof.
  unfold stale, dev_at, zlookup. intros Hs.
  destruct (0 <=? j) eqn:H0; [|done]. apply Z.leb_le in H0.
  destruct (j <? 0) eqn:Hlt; [apply Z.ltb_lt in Hlt; lia|].
  destruct (devs !! Z.to_nat j) eqn:Hl.
  - apply lookup_lt_Some in Hl. lia.
  - simpl in Hs. done.
Qed.

Lemma mark_dev devs j j' :
  dev_at (zinsert j (Dev.set_uptodate true (dev_at devs j)) devs) j'
  = if decide (j' = j /\ 0 <= j < Z.of_nat (length devs))
    then Dev.set_uptodate true (dev_at devs j)
    else dev_at devs j'.
Proof.
  destruct (decide _) as [[-> Hv]|Hn].
  - apply dev_at_zinsert_eq. done.
  - destruct (decide (j' = j)) as [->|Hne].
    + assert (~ (0 <= j < Z.of_nat (length devs))) as Hinv by tauto.
      rewrite !dev_at_invalid; [done|done|].
      rewrite length_zinsert. done.
    + apply dev_at_zinsert_ne. done.
Qed.

Section Properties.
Context `{H : MdHeaders}.
Variable E : env.
Variable ident : Ident.t.
Variable update : option string.
Variables (runstop : Z) (verbose force : bool).

(** ** The probe loop *)

Lemma probe_kcalls inargv devname st :
  kcalls (log (probe E verbose inargv devname st).1) = kcalls (log st).
Proof. unfold probe. crunch_log. Qed.

Lemma apply_update_kcalls u devname st :
  kcalls (log (apply_update E verbose u devname st)) = kcalls (log st).
Proof.
  unfold apply_update.
  assert (forall s, kcalls (log (store_update E devname s)) = kcalls (log s)) as ->
    by (intros s; unfold store_update; crunch_log).
  unfold update_resync, update_summaries, update_minor, update_sparc, say_if.
  repeat (case_match; st_simpl); rewrite ?kcalls_app; simpl; rewrite ?app_nil_r; done.
Qed.

Lemma commit_log devname stb st :
  kcalls (log (commit verbose devname stb st)) = kcalls (log st).
Proof. unfold commit. crunch_log. Qed.

Lemma probe_step_kcalls inargv devname st :
  kcalls (log match probe_step E ident update verbose inargv st devname with
               | Exit _ st' => st' | Go st' => st' end) = kcalls (log st).
Proof.
  unfold probe_step.
  destruct (not_listed ident devname); [apply kcalls_say_if|].
  pose proof (probe_kcalls inargv devname st) as Hp.
  destruct (probe E verbose inargv devname st) as [st1 stb]. simpl in Hp.
  destruct (ident_mismatch _ _ _ _); [rewrite kcalls_say_if; done|].
  destruct stb as [stb|]; [|rewrite kcalls_say; done].
  destruct (compare_super _ _) as [f r].
  destruct (truthy r); [rewrite kcalls_say; done|].
  destruct (_ <=? _); [rewrite kcalls_say; done|].
  rewrite commit_log. destruct update; [rewrite apply_update_kcalls|]; done.
Qed.

Lemma probe_loop_kcalls inargv devlist : forall st,
  kcalls (log match probe_loop E ident update verbose inargv devlist st with
               | Exit _ st' => st' | Go st' => st' end) = kcalls (log st).
Proof.
  induction devlist as [|d l IH]; intros st; simpl; [done|].
  pose proof (probe_step_kcalls inargv d st) as Hs.
  destruct (probe_step _ _ _ _ _ _ _); [done|].
  rewrite IH. done.
Qed.

Lemma probe_same inargv devname st :
  same_candidates st (probe E verbose inargv devname st).1
  /\ first_super (probe E verbose inargv devname st).1 = first_super st
  /\ stores (log (probe E verbose inargv devname st).1) = stores (log st).
Proof.
  unfold probe, same_candidates, say_if, say, record.
  repeat (case_match; simpl); rewrite ?stores_app; simpl; rewrite ?app_nil_r; done.
Qed.

Lemma apply_update_same u devname st :
  same_candidates st (apply_update E verbose u devname st)
  /\ first_super (apply_update E verbose u devname st) = first_super st.
Proof.
  unfold apply_update.
  assert (forall s, same_candidates s (store_update E devname s)
                    /\ first_super (store_update E devname s) = first_super s) as Hs.
  { intros s. unfold store_update, same_candidates, say, record.
    repeat (case_match; st_simpl); done. }
  set (s := update_resync _ _). unfold same_candidates in *.
  destruct (Hs s) as ((-> & -> & ->) & ->). subst s.
  unfold update_resync, update_summaries, update_minor, update_sparc, say_if.
  repeat (case_match; st_simpl); done.
Qed.

(** Without a superblock a device gets through the four tests exactly when
    none of them is asked for. *)
Lemma ident_mismatch_nosuper sb devname :
  ident_mismatch ident false sb devname = None <-> identity_unset ident.
Proof.
  unfold ident_mismatch, identity_unset, truthy. cbn [negb orb].
  rewrite !andb_true_r.
  destruct (Ident.uuid_set ident =? 0) eqn:H1; cbn [negb];
    [apply Z.eqb_eq in H1|apply Z.eqb_neq in H1; split; [done|tauto]].
  destruct (Ident.super_minor ident =? UnSet) eqn:H2; cbn [negb];
    [apply Z.eqb_eq in H2|apply Z.eqb_neq in H2; split; [done|tauto]].
  destruct (Ident.level ident =? UnSet) eqn:H3; cbn [negb];
    [apply Z.eqb_eq in H3|apply Z.eqb_neq in H3; split; [done|tauto]].
  destruct (Ident.raid_disks ident =? UnSet) eqn:H4; cbn [negb];
    [apply Z.eqb_eq in H4|apply Z.eqb_neq in H4; split; [done|tauto]].
  done.
Qed.

Lemma probe_step_nosuper inargv st devname st1 :
  not_listed ident devname = false ->
  probe E verbose inargv devname st = (st1, None) ->
  (identity_unset ident ->
   probe_step E ident update verbose inargv st devname
   = Exit 1 (say (no_superblock_aborted devname) st1))
  /\ (~ identity_unset ident ->
      exists m,
        probe_step E ident update verbose inargv st devname
        = Go (say_if (inargv || verbose) m st1)
        /\ same_candidates st (say_if (inargv || verbose) m st1)).
Proof.
  intros Hl Hp. unfold probe_step. rewrite Hl, Hp.
  replace (bool_decide (is_Some (@None stat))) with false
    by (symmetry; apply bool_decide_eq_false; intros [? ?]; done).
  pose proof (ident_mismatch_nosuper (super st1) devname) as Hm.
  pose proof (probe_same inargv devname st) as (Hs & _). rewrite Hp in Hs.
  cbn [fst] in Hs.
  split.
  - intros Hu. rewrite (proj2 Hm Hu). done.
  - intros Hu. destruct (ident_mismatch ident false (super st1) devname) as [m|].
    + exists m. split; [done|]. unfold say_if, say. destruct (_ || _); done.
    + exfalso. apply Hu, Hm. done.
Qed.

Lemma probe_step_full inargv st devname st1 stb f :
  MD_SB_DISKS <= devcnt st ->
  not_listed ident devname = false ->
  probe E verbose inargv devname st = (st1, Some stb) ->
  ident_mismatch ident true (super st1) devname = None ->
  compare_super (first_super st1) (super st1) = (f, 0) ->
  probe_step E ident update verbose inargv st devname
  = Go (say (too_many_devices devname) (set_first_super f st1))
  /\ same_candidates st (say (too_many_devices devname) (set_first_super f st1))
  /\ stores (log (say (too_many_devices devname) (set_first_super f st1)))
     = stores (log st).
Proof.
  intros Hfull Hl Hp Hm Hc. unfold probe_step. rewrite Hl, Hp.
  replace (bool_decide (is_Some (Some stb))) with true
    by (symmetry; apply bool_decide_eq_true; eexists; done).
  rewrite Hm, Hc. cbn [truthy Z.eqb negb].
  pose proof (probe_same inargv devname st) as (Hs & _ & Hst). rewrite Hp in Hs, Hst.
  cbn [fst] in Hs, Hst.
  assert (devcnt (set_first_super f st1) = devcnt st) as ->.
  { unfold devcnt. st_simpl. destruct Hs as (-> & _). done. }
  replace (MD_SB_DISKS <=? devcnt st) with true by (symmetry; apply Z.leb_le; done).
  split; [done|]. split; [done|].
  unfold say, record. st_simpl. rewrite stores_app. simpl. rewrite app_nil_r. done.
Qed.

(** A device that passes the four tests and does not agree with the
    reference superblock ends [Assemble], however many candidates there
    are (lines 261-265 come before the count of line 269). *)
Lemma probe_step_mismatch inargv st devname st1 stb f r :
  not_listed ident devname = false ->
  probe E verbose inargv devname st = (st1, Some stb) ->
  ident_mismatch ident true (super st1) devname = None ->
  compare_super (first_super st1) (super st1) = (f, r) -> r <> 0 ->
  probe_step E ident update verbose inargv st devname
  = Exit 1 (say (superblock_mismatch_aborted devname) (set_first_super f st1)).
Proof.
  intros Hl Hp Hm Hc Hr. unfold probe_step. rewrite Hl, Hp.
  replace (bool_decide (is_Some (Some stb))) with true
    by (symmetry; apply bool_decide_eq_true; eexists; done).
  rewrite Hm, Hc. unfold truthy.
  replace (r =? 0) with false by (symmetry; apply Z.eqb_neq; done).
  done.
Qed.

(** A turn of the loop adds at most one candidate, and none when
    [MD_SB_DISKS] are there. *)
Lemma probe_step_devcnt inargv st devname :
  let st' := match probe_step E ident update verbose inargv st devname with
             | Exit _ st' => st' | Go st' => st' end in
  devcnt st' = devcnt st \/ (devcnt st < MD_SB_DISKS /\ devcnt st' = devcnt st + 1).
Proof.
  unfold probe_step, devcnt.
  destruct (not_listed ident devname).
  { left. unfold say_if, say. destruct (_ || _); done. }
  destruct (probe_same inargv devname st) as ((Hp & _) & _).
  destruct (probe E verbose inargv devname st) as [st1 stb]. cbn [fst] in Hp.
  destruct (ident_mismatch _ _ _ _).
  { left. unfold say_if, say. destruct (_ || _); st_simpl; congruence. }
  destruct stb as [stb|]; [|left; st_simpl; congruence].
  destruct (compare_super _ _) as [f r].
  destruct (truthy r); [left; st_simpl; congruence|].
  st_simpl. rewrite Hp.
  destruct (_ <=? _) eqn:Hfull; [left; st_simpl; congruence|].
  apply Z.leb_gt in Hfull. right. split; [done|].
  set (st2 := match update with Some u => _ | None => _ end).
  assert (devices st2 = devices st) as Hd2.
  { subst st2. destruct update as [u|]; [|done].
    destruct (apply_update_same u devname (set_first_super f st1)) as ((-> & _) & _).
    done. }
  unfold commit, say_if. destruct verbose; st_simpl; rewrite length_app, Hd2; simpl; lia.
Qed.

Lemma probe_loop_devcnt inargv devlist : forall st,
  let st' := match probe_loop E ident update verbose inargv devlist st with
             | Exit _ st' => st' | Go st' => st' end in
  devcnt st <= Z.max 0 MD_SB_DISKS -> devcnt st' <= Z.max 0 MD_SB_DISKS.
Proof.
  induction devlist as [|d l IH]; intros st; simpl; [done|].
  pose proof (probe_step_devcnt inargv st d) as Hs. simpl in Hs.
  destruct (probe_step E ident update verbose inargv st d) as [c s1|s1].
  - lia.
  - intros Hle. apply IH. lia.
Qed.

Lemma commit_state devname stb st :
  let st' := commit verbose devname stb st in
  devices st' = devices st ++ [candidate devname stb (super st)]
  /\ best st'
     = choose_slot (devices st') (best st)
         (slot_key (Super.level (super st)) (dev_at (devices st') (devcnt st)) (devcnt st))
         (devcnt st)
  /\ most_recent st' = newer (devices st') (most_recent st) (devcnt st)
  /\ super st' = super st /\ first_super st' = first_super st.
Proof.
  intros st'. subst st'. unfold commit, say_if, devcnt.
  destruct verbose; st_simpl; repeat split; reflexivity.
Qed.

Lemma commit_all_snoc xs x st :
  commit_all verbose (xs ++ [x]) st
  = commit verbose x.1.1 x.1.2 (set_super x.2 (commit_all verbose xs st)).
Proof. unfold commit_all. rewrite foldl_app. done. Qed.

(** The candidates and the slot map after the devices of [xs]. *)
Lemma commit_all_state xs :
  devices (commit_all verbose xs init_locals) = candidate_of <$> xs
  /\ forall i, holds_newest xs (best (commit_all verbose xs init_locals)) i.
Proof.
  induction xs as [|x xs [IHd IHb]] using rev_ind.
  - split; [done|]. intros i. left. split.
    + unfold best_at, zlookup. simpl. destruct (i <? 0); done.
    + intros k. unfold claimed_slot. rewrite lookup_nil. done.
  - rewrite commit_all_snoc.
    set (st := commit_all verbose xs init_locals) in *.
    destruct (commit_state x.1.1 x.1.2 (set_super x.2 st)) as (Hd & Hb & _).
    st_simpl.
    assert (devices (commit verbose x.1.1 x.1.2 (set_super x.2 st))
            = candidate_of <$> (xs ++ [x])) as Hd'.
    { rewrite Hd, IHd, fmap_app. done. }
    split; [done|].
    intros i. rewrite Hb, Hd'.
    assert (devcnt (set_super x.2 st) = Z.of_nat (length xs)) as ->.
    { unfold devcnt. st_simpl. rewrite IHd, length_fmap. done. }
    apply choose_slot_holds. done.
Qed.

(** A turn of the probe loop that goes on either leaves the candidates as
    they are, or commits the device with the superblock that is in [super]
    at the end of the turn. *)
Lemma probe_step_commits inargv st devname st' :
  probe_step E ident update verbose inargv st devname = Go st' ->
  same_candidates st st'
  \/ exists stb st2,
       same_candidates st st2 /\ super st2 = super st'
       /\ st' = commit verbose devname stb st2.
Proof.
  unfold probe_step.
  destruct (not_listed ident devname).
  { intros [= <-]. left. unfold say_if, say. destruct (_ || _); done. }
  destruct (probe_same inargv devname st) as [Hp _].
  destruct (probe E verbose inargv devname st) as [st1 stb]. cbn [fst] in Hp.
  destruct (ident_mismatch _ _ _ _).
  { intros [= <-]. left. unfold say_if, say. destruct (_ || _); done. }
  destruct stb as [stb|]; [|done].
  destruct (compare_super _ _) as [f r].
  destruct (truthy r); [done|].
  destruct (_ <=? _).
  { intros [= <-]. left. done. }
  intros [= <-]. right. exists stb.
  eexists. split; [|split; [|reflexivity]].
  - destruct update as [u|].
    + destruct (apply_update_same u devname (set_first_super f st1)) as [Hu _].
      unfold same_candidates in *. st_simpl. intuition congruence.
    + done.
  - destruct (commit_state devname stb
                (match update with
                 | Some u => apply_update E verbose u devname (set_first_super f st1)
                 | None => set_first_super f st1 end)) as (_ & _ & _ & Hs & _).
    rewrite Hs. done.
Qed.

(** The candidates and the slot map at the end of the probe loop are those
    of the slot chooser run over the devices the loop committed. *)
Lemma probe_loop_commits inargv devlist : forall st st' xs,
  probe_loop E ident update verbose inargv devlist st = Go st' ->
  devices st = devices (commit_all verbose xs init_locals) ->
  best st = best (commit_all verbose xs init_locals) ->
  exists xs',
    devices st' = devices (commit_all verbose xs' init_locals)
    /\ best st' = best (commit_all verbose xs' init_locals).
Proof.
  induction devlist as [|d l IH]; intros st st' xs; simpl.
  - intros [= <-] Hd Hb. exists xs. done.
  - destruct (probe_step E ident update verbose inargv st d) as [|s1] eqn:Hstep; [done|].
    intros Hl Hd Hb.
    apply probe_step_commits in Hstep as [(Hd1 & Hb1 & _)|(stb & st2 & (Hd2 & Hb2 & _) & Hs & ->)].
    + apply (IH _ _ xs Hl); congruence.
    + apply (IH _ _ (xs ++ [(d, stb, super st2)]) Hl).
      * rewrite commit_all_snoc.
        destruct (commit_state d stb st2) as (-> & _).
        destruct (commit_state d stb
                    (set_super (super st2) (commit_all verbose xs init_locals)))
          as (Hd' & _).
        cbn [fst snd] in *. rewrite Hd'. st_simpl. congruence.
      * rewrite commit_all_snoc.
        destruct (commit_state d stb st2) as (Hda & -> & _).
        destruct (commit_state d stb
                    (set_super (super st2) (commit_all verbose xs init_locals)))
          as (Hd' & Hb' & _).
        cbn [fst snd] in *. rewrite Hb', Hd', Hda. unfold devcnt. st_simpl.
        rewrite Hd2, Hb2, Hd, Hb. done.
Qed.

(** ** The availability scan *)

Lemma scan_slot_log i st : log (scan_slot force i st) = log st.
Proof. unfold scan_slot, store_avail, mark_uptodate. repeat (case_match; simpl); done. Qed.

Lemma avail_scan_log st : log (avail_scan force st) = log st.
Proof.
  unfold avail_scan.
  set (st0 := set_sparecnt _ _). change (log st) with (log st0).
  generalize (best st0) as b. intros b.
  apply (for_range_ind (fun _ s => log s = log st0)); [done|].
  intros k s _ Hs. rewrite scan_slot_log. done.
Qed.

Lemma scan_step st0 k s :
  scanned_to force st0 k s -> 0 <= k < bestcnt st0 ->
  scanned_to force st0 (k + 1) (scan_slot force k s).
Proof.
  intros [Hb Hf Hr [Hlen Hdr] Hal Hov Hup Hav Hok Hsp] Hk.
  set (j := best_at (best st0) k).
  assert (okcnt_next : forall b, ok_slot force st0 k = b ->
     u32 (Z.of_nat (length (filter (fun i => ok_slot force st0 i = true)
                              (seqZ 0 (k + 1)))))
     = if b then u32 (okcnt s + 1) else okcnt s).
  { intros b <-. rewrite (count_snoc (ok_slot force st0)) by lia.
    rewrite u32_count, Hok. done. }
  assert (spare_next : forall b, spare_slot force st0 k = b ->
     u32 (Z.of_nat (length (filter (fun i => spare_slot force st0 i = true)
                              (seqZ 0 (k + 1)))))
     = if b then u32 (sparecnt s + 1) else sparecnt s).
  { intros b <-. rewrite (count_snoc (spare_slot force st0)) by lia.
    rewrite u32_count, Hsp. done. }
  assert (Hup_same : passes force st0 j = false \/ j < 0 ->
    forall j', Dev.uptodate (dev_at (devices s) j') = true <->
      0 <= j' < devcnt st0
      /\ exists i, 0 <= i < k + 1 /\ best_at (best st0) i = j'
                   /\ passes force st0 j' = true).
  { intros Hno j'. rewrite Hup. split.
    - intros (Hv & i & Hi & Hbi & Hp). split; [done|]. exists i. split; [lia|done].
    - intros (Hv & i & Hi & Hbi & Hp). split; [done|]. exists i.
      split; [|done].
      destruct (decide (i = k)) as [->|]; [|lia].
      fold j in Hbi. subst j'. destruct Hno; [congruence|lia]. }
  assert (Hav_same : passes force st0 j = false \/ j < 0
                     \/ Super.raid_disks (first_super st0) <= k ->
    forall i, zlookup (avail s) i = Some true <->
      0 <= i < k + 1 /\ i < Super.raid_disks (first_super st0)
      /\ 0 <= best_at (best st0) i /\ passes force st0 (best_at (best st0) i) = true).
  { intros Hno i. rewrite Hav. split.
    - intros (Hi & ?). split; [lia|done].
    - intros (Hi & Hrd & Hj & Hp). split; [|done].
      destruct (decide (i = k)) as [->|]; [|lia].
      fold j in Hj, Hp. destruct Hno as [?|[?|?]]; [congruence|lia|lia]. }
  unfold scan_slot. rewrite Hb, Hf, Hr. fold j.
  assert (Hev := fun x => proj1 (Hdr x)). assert (Hsta := fun x => proj2 (Hdr x)).
  rewrite !Hev, !Hsta.
  destruct (j <? 0) eqn:Hj0.
  { apply Z.ltb_lt in Hj0.
    constructor; try done.
    - apply Hup_same. right. done.
    - apply Hav_same. right. left. done.
    - rewrite (okcnt_next false); [done|]. unfold ok_slot. fold j.
      replace (0 <=? j) with false by (symmetry; apply Z.leb_gt; done). done.
    - rewrite (spare_next false); [done|]. unfold spare_slot. fold j.
      replace (0 <=? j) with false by (symmetry; apply Z.leb_gt; done). done. }
  apply Z.ltb_ge in Hj0.
  assert ((0 <=? j) = true) as Hj0' by (apply Z.leb_le; done).
  change (negb (s32 (Super.level (first_super st0)) =? -4)
          && negb (has_bit (Dev.state (dev_at (devices st0) j)) MD_DISK_SYNC))
    with (out_of_sync (Super.level (first_super st0)) (dev_at (devices st0) j)).
  change (s64 (Dev.events (dev_at (devices st0) j) + event_margin force)
          >=? Dev.events (dev_at (devices st0) (most_recent st0)))
    with (recent force (Dev.events (dev_at (devices st0) (most_recent st0)))
            (dev_at (devices st0) j)).
  destruct (out_of_sync _ _) eqn:Hoos.
  { assert (passes force st0 j = false) as Hp by (unfold passes; rewrite Hoos; done).
    assert (ok_slot force st0 k = false) as HP1
      by (unfold ok_slot; fold j; rewrite Hp, andb_false_r; done).
    destruct (negb (has_bit _ MD_DISK_FAULTY)) eqn:Hfa.
    - constructor; st_simpl; try done.
      + apply Hup_same. left. done.
      + apply Hav_same. left. done.
      + rewrite (okcnt_next false); done.
      + rewrite (spare_next true); [done|]. unfold spare_slot. fold j.
        rewrite Hj0', Hoos, Hfa. done.
    - constructor; st_simpl; try done.
      + apply Hup_same. left. done.
      + apply Hav_same. left. done.
      + rewrite (okcnt_next false); done.
      + rewrite (spare_next false); [done|]. unfold spare_slot. fold j.
        rewrite Hj0', Hoos, Hfa. done. }
  destruct (recent _ _ _) eqn:Hrec.
  2:{ assert (passes force st0 j = false) as Hp
        by (unfold passes; rewrite Hoos, Hrec; done).
      assert (ok_slot force st0 k = false) as HP1
      by (unfold ok_slot; fold j; rewrite Hp, andb_false_r; done).
      constructor; st_simpl; try done.
      + apply Hup_same. left. done.
      + apply Hav_same. left. done.
      + rewrite (okcnt_next false); done.
      + rewrite (spare_next false); [done|]. unfold spare_slot. fold j.
        rewrite Hj0', Hoos, Hrec. done. }
  assert (passes force st0 j = true) as Hp
    by (unfold passes; rewrite Hoos, Hrec; done).
  assert (Hup_new : forall j',
    Dev.uptodate (dev_at (devices (mark_uptodate j s)) j') = true <->
    0 <= j' < devcnt st0
    /\ exists i, 0 <= i < k + 1 /\ best_at (best st0) i = j'
                 /\ passes force st0 j' = true).
  { intros j'. unfold mark_uptodate. st_simpl. rewrite mark_dev.
    destruct (decide _) as [[-> Hv]|Hn].
    - simpl. split; [intros _|done]. split; [unfold devcnt; lia|].
      exists k. split; [lia|done].
    - rewrite Hup. split.
      + intros (Hv & i & Hi & Hbi & Hpi). split; [done|]. exists i. split; [lia|done].
      + intros (Hv & i & Hi & Hbi & Hpi). split; [done|]. exists i. split; [|done].
        destruct (decide (i = k)) as [->|]; [|lia].
        fold j in Hbi. subst j'. exfalso. apply Hn. unfold devcnt in Hv. lia. }
  assert (Hdr_new : same_drives st0 (mark_uptodate j s)).
  { unfold mark_uptodate, same_drives. st_simpl. rewrite length_zinsert.
    split; [done|]. intros j'. rewrite mark_dev.
    destruct (decide _) as [[-> Hv]|Hn]; simpl; auto. }
  set (s1 := mark_uptodate j s) in *.
  assert (first_super s1 = first_super st0 /\ best s1 = best st0
          /\ most_recent s1 = most_recent st0 /\ okcnt s1 = okcnt s
          /\ sparecnt s1 = sparecnt s /\ avail s1 = avail s
          /\ overrun s1 = overrun st0) as (Hf1 & Hb1 & Hr1 & Hok1 & Hsp1 & Hav1 & Hov1).
  { subst s1. unfold mark_uptodate. st_simpl. done. }
  clearbody s1.
  rewrite Hf1. unfold store_avail.
  destruct (k <? Super.raid_disks (first_super st0)) eqn:Hkrd.
  - apply Z.ltb_lt in Hkrd. st_simpl.
    replace ((0 <=? k) && (k <? Z.of_nat (length (avail s1)))) with true.
    2:{ symmetry. rewrite Hav1, Hal.
        apply andb_true_intro. split; [apply Z.leb_le|apply Z.ltb_lt]; lia. }
    constructor; st_simpl; rewrite ?Hok1, ?Hsp1, ?Hav1; try done.
    + rewrite length_zinsert. done.
    + intros i. rewrite zlookup_zinsert.
      destruct (decide _) as [[-> Hv]|Hn].
      * split; [intros _|done]. fold j. repeat split; try lia. done.
      * rewrite Hav. split.
        -- intros (Hi & ?). split; [lia|done].
        -- intros (Hi & Hrd & Hj & Hpi). split; [|done].
           destruct (decide (i = k)) as [->|]; [|lia].
           exfalso. apply Hn. split; [done|]. rewrite Hal. lia.
    + rewrite (okcnt_next true); [done|]. unfold ok_slot. fold j.
      rewrite Hj0', Hp. simpl. apply Z.ltb_lt. done.
    + rewrite (spare_next false); [done|]. unfold spare_slot. fold j.
      rewrite Hj0', Hoos, Hrec. simpl. apply Z.leb_gt. done.
  - apply Z.ltb_ge in Hkrd.
    constructor; st_simpl; rewrite ?Hok1, ?Hsp1, ?Hav1; try done.
    + apply Hav_same. right. right. done.
    + rewrite (okcnt_next false); [done|]. unfold ok_slot. fold j.
      rewrite Hj0', Hp. simpl. apply Z.ltb_ge. done.
    + rewrite (spare_next true); [done|]. unfold spare_slot. fold j.
      rewrite Hj0', Hoos, Hrec. simpl. apply Z.leb_le. done.
Qed.

(** The scan as a whole: the invariant holds of all the slots of [best]. *)
Lemma avail_scan_scanned st :
  Forall (fun d => Dev.uptodate d = false) (devices st) ->
  scanned_to force st (bestcnt st) (avail_scan force st).
Proof.
  intros Hfresh. unfold avail_scan.
  set (st1 := set_sparecnt 0 _).
  assert (scanned_to force st1 (bestcnt st1) (for_range 0 (length (best st1)) (scan_slot force) st1))
    as Hsc.
  { replace (bestcnt st1) with (0 + Z.of_nat (length (best st1))) by (unfold bestcnt; lia).
    apply (for_range_ind (scanned_to force st1)).
    - constructor; try done.
      + subst st1. st_simpl. apply length_replicate.
      + intros j. split.
        * intros Hup. exfalso.
          assert (Dev.uptodate (dev_at (devices st) j) = false) as Hno
            by (apply (dev_at_Forall (fun d => Dev.uptodate d = false)); done).
          subst st1. st_simpl. congruence.
        * intros (_ & i & ? & _). lia.
      + intros i. split; [|intros (? & _); lia].
        subst st1. st_simpl. intros Hl. apply zlookup_Some in Hl as [_ Hl].
        apply lookup_replicate in Hl as [? _]. done.
    - intros k s Hk Hs. apply scan_step; [done|]. unfold bestcnt. lia. }
  destruct Hsc. constructor; done.
Qed.

(** ** The force loop *)

(** The selection loop returns -1 or the drive of a data slot that can be
    picked. *)
Lemma pick_stale_spec st :
  pick_stale st = -1
  \/ (elem_of (pick_stale st) (data_slots st) /\ stale (devices st) (pick_stale st) = true).
Proof.
  unfold pick_stale.
  set (n := Z.to_nat (Z.min _ _)).
  assert (forall k, 0 <= k < 0 + Z.of_nat n ->
            elem_of (best_at (best st) k) (data_slots st)) as Hin.
  { intros k Hk. unfold data_slots, best_at.
    assert (Z.to_nat k < length (best st))%nat as Hlen
      by (subst n; unfold bestcnt in *; lia).
    destruct (lookup_lt_is_Some_2 _ _ Hlen) as [x Hx].
    replace (zlookup (best st) k) with (Some x)
      by (symmetry; apply zlookup_Some; split; [lia|done]).
    simpl. apply (list_elem_of_lookup_2 _ (Z.to_nat k)).
    rewrite lookup_take_lt; [done|]. subst n. lia. }
  apply (for_range_ind (fun _ c =>
    c = -1 \/ (elem_of c (data_slots st) /\ stale (devices st) c = true))); [left; done|].
  intros k c Hk Hc. unfold pick_slot.
  destruct (_ && _) eqn:Hcond; [|done].
  right. split; [apply Hin; lia|].
  unfold stale. apply andb_prop in Hcond as [Hcond _]. exact Hcond.
Qed.

(** What one turn of the force loop that goes round again does: the drive
    [c] it picked was a stale drive of a data slot, no other drive is
    touched, and either the superblock of [c] was rewritten ([c] is now up
    to date with the newest event counter, [avail[c]] was stored and
    [okcnt] went up by one) or it was not ([okcnt] and [avail] are as
    before and the event counter of [c] is zeroed). *)
Lemma force_iter_turn st st' :
  force_iter E force st = (st', true) ->
  let c := pick_stale st in
  stale (devices st) c = true /\ elem_of c (data_slots st) /\ chosen_drive st' = c
  /\ best st' = best st /\ first_super st' = first_super st
  /\ most_recent st' = most_recent st
  /\ length (devices st') = length (devices st)
  /\ (forall k, k <> c -> dev_at (devices st') k = dev_at (devices st) k)
  /\ ((okcnt st' = u32 (okcnt st + 1)
       /\ Dev.uptodate (dev_at (devices st') c) = true
       /\ Dev.events (dev_at (devices st') c)
          = Dev.events (dev_at (devices st) (most_recent st))
       /\ avail st' = avail (store_avail c st)
       /\ overrun st' = overrun (store_avail c st)
       /\ exists sb, last (log st')
                     = Some (EvStore (Dev.devname (dev_at (devices st) c)) sb 0))
      \/ (okcnt st' = okcnt st
          /\ Dev.events (dev_at (devices st') c) = 0
          /\ avail st' = avail st /\ overrun st' = overrun st
          /\ forall sb, last (log st')
                        <> Some (EvStore (Dev.devname (dev_at (devices st) c)) sb 0))).
Proof.
  intros Hit c. unfold force_iter in Hit.
  destruct (force && negb (enough_now st)); [|done].
  cbn [chosen_drive set_chosen_drive] in Hit. fold c in Hit |- *.
  destruct (c <? 0) eqn:Hc; [done|]. apply Z.ltb_ge in Hc.
  destruct (pick_stale_spec st) as [Hneg|[Hin Hst]]; [fold c in Hneg; lia|].
  fold c in Hin, Hst.
  pose proof (stale_valid _ _ Hst) as Hval.
  split; [done|]. split; [done|].
  revert Hit. cbn [devices set_chosen_drive most_recent log say record set_log].
  set (name := Dev.devname (dev_at (devices st) c)).
  set (newest := Dev.events (dev_at (devices st) (most_recent st))).
  set (l1 := log st ++ [EvMsg _]).
  destruct (sys_open E l1 name O_RDWR_EXCL) eqn:Hopen; cbn [negb].
  2:{ intros [= <-]. cbn. rewrite length_zinsert.
      repeat split; try done.
      - intros k Hk. apply dev_at_zinsert_ne. done.
      - right. rewrite dev_at_zinsert_eq by done. repeat split; try done.
        intros sb. rewrite last_snoc. done. }
  cbn [super set_super log set_log].
  destruct (load_super E _ name _) as [r sb] eqn:Hload.
  cbn [super set_super log set_log devices].
  destruct (truthy r) eqn:Hr.
  { intros [= <-]. cbn. rewrite length_zinsert.
    repeat split; try done.
    - intros k Hk. apply dev_at_zinsert_ne. done.
    - right. rewrite dev_at_zinsert_eq by done. repeat split; try done.
      intros sb'. rewrite last_snoc. done. }
  destruct (truthy (store_super E _ name _)) eqn:Hstore.
  { intros [= <-]. cbn. rewrite length_zinsert.
    repeat split; try done.
    - intros k Hk. apply dev_at_zinsert_ne. done.
    - right. rewrite dev_at_zinsert_eq by done. repeat split; try done.
      intros sb'. rewrite last_snoc. done. }
  apply truthy_false in Hstore.
  intros [= <-].
  unfold mark_uptodate, set_dev_events, store_avail. st_simpl.
  assert (0 <= c < Z.of_nat (length (zinsert c
            (Dev.set_events newest (dev_at (devices st) c)) (devices st)))) as Hval2
    by (rewrite length_zinsert; done).
  destruct ((0 <=? c) && (c <? Z.of_nat (length (avail st)))); st_simpl;
    rewrite !length_zinsert, !dev_at_zinsert_eq by done;
    (repeat (split; [done|]));
    (split; [intros k Hk; rewrite !dev_at_zinsert_ne by done; done|]);
    left; (repeat (split; [done|])); eexists; rewrite last_snoc, Hstore; done.
Qed.

(** A turn that goes round again takes one drive out of the stale ones. *)
Lemma force_iter_decreases st st' :
  force_iter E force st = (st', true) -> (stale_slots st' < stale_slots st)%nat.
Proof.
  intros Hit. apply force_iter_turn in Hit.
  destruct Hit as (Hst & Hin & _ & Hb & Hf & _ & _ & Hother & Hc).
  set (c := pick_stale st) in *.
  unfold stale_slots, data_slots. rewrite Hb, Hf.
  apply (filter_shrinks (stale (devices st)) (stale (devices st')) c); try done.
  - intros x Hx. destruct (decide (x = c)) as [->|Hne].
    + done.
    + unfold stale in *. rewrite <- (Hother x Hne). done.
  - unfold stale.
    destruct Hc as [(_ & Hup & _)|(_ & Hev & _)].
    + rewrite Hup. simpl. rewrite andb_false_r. done.
    + rewrite Hev. apply andb_false_r.
Qed.

Lemma stale_slots_le st :
  (stale_slots st <= Z.to_nat (Super.raid_disks (first_super st)))%nat
  /\ (stale_slots st <= length (best st))%nat.
Proof.
  unfold stale_slots, data_slots.
  pose proof (length_filter (fun j => stale (devices st) j = true)
                (take (Z.to_nat (Super.raid_disks (first_super st))) (best st))) as Hl.
  rewrite length_take in Hl. lia.
Qed.

(** [n] turns in a row use up [n] stale drives. *)
Lemma force_turns_bound n : forall st st',
  force_turns E force n st = Some st' -> (n + stale_slots st' <= stale_slots st)%nat.
Proof.
  induction n as [|n IH]; intros st st'; simpl.
  - intros [= <-]. lia.
  - destruct (force_iter E force st) as [s1 again] eqn:Hit.
    destruct again; [|done].
    intros Hn. apply IH in Hn. apply force_iter_decreases in Hit. lia.
Qed.

(** The loop is left before the fuel runs out whenever the fuel exceeds the
    number of stale drives. *)
Lemma force_loop_returns fuel : forall st,
  (stale_slots st < fuel)%nat -> exists st', force_loop E force fuel st = Some st'.
Proof.
  induction fuel as [|fuel IH]; intros st Hlt; [lia|].
  simpl. destruct (force_iter E force st) as [s1 again] eqn:Hit.
  destruct again; [|eauto].
  apply IH. apply force_iter_decreases in Hit. lia.
Qed.

Lemma force_iter_kcalls st :
  kcalls (log (force_iter E force st).1) = kcalls (log st).
Proof.
  unfold force_iter, store_avail, mark_uptodate, set_dev_events. crunch_log.
Qed.

Lemma force_loop_kcalls fuel : forall st st',
  force_loop E force fuel st = Some st' -> kcalls (log st') = kcalls (log st).
Proof.
  induction fuel as [|n IH]; intros st st'; simpl; [done|].
  pose proof (force_iter_kcalls st) as Hi.
  destruct (force_iter E force st) as [s1 again]. simpl in Hi.
  destruct again.
  - intros Hl. rewrite (IH _ _ Hl). done.
  - intros [= <-]. done.
Qed.

(** ** The reference drive and the reconciler *)

Lemma choose_drive_kcalls n : forall i st,
  kcalls (log match choose_drive E n i st with
               | Exit _ st' => st' | Go st' => st' end) = kcalls (log st).
Proof.
  induction n as [|n IH]; intros i st; simpl; [done|].
  destruct (0 <=? chosen_drive st); [done|].
  destruct (best_at (best st) i <? 0); [apply IH|].
  destruct (negb _); [apply IH|].
  destruct (sys_open _ _ _ _); simpl; [|crunch_log].
  destruct (load_super _ _ _ _) as [r sb].
  destruct (truthy r); [crunch_log|].
  rewrite IH. crunch_log.
Qed.

Lemma reconcile_slot_kcalls i st :
  kcalls (log (reconcile_slot force i st)) = kcalls (log st).
Proof. unfold reconcile_slot, patch_numbers, patch_state. crunch_log. Qed.

Lemma reconcile_kcalls st :
  kcalls (log (reconcile force st)) = kcalls (log st).
Proof.
  unfold reconcile.
  assert (kcalls (log (for_range 0 (length (best st)) (reconcile_slot force) st))
          = kcalls (log st)) as Hr.
  { apply (for_range_ind (fun _ s => kcalls (log s) = kcalls (log st))); [done|].
    intros k s _ Hs. rewrite reconcile_slot_kcalls. done. }
  unfold force_clean. case_match; simpl; done.
Qed.

Lemma write_back_kcalls old_linux st :
  kcalls (log match write_back E force old_linux st with
               | Exit _ st' => st' | Go st' => st' end) = kcalls (log st).
Proof.
  unfold write_back. destruct (must_write _ _ _); [|done].
  destruct (sys_open _ _ _ _); simpl; [|crunch_log].
  destruct (truthy _); crunch_log.
Qed.

Lemma patch_numbers_change i d st :
  change (patch_numbers i d st)
  = if renumbered i d st then Z.lor (change st) CHANGE_STATE else change st.
Proof. unfold patch_numbers, renumbered. destruct (_ || _); done. Qed.

Lemma lor_state c : c = 0 \/ c = CHANGE_STATE -> Z.lor c 2 = CHANGE_STATE.
Proof. intros [->| ->]; done. Qed.

Lemma reconcile_slot_change i st :
  change st = 0 \/ change st = CHANGE_STATE ->
  change (reconcile_slot force i st) = 0
  \/ change (reconcile_slot force i st) = CHANGE_STATE.
Proof.
  intros Hc. unfold reconcile_slot, patch_state, patch_numbers, say.
  repeat (case_match; st_simpl); rewrite ?lor_state; auto.
  all: rewrite lor_state; auto.
Qed.

(** Whatever the reconciler records, it records as 2: [change] leaves the
    loop and the clean-up of lines 556-560 as 0 or 2. *)
Lemma reconcile_change st :
  change st = 0 ->
  change (reconcile force st) = 0 \/ change (reconcile force st) = CHANGE_STATE.
Proof.
  intros Hc. unfold reconcile.
  assert (change (for_range 0 (length (best st)) (reconcile_slot force) st) = 0
          \/ change (for_range 0 (length (best st)) (reconcile_slot force) st)
             = CHANGE_STATE) as Hl.
  { apply (for_range_ind (fun _ s => change s = 0 \/ change s = CHANGE_STATE));
      [auto|].
    intros k s _ Hs. apply reconcile_slot_change. done. }
  unfold force_clean. case_match; st_simpl; [|done].
  right. apply lor_state. done.
Qed.

Lemma must_write_state old_linux st :
  change st = 0 \/ change st = CHANGE_STATE ->
  must_write force old_linux st = force && (change st =? CHANGE_STATE).
Proof.
  unfold must_write. intros [-> | ->]; simpl; destruct force, old_linux; done.
Qed.

(** The write of lines 562-580: nothing when [must_write] fails; else the
    superblock with its new checksum goes to the chosen drive, and a failed
    open or store ends [Assemble] with status 1. *)
Lemma write_back_spec old_linux st :
  let name := Dev.devname (dev_at (devices st) (chosen_drive st)) in
  let sb := Super.set_sb_csum (calc_sb_csum (super st)) (super st) in
  match write_back E force old_linux st with
  | Go st' =>
      (must_write force old_linux st = false /\ st' = st)
      \/ (must_write force old_linux st = true
          /\ log st' = log st ++ [EvOpen name O_RDWR_EXCL true; EvStore name sb 0]
          /\ super st' = sb /\ change st' = 0)
  | Exit code st' =>
      code = 1 /\ must_write force old_linux st = true
      /\ (log st'
          = log st ++ [EvOpen name O_RDWR_EXCL false; EvMsg (reconcile_cannot_open name)]
          \/ exists r,
               r <> 0
               /\ log st'
                  = log st ++ [EvOpen name O_RDWR_EXCL true; EvStore name sb r;
                               EvMsg (reconcile_not_rewritten name)])
  end.
Proof.
  intros name sb. unfold write_back.
  destruct (must_write force old_linux st); [|left; done].
  st_simpl. fold name sb.
  destruct (sys_open E (log st) name O_RDWR_EXCL) eqn:Hopen; cbn [negb].
  - st_simpl.
    destruct (truthy (store_super E _ name sb)) eqn:Hstore.
    + split; [done|]. split; [done|]. right. eexists. split.
      * unfold truthy in Hstore. apply negb_true_iff, Z.eqb_neq in Hstore.
        exact Hstore.
      * st_simpl. rewrite <- !app_assoc. done.
    + apply truthy_false in Hstore. right. split; [done|].
      st_simpl. rewrite Hstore, <- app_assoc. done.
  - split; [done|]. split; [done|]. left.
    st_simpl. rewrite <- app_assoc. done.
Qed.

(** ** The driver plan *)

Lemma add_disk_shape i st :
  same_plan_vars st (add_disk E verbose i st)
  /\ kcalls (log (add_disk E verbose i st))
     = kcalls (log st) ++ added_by E i st.
Proof.
  unfold add_disk, added_by, same_plan_vars, say_if, say, record.
  repeat (case_match; simpl); rewrite ?kcalls_app; simpl;
    rewrite ?app_nil_r, <- ?app_assoc; done.
Qed.

Lemma added_by_adds i st : Forall is_add (added_by E i st).
Proof.
  unfold added_by. repeat case_match; try apply Forall_nil_2.
  all: apply Forall_cons_2; [|apply Forall_nil_2]; eexists _, _; done.
Qed.

Lemma add_disks_shape st :
  exists adds,
    same_plan_vars st (add_disks E verbose st)
    /\ kcalls (log (add_disks E verbose st)) = kcalls (log st) ++ adds
    /\ Forall is_add adds
    /\ (0 <= chosen_drive st ->
        fst <$> last adds
        = Some (ADD_NEW_DISK (Dev.major (dev_at (devices st) (chosen_drive st)))
                  (Dev.minor (dev_at (devices st) (chosen_drive st))))).
Proof.
  unfold add_disks. rewrite for_range_last.
  set (n := length (best st)).
  assert (exists adds,
    same_plan_vars st (for_range 0 n (add_disk E verbose) st)
    /\ kcalls (log (for_range 0 n (add_disk E verbose) st)) = kcalls (log st) ++ adds
    /\ Forall is_add adds) as (adds & Hsame & Hlog & Hadds).
  { apply (for_range_ind (fun _ s => exists adds,
      same_plan_vars st s /\ kcalls (log s) = kcalls (log st) ++ adds
      /\ Forall is_add adds)).
    - exists []. split; [done|]. simpl. rewrite app_nil_r. done.
    - intros k s _ (adds & Hsame & Hlog & Hadds).
      destruct (add_disk_shape k s) as [Hs' Hl'].
      exists (adds ++ added_by E k s). split; [|split].
      + unfold same_plan_vars in *. intuition congruence.
      + rewrite Hl', Hlog, app_assoc. done.
      + apply Forall_app. split; [done|apply added_by_adds]. }
  set (s := for_range 0 n (add_disk E verbose) st) in *.
  destruct (add_disk_shape (0 + Z.of_nat n) s) as [Hs' Hl'].
  exists (adds ++ added_by E (0 + Z.of_nat n) s). split; [|split; [|split]].
  - unfold same_plan_vars in *. intuition congruence.
  - rewrite Hl', Hlog, app_assoc. done.
  - apply Forall_app. split; [done|apply added_by_adds].
  - intros Hch. destruct Hsame as (Hd & Hb & Hc & _).
    unfold added_by, bestcnt. rewrite Hb, Hc, Hd.
    replace (0 + Z.of_nat n <? Z.of_nat (length (best st))) with false
      by (symmetry; apply Z.ltb_ge; subst n; lia).
    simpl. replace (0 <=? chosen_drive st) with true
      by (symmetry; apply Z.leb_le; lia).
    rewrite last_snoc. done.
Qed.

Lemma run_policy_shape req_cnt spo st :
  let r := run_policy E runstop req_cnt spo st in
  same_plan_vars st r.2 /\ okcnt r.2 = okcnt st
  /\ kcalls (log r.2)
     = kcalls (log st)
       ++ (if should_run runstop req_cnt spo st
           then [(RUN_ARRAY, ioctl E (log st) RUN_ARRAY)] else []).
Proof.
  unfold run_policy, same_plan_vars, say_if, say, record.
  repeat (case_match; simpl); rewrite ?kcalls_app; simpl;
    rewrite ?app_nil_r, <- ?app_assoc; done.
Qed.

(** The calls of the modern plan: [SET_ARRAY_INFO], and when it succeeds
    the disks and, if the policy says so, [RUN_ARRAY]. *)
Lemma modern_plan_shape req_cnt spo st :
  let r := modern_plan E runstop verbose req_cnt spo st in
  let set_ret := ioctl E (log st) SET_ARRAY_INFO in
  same_plan_vars st r.2
  /\ (set_ret <> 0 ->
      r.1 = 1 /\ kcalls (log r.2) = kcalls (log st) ++ [(SET_ARRAY_INFO, set_ret)])
  /\ (set_ret = 0 ->
      exists adds st2,
        same_plan_vars st st2
        /\ r = run_policy E runstop req_cnt spo st2
        /\ Forall is_add adds
        /\ (0 <= chosen_drive st ->
            fst <$> last adds
            = Some (ADD_NEW_DISK (Dev.major (dev_at (devices st) (chosen_drive st)))
                      (Dev.minor (dev_at (devices st) (chosen_drive st)))))
        /\ kcalls (log st2) = kcalls (log st) ++ (SET_ARRAY_INFO, 0) :: adds).
Proof.
  intros r set_ret. subst r. unfold modern_plan. fold set_ret.
  set (st1 := record (EvIoctl SET_ARRAY_INFO set_ret) st).
  assert (same_plan_vars st st1) as Hs1 by done.
  assert (kcalls (log st1) = kcalls (log st) ++ [(SET_ARRAY_INFO, set_ret)]) as Hl1.
  { subst st1. unfold record. simpl. rewrite kcalls_app. done. }
  unfold truthy. destruct (set_ret =? 0) eqn:Hz; simpl.
  - apply Z.eqb_eq in Hz.
    destruct (add_disks_shape st1) as (adds & Hs2 & Hl2 & Hadds & Hlast).
    destruct (run_policy_shape req_cnt spo (add_disks E verbose st1)) as (Hs3 & _ & _).
    split; [|split].
    + unfold same_plan_vars in *. intuition congruence.
    + intros Hne. done.
    + intros _. exists adds, (add_disks E verbose st1).
      split; [unfold same_plan_vars in *; intuition congruence|].
      split; [done|]. split; [done|]. split; [exact Hlast|].
      rewrite Hl2, Hl1, Hz, <- app_assoc. done.
  - apply Z.eqb_neq in Hz. split; [|split].
    + unfold say, record. done.
    + intros _. split; [done|]. unfold say, record. simpl.
      rewrite !kcalls_app. simpl. rewrite app_nil_r. done.
    + intros Hz'. done.
Qed.

(** ** Assemble as a whole *)





(** After the probe loop [Assemble] either returns without a call to the
    driver, or reaches one of the two plans with the log it had. *)
Lemma assemble_devices_plan old_linux spo st code st' :
  assemble_devices E runstop verbose force old_linux spo st = Some (code, st') ->
  kcalls (log st') = kcalls (log st)
  \/ exists st1,
       kcalls (log st1) = kcalls (log st)
       /\ (code, st')
          = if negb old_linux
            then modern_plan E runstop verbose (count_req (first_super st1)) spo st1
            else legacy_plan E st1.
Proof.
  unfold assemble_devices.
  destruct (devcnt st =? 0).
  { intros [= <- <-]. left. apply kcalls_say. }
  destruct (force_loop _ _ _ _) as [st1|] eqn:Hforce; [|done].
  apply force_loop_kcalls in Hforce. rewrite avail_scan_log in Hforce.
  pose proof (choose_drive_kcalls (length (best st1)) 0 (set_chosen_drive (-1) st1))
    as Hch.
  destruct (choose_drive _ _ _ _) as [c s2|s2].
  { intros [= <- <-]. left. rewrite Hch. done. }
  pose proof (write_back_kcalls old_linux (reconcile force s2)) as Hwb.
  rewrite reconcile_kcalls in Hwb.
  destruct (write_back _ _ _ _) as [c s3|s3].
  { intros [= <- <-]. left. rewrite Hwb, Hch. done. }
  intros Hplan. right. exists s3. split; [rewrite Hwb, Hch; done|].
  destruct (negb old_linux); congruence.
Qed.

Lemma Assemble_plan conffile devlist code st :
  Assemble E ident update runstop verbose force conffile devlist = Some (code, st) ->
  Forall is_preparation (kcalls (log st))
  \/ exists st1,
       Forall is_preparation (kcalls (log st1))
       /\ (code, st)
          = if negb (get_linux_version E <? 2004000)
            then modern_plan E runstop verbose (count_req (first_super st1))
                   (start_partial_ok force devlist) st1
            else legacy_plan E st1.
Proof.
  unfold Assemble.
  destruct (md_get_version E <=? 0).
  { intros [= <- <-]. left. apply Forall_nil_2. }
  destruct (md_get_version E <? 9000).
  { intros [= <- <-]. left. apply Forall_nil_2. }
  set (rg := ioctl E (log init_locals) GET_ARRAY_INFO).
  set (s1 := record (EvIoctl GET_ARRAY_INFO rg) init_locals).
  assert (Forall is_preparation (kcalls (log s1))) as H1.
  { apply Forall_cons_2; [left; done|apply Forall_nil_2]. }
  destruct (rg >=? 0).
  { intros [= <- <-]. left. rewrite kcalls_say. done. }
  set (rs := ioctl E (log s1) STOP_ARRAY).
  set (s2 := record (EvIoctl STOP_ARRAY rs) s1).
  assert (Forall is_preparation (kcalls (log s2))) as H2.
  { apply Forall_cons_2; [left; done|].
    apply Forall_cons_2; [right; done|apply Forall_nil_2]. }
  destruct (_ && _).
  { intros [= <- <-]. left. rewrite kcalls_say. done. }
  set (inargv := negb _). set (devs := if bool_decide _ then _ else _).
  pose proof (probe_loop_kcalls inargv devs (say_if verbose looking_for_devices s2))
    as Hpl.
  rewrite kcalls_say_if in Hpl.
  destruct (probe_loop _ _ _ _ _ _ _) as [c s3|s3].
  { intros [= <- <-]. left. rewrite Hpl. done. }
  intros Hdev. apply assemble_devices_plan in Hdev as [Hk|(st1 & Hk & Hplan)].
  - left. rewrite Hk, Hpl. done.
  - right. exists st1. split; [rewrite Hk, Hpl; done|done].
Qed.

(** ** The status of the early returns *)

Lemma probe_loop_exit inargv devlist : forall st c st',
  probe_loop E ident update verbose inargv devlist st = Exit c st' -> c = 1.
Proof.
  induction devlist as [|d l IH]; intros st c st'; simpl; [done|].
  destruct (probe_step E ident update verbose inargv st d) as [c1 s1|s1] eqn:Hs.
  - intros [= <- <-]. unfold probe_step in Hs.
    repeat case_match; congruence.
  - apply IH.
Qed.

Lemma choose_drive_exit n : forall i st c st',
  choose_drive E n i st = Exit c st' -> c = 1.
Proof.
  induction n as [|n IH]; intros i st c st'; simpl; [done|].
  repeat case_match; try done; try apply IH; congruence.
Qed.





(** ** The run policy *)




Lemma not_preparation req r l :
  Forall is_preparation l -> In (req, r) l -> req = GET_ARRAY_INFO \/ req = STOP_ARRAY.
Proof.
  intros Hall Hin. rewrite Forall_forall in Hall.
  apply list_elem_of_In in Hin. apply (Hall _ Hin).
Qed.


(** The calls of a run of [Assemble] on a kernel that takes the modern
    plan: preparations only, or preparations, [SET_ARRAY_INFO] and, when
    that succeeded, the disks and the decision of the run policy, taken in
    the state [st2] the final state agrees with. *)
Lemma Assemble_modern conffile devlist code st :
  Assemble E ident update runstop verbose force conffile devlist = Some (code, st) ->
  2004000 <= get_linux_version E ->
  exists pre,
    Forall is_preparation pre
    /\ (kcalls (log st) = pre
        \/ (exists r, r <> 0 /\ kcalls (log st) = pre ++ [(SET_ARRAY_INFO, r)])
        \/ exists adds st2,
             Forall is_add adds
             /\ (0 <= chosen_drive st ->
                 fst <$> last adds
                 = Some (ADD_NEW_DISK
                           (Dev.major (dev_at (devices st) (chosen_drive st)))
                           (Dev.minor (dev_at (devices st) (chosen_drive st)))))
             /\ same_plan_vars st2 st /\ okcnt st = okcnt st2
             /\ (code, st)
                = run_policy E runstop (count_req (first_super st))
                    (start_partial_ok force devlist) st2
             /\ kcalls (log st2) = pre ++ (SET_ARRAY_INFO, 0) :: adds
             /\ kcalls (log st)
                = pre ++ (SET_ARRAY_INFO, 0) :: adds
                  ++ (if should_run runstop (count_req (first_super st))
                           (start_partial_ok force devlist) st2
                      then [(RUN_ARRAY, ioctl E (log st2) RUN_ARRAY)] else [])).
Proof.
  intros Hrun Hlinux.
  apply Assemble_plan in Hrun as [Hpre|(st1 & Hpre & Hplan)].
  { exists (kcalls (log st)). split; [done|]. left. done. }
  replace (get_linux_version E <? 2004000) with false in Hplan
    by (symmetry; apply Z.ltb_ge; done).
  cbn [negb] in Hplan.
  exists (kcalls (log st1)). split; [done|].
  destruct (modern_plan_shape (count_req (first_super st1))
              (start_partial_ok force devlist) st1) as (Hsame & Hfail & Hok).
  rewrite <- Hplan in Hsame, Hfail, Hok. cbn [fst snd] in Hsame, Hfail, Hok.
  destruct (decide (ioctl E (log st1) SET_ARRAY_INFO = 0)) as [Hz|Hnz].
  - right. right.
    destruct (Hok Hz) as (adds & st2 & Hs2 & Hrp & Hadds & Hlast & Hk2).
    destruct (run_policy_shape (count_req (first_super st1))
                (start_partial_ok force devlist) st2) as (Hs3 & Hok3 & Hk3).
    rewrite <- Hrp in Hs3, Hok3, Hk3. cbn [snd] in Hs3, Hok3, Hk3.
    destruct Hsame as (Hd & Hb & Hc & Hf & Ha).
    exists adds, st2. rewrite Hd, Hc, Hf.
    split; [done|]. split; [done|]. split; [done|]. split; [done|].
    split; [done|]. split; [done|].
    rewrite Hk3, Hk2, <- app_assoc. done.
  - right. left. exists (ioctl E (log st1) SET_ARRAY_INFO).
    split; [done|]. apply Hfail. done.
Qed.







(** C5 (as amended).  In every run on a kernel that takes the modern plan,
    the calls to the driver are the preparations ([GET_ARRAY_INFO],
    [STOP_ARRAY]) alone, when [Assemble] returns before the plan, or the
    preparations, then [SET_ARRAY_INFO] once, then the [ADD_NEW_DISK]s,
    then at most one [RUN_ARRAY], which is then the last call; when
    [SET_ARRAY_INFO] succeeded and a drive was chosen, the chosen drive is
    the argument of the last [ADD_NEW_DISK]. *)
Theorem modern_plan_order conffile devlist code st :
  Assemble E ident update runstop verbose force conffile devlist = Some (code, st) ->
  2004000 <= get_linux_version E ->
  exists pre adds run,
    Forall is_preparation pre /\ Forall is_add adds
    /\ (run = [] \/ exists r, run = [(RUN_ARRAY, r)])
    /\ (kcalls (log st) = pre
        \/ exists r, kcalls (log st) = pre ++ (SET_ARRAY_INFO, r) :: adds ++ run)
    /\ (0 <= chosen_drive st -> In (SET_ARRAY_INFO, 0) (kcalls (log st)) ->
        fst <$> last adds
        = Some (ADD_NEW_DISK (Dev.major (dev_at (devices st) (chosen_drive st)))
                  (Dev.minor (dev_at (devices st) (chosen_drive st))))).
Proof.
  intros Hrun Hlinux.
  destruct (Assemble_modern _ _ _ _ Hrun Hlinux) as (pre & Hpre & Hcases).
  destruct Hcases as [Hk|[(r & Hr & Hk)|(adds & st2 & Hadds & Hlast & _ & _ & _ & _ & Hk)]].
  - exists pre, [], []. split; [done|]. split; [apply Forall_nil_2|].
    split; [left; done|]. split; [left; done|].
    intros _ Hset. rewrite Hk in Hset.
    apply (not_preparation _ _ _ Hpre) in Hset as [|]; done.
  - exists pre, [], []. split; [done|]. split; [apply Forall_nil_2|].
    split; [left; done|]. split; [right; exists r; done|].
    intros _ Hset. rewrite Hk in Hset.
    apply in_app_or in Hset as [Hset|[[= ?]|[]]]; [|done].
    apply (not_preparation _ _ _ Hpre) in Hset as [|]; done.
  - eexists pre, adds, _. split; [done|]. split; [done|].
    split; [|split; [right; exists 0; exact Hk|]].
    + destruct (should_run _ _ _ _); [right; eexists; done|left; done].
    + intros Hch _. apply Hlast. done.
Qed.

(** ** The claims on the force loop, the scan and the probe loop *)

(** C7 (as amended).  A turn of the force loop that goes round again
    either rewrote the superblock of the drive it picked, and then [okcnt]
    went up by one, or failed to rewrite it, and then [okcnt] is as before
    and the event counter of that drive is zero; either way the data slots
    have one stale drive less, so that no more than [raid_disks] turns can
    follow one another, and the loop is always left. *)
Theorem force_loop_progress :
  (forall st st',
     force_iter E force st = (st', true) ->
     (stale_slots st' < stale_slots st)%nat
     /\ ((okcnt st' = u32 (okcnt st + 1)
          /\ exists sb, last (log st')
                        = Some (EvStore (Dev.devname (dev_at (devices st) (pick_stale st)))
                                  sb 0))
         \/ (okcnt st' = okcnt st
             /\ Dev.events (dev_at (devices st') (pick_stale st)) = 0
             /\ forall sb, last (log st')
                           <> Some (EvStore
                                      (Dev.devname (dev_at (devices st) (pick_stale st)))
                                      sb 0))))
  /\ (forall n st st',
        force_turns E force n st = Some st' ->
        (n <= Z.to_nat (Super.raid_disks (first_super st)))%nat)
  /\ (forall st, exists st', force_loop E force (S (length (best st))) st = Some st').
Proof.
  split; [|split].
  - intros st st' Hit. split; [apply force_iter_decreases; done|].
    apply force_iter_turn in Hit.
    destruct Hit as (_ & _ & _ & _ & _ & _ & _ & _ & [Hok|Hfail]).
    + left. destruct Hok as (? & _ & _ & _ & _ & ?). done.
    + right. destruct Hfail as (? & ? & _ & _ & ?). done.
  - intros n st st' Hn. apply force_turns_bound in Hn.
    destruct (stale_slots_le st) as [Hle _]. lia.
  - intros st. apply force_loop_returns.
    destruct (stale_slots_le st) as [_ Hle]. lia.
Qed.

Lemma passes_iff st j :
  - 2 ^ 63 <= Dev.events (dev_at (devices st) j) + event_margin force < 2 ^ 63 ->
  passes force st j = true <->
  (s32 (Super.level (first_super st)) <> -4 ->
   has_bit (Dev.state (dev_at (devices st) j)) MD_DISK_SYNC = true)
  /\ Dev.events (dev_at (devices st) (most_recent st))
     <= Dev.events (dev_at (devices st) j) + event_margin force.
Proof.
  intros Hrange. unfold passes, out_of_sync, recent.
  rewrite (s64_small _ Hrange).
  rewrite andb_true_iff, Z.geb_le.
  destruct (s32 (Super.level (first_super st)) =? -4) eqn:Hl;
    [apply Z.eqb_eq in Hl|apply Z.eqb_neq in Hl];
    destruct (has_bit _ MD_DISK_SYNC); cbn [negb andb]; intuition congruence.
Qed.

(** C9.  In the availability scan, for a data slot [i] whose drive is
    [devices[j]]: the drive is marked up to date and [avail[i]] is set if
    and only if the drive is in sync (a test not made for multipath,
    level -4) and its event counter plus [event_margin] reaches that of
    the newest device, [event_margin] being 1 without [force] and 0 with
    it; and a drive of a non-multipath array that is neither in sync nor
    faulty adds one to [sparecnt] instead.  The sum is the [long long] sum
    of the code, taken where it does not overflow. *)
Theorem scan_marks_available st i j :
  Forall (fun d => Dev.uptodate d = false) (devices st) ->
  0 <= i < Super.raid_disks (first_super st) ->
  zlookup (best st) i = Some j -> 0 <= j < devcnt st ->
  - 2 ^ 63 <= Dev.events (dev_at (devices st) j) + event_margin force < 2 ^ 63 ->
  event_margin force = (if force then 0 else 1)
  /\ ((Dev.uptodate (dev_at (devices (avail_scan force st)) j) = true
       /\ zlookup (avail (avail_scan force st)) i = Some true)
      <-> ((s32 (Super.level (first_super st)) <> -4 ->
            has_bit (Dev.state (dev_at (devices st) j)) MD_DISK_SYNC = true)
           /\ Dev.events (dev_at (devices st) (most_recent st))
              <= Dev.events (dev_at (devices st) j) + event_margin force))
  /\ (Dev.uptodate (dev_at (devices (avail_scan force st)) j) = true
      <-> zlookup (avail (avail_scan force st)) i = Some true)
  /\ sparecnt (avail_scan force st)
     = u32 (Z.of_nat (length (filter (fun i => spare_slot force st i = true)
                                (seqZ 0 (bestcnt st)))))
  /\ (s32 (Super.level (first_super st)) <> -4 ->
      has_bit (Dev.state (dev_at (devices st) j)) MD_DISK_SYNC = false ->
      has_bit (Dev.state (dev_at (devices st) j)) MD_DISK_FAULTY = false ->
      spare_slot force st i = true
      /\ Dev.uptodate (dev_at (devices (avail_scan force st)) j) = false
      /\ zlookup (avail (avail_scan force st)) i <> Some true).
Proof.
  intros Hfresh Hi Hbest Hj Hrange.
  destruct (avail_scan_scanned st Hfresh)
    as [_ _ _ _ _ _ Hup Hav _ Hsp].
  apply zlookup_Some in Hbest as [_ Hbest].
  assert (best_at (best st) i = j) as Hbi.
  { unfold best_at, zlookup.
    replace (i <? 0) with false by (symmetry; apply Z.ltb_ge; lia).
    rewrite Hbest. done. }
  assert (0 <= i < bestcnt st) as Hib.
  { apply lookup_lt_Some in Hbest. unfold bestcnt. lia. }
  assert (Dev.uptodate (dev_at (devices (avail_scan force st)) j) = true
          <-> passes force st j = true) as Hup'.
  { rewrite Hup. split; [intros (_ & _ & _ & _ & ?); done|].
    intros Hp. split; [done|]. exists i. done. }
  assert (zlookup (avail (avail_scan force st)) i = Some true
          <-> passes force st j = true) as Hav'.
  { rewrite Hav, Hbi. split; [intros (_ & _ & _ & ?); done|].
    intros Hp. repeat split; try lia. done. }
  split; [done|]. split; [|split; [|split]].
  - rewrite Hup', Hav', (passes_iff st j Hrange). tauto.
  - rewrite Hup', Hav'. done.
  - exact Hsp.
  - intros Hlevel Hsync Hfaulty.
    assert (out_of_sync (Super.level (first_super st)) (dev_at (devices st) j) = true)
      as Hoos.
    { unfold out_of_sync. rewrite Hsync.
      apply andb_true_intro. split; [|done].
      apply negb_true_iff, Z.eqb_neq. done. }
    assert (passes force st j = false) as Hp by (unfold passes; rewrite Hoos; done).
    split; [|split].
    + unfold spare_slot. rewrite Hbi, Hoos, Hfaulty.
      replace (0 <=? j) with true by (symmetry; apply Z.leb_le; lia). done.
    + apply not_true_is_false. rewrite Hup', Hp. done.
    + rewrite Hav', Hp. done.
Qed.



(** C10 (as amended).  The probe loop never holds more than
    [MD_SB_DISKS] candidates.  Once it holds that many, a device that is on
    the list of [ident], has a superblock, passes the four tests and agrees
    with the reference superblock is skipped with the warning
    [too_many_devices]: the turn goes on to the next device, the candidates
    and the slot map are as before, and no superblock was stored.  A
    device that passes the four tests and does not agree with the
    reference superblock ends [Assemble] with status 1, whether
    [MD_SB_DISKS] candidates are held or not. *)
Theorem too_many_devices_skipped :
  (forall inargv devlist,
     devcnt (probed E ident update verbose inargv devlist) <= Z.max 0 MD_SB_DISKS)
  /\ (forall inargv st devname st1 stb f,
        MD_SB_DISKS <= devcnt st ->
        not_listed ident devname = false ->
        probe E verbose inargv devname st = (st1, Some stb) ->
        ident_mismatch ident true (super st1) devname = None ->
        compare_super (first_super st1) (super st1) = (f, 0) ->
        probe_step E ident update verbose inargv st devname
        = Go (say (too_many_devices devname) (set_first_super f st1))
        /\ same_candidates st (say (too_many_devices devname) (set_first_super f st1))
        /\ stores (log (say (too_many_devices devname) (set_first_super f st1)))
           = stores (log st))
  /\ (forall inargv st devname st1 stb f r,
        not_listed ident devname = false ->
        probe E verbose inargv devname st = (st1, Some stb) ->
        ident_mismatch ident true (super st1) devname = None ->
        compare_super (first_super st1) (super st1) = (f, r) -> r <> 0 ->
        probe_step E ident update verbose inargv st devname
        = Exit 1 (say (superblock_mismatch_aborted devname) (set_first_super f st1))).
Proof.
  split; [|split].
  - intros inargv devlist. unfold probed.
    apply (probe_loop_devcnt inargv devlist init_locals). unfold devcnt. simpl. lia.
  - intros inargv st devname st1 stb f. apply probe_step_full.
  - intros inargv st devname st1 stb f r. apply probe_step_mismatch.
Qed.

(** C3 (as amended).  A device without a superblock that is not kept out
    by the list of [ident] aborts the assembly if and only if none of the
    four identity criteria (uuid, super-minor, level, raid-disks) is set;
    when one is set the device is skipped: the candidates are as before and
    the loop goes on with the remaining devices. *)
Theorem missing_superblock_fatal_iff_unfiltered inargv st devname st1 :
  not_listed ident devname = false ->
  probe E verbose inargv devname st = (st1, None) ->
  (identity_unset ident ->
   probe_step E ident update verbose inargv st devname
   = Exit 1 (say (no_superblock_aborted devname) st1))
  /\ (~ identity_unset ident ->
      exists m,
        probe_step E ident update verbose inargv st devname
        = Go (say_if (inargv || verbose) m st1)
        /\ same_candidates st (say_if (inargv || verbose) m st1)
        /\ forall rest,
             probe_loop E ident update verbose inargv (devname :: rest) st
             = probe_loop E ident update verbose inargv rest
                 (say_if (inargv || verbose) m st1)).
Proof.
  intros Hl Hp.
  destruct (probe_step_nosuper inargv st devname st1 Hl Hp) as [Hfatal Hskip].
  split; [done|].
  intros Hset. destruct (Hskip Hset) as (m & Hstep & Hsame).
  exists m. split; [done|]. split; [done|].
  intros rest. simpl. rewrite Hstep. done.
Qed.

(** C4 (as amended).  Every change the reconciler records, a renumbering
    of a slot included, is recorded as the value 2 of [change]; the value 1
    is never set.  So the reconciled superblock is to be written back if
    and only if [force] is set and something was recorded, on old and new
    kernels alike.  When a drive was chosen and the slots of the up-to-date
    drives lie inside the slot table, the write goes to the chosen drive,
    with the checksum recomputed, and a failed open or store of that write
    ends [Assemble] with status 1. *)
Theorem reconciler_write_back old_linux st0 :
  change st0 = 0 ->
  (forall i d s,
     renumbered i d s = true ->
     change (patch_numbers i d s) = Z.lor (change s) CHANGE_STATE)
  /\ Z.land (change (reconcile force st0)) CHANGE_RENUMBER = 0
  /\ must_write force old_linux (reconcile force st0)
     = force && truthy (Z.land (change (reconcile force st0)) CHANGE_STATE)
  /\ (0 <= chosen_drive st0 < devcnt st0 ->
      slots_in_table st0 = true ->
      match write_back E force old_linux (reconcile force st0) with
      | Go st' =>
          (must_write force old_linux (reconcile force st0) = false
           /\ st' = reconcile force st0)
          \/ (must_write force old_linux (reconcile force st0) = true
              /\ log st'
                 = log (reconcile force st0)
                   ++ [EvOpen (Dev.devname (dev_at (devices st0) (chosen_drive st0)))
                         O_RDWR_EXCL true;
                       EvStore (Dev.devname (dev_at (devices st0) (chosen_drive st0)))
                         (Super.set_sb_csum (calc_sb_csum (super (reconcile force st0)))
                            (super (reconcile force st0))) 0])
      | Exit code st' =>
          code = 1 /\ must_write force old_linux (reconcile force st0) = true
          /\ exists m, last (log st') = Some (EvMsg m)
                       /\ (m = reconcile_cannot_open
                                 (Dev.devname (dev_at (devices st0) (chosen_drive st0)))
                           \/ m = reconcile_not_rewritten
                                    (Dev.devname (dev_at (devices st0)
                                                    (chosen_drive st0))))
      end).
Proof.
  intros Hc0.
  pose proof (reconcile_change st0 Hc0) as Hc.
  split; [|split; [|split]].
  - intros i d s Hr. rewrite patch_numbers_change, Hr. done.
  - destruct Hc as [-> | ->]; done.
  - unfold must_write. destruct Hc as [-> | ->]; simpl; destruct force, old_linux; done.
  - intros _ _.
    assert (devices (reconcile force st0) = devices st0
            /\ chosen_drive (reconcile force st0) = chosen_drive st0) as [Hd Hch].
    { unfold reconcile.
      assert (devices (for_range 0 (length (best st0)) (reconcile_slot force) st0)
              = devices st0
              /\ chosen_drive (for_range 0 (length (best st0)) (reconcile_slot force) st0)
                 = chosen_drive st0) as [Hd Hch].
      { apply (for_range_ind (fun _ s => devices s = devices st0
                                         /\ chosen_drive s = chosen_drive st0));
          [done|].
        intros k s _ [Hd Hch]. rewrite <- Hd, <- Hch.
        unfold reconcile_slot, patch_state, patch_numbers, say.
        repeat (case_match; st_simpl); done. }
      unfold force_clean. case_match; st_simpl; split; assumption. }
    pose proof (write_back_spec old_linux (reconcile force st0)) as Hw.
    cbv zeta in Hw. rewrite Hd, Hch in Hw.
    destruct (write_back E force old_linux (reconcile force st0)) as [code st'|st'].
    + destruct Hw as (-> & Hm & Hlog). split; [done|]. split; [done|].
      destruct Hlog as [->|(r & _ & ->)]; eexists;
        (split; [rewrite last_app_cons; reflexivity|]).
      * left. done.
      * right. done.
    + destruct Hw as [Hw|(Hm & Hlog & _)]; [left; done|right].
      split; [done|]. exact Hlog.
Qed.

(** * Further properties of [Assemble] *)

(** ** What is opened and what is written *)

Lemma written_app l1 l2 : written (l1 ++ l2) = written l1 ++ written l2.
Proof. unfold written. apply omap_app. Qed.

Lemma opened_app l1 l2 : opened (l1 ++ l2) = opened l1 ++ opened l2.
Proof. unfold opened. apply omap_app. Qed.

Lemma written_say m st : written (log (say m st)) = written (log st).
Proof. unfold say, record. simpl. rewrite written_app. simpl. apply app_nil_r. Qed.

Lemma written_say_if b m st : written (log (say_if b m st)) = written (log st).
Proof. destruct b; simpl; [apply written_say | done]. Qed.

Lemma written_open n ok st :
  written (log (record (EvOpen n O_RDONLY_EXCL ok) st)) = written (log st).
Proof. unfold record. simpl. rewrite written_app. simpl. apply app_nil_r. Qed.

Lemma written_ioctl req r st :
  written (log (record (EvIoctl req r) st)) = written (log st).
Proof. unfold record. simpl. rewrite written_app. simpl. apply app_nil_r. Qed.

Ltac crunch_written :=
  repeat (case_match; simpl in * );
  repeat progress
    (rewrite ?written_say_if, ?written_say, ?written_open, ?written_ioctl,
       ?written_app;
     simpl);
  rewrite ?app_nil_r; try done.

Lemma probe_written inargv devname st :
  written (log (probe E verbose inargv devname st).1) = written (log st).
Proof. unfold probe. crunch_written. Qed.

Lemma commit_written devname stb st :
  written (log (commit verbose devname stb st)) = written (log st).
Proof. unfold commit. crunch_written. Qed.

Lemma probe_step_written inargv devname st :
  update = None ->
  written (log match probe_step E ident update verbose inargv st devname with
                | Exit _ st' => st' | Go st' => st' end) = written (log st).
Proof.
  intros ->. unfold probe_step.
  destruct (not_listed ident devname); [apply written_say_if|].
  pose proof (probe_written inargv devname st) as Hp.
  destruct (probe E verbose inargv devname st) as [st1 stb]. simpl in Hp.
  destruct (ident_mismatch _ _ _ _); [rewrite written_say_if; done|].
  destruct stb as [stb|]; [|rewrite written_say; done].
  destruct (compare_super _ _) as [f r].
  destruct (truthy r); [rewrite written_say; done|].
  destruct (_ <=? _); [rewrite written_say; done|].
  rewrite commit_written. done.
Qed.

Lemma probe_loop_written inargv devlist : forall st,
  update = None ->
  written (log match probe_loop E ident update verbose inargv devlist st with
                | Exit _ st' => st' | Go st' => st' end) = written (log st).
Proof.
  induction devlist as [|d l IH]; intros st Hu; simpl; [done|].
  pose proof (probe_step_written inargv d st Hu) as Hs.
  destruct (probe_step _ _ _ _ _ _ _); [done|].
  rewrite IH; done.
Qed.

Lemma choose_drive_written n : forall i st,
  written (log match choose_drive E n i st with
                | Exit _ st' => st' | Go st' => st' end) = written (log st).
Proof.
  induction n as [|n IH]; intros i st; simpl; [done|].
  destruct (0 <=? chosen_drive st); [done|].
  destruct (best_at (best st) i <? 0); [apply IH|].
  destruct (negb _); [apply IH|].
  destruct (sys_open _ _ _ _); simpl; [|crunch_written].
  destruct (load_super _ _ _ _) as [r sb].
  destruct (truthy r); [crunch_written|].
  rewrite IH. crunch_written.
Qed.

Lemma reconcile_log_written st :
  written (log (reconcile force st)) = written (log st).
Proof.
  unfold reconcile.
  assert (written (log (for_range 0 (length (best st)) (reconcile_slot force) st))
          = written (log st)) as Hr.
  { apply (for_range_ind (fun _ s => written (log s) = written (log st))); [done|].
    intros k s _ Hs. rewrite <- Hs.
    unfold reconcile_slot, patch_numbers, patch_state. crunch_written. }
  unfold force_clean. case_match; simpl; done.
Qed.

Lemma add_disks_written st :
  written (log (add_disks E verbose st)) = written (log st).
Proof.
  unfold add_disks.
  apply (for_range_ind (fun _ s => written (log s) = written (log st))); [done|].
  intros k s _ Hs. rewrite <- Hs. unfold add_disk. crunch_written.
Qed.

Lemma plan_written old_linux req_cnt spo st :
  written (log (if negb old_linux
                then modern_plan E runstop verbose req_cnt spo st
                else legacy_plan E st).2) = written (log st).
Proof.
  destruct old_linux; simpl.
  - unfold legacy_plan. crunch_written.
  - unfold modern_plan.
    destruct (truthy _); simpl; [crunch_written|].
    unfold run_policy.
    set (st1 := add_disks E verbose _).
    assert (written (log st1) = written (log st)) as H1.
    { subst st1. rewrite add_disks_written. crunch_written. }
    clearbody st1. rewrite <- H1. crunch_written.
Qed.

(** The blocks before the reconciler leave [change] alone. *)
Lemma probe_change inargv devname st :
  change (probe E verbose inargv devname st).1 = change st.
Proof. unfold probe, say_if. repeat (case_match; st_simpl); done. Qed.

Lemma apply_update_change u devname st :
  change (apply_update E verbose u devname st) = change st.
Proof.
  unfold apply_update.
  assert (forall s, change (store_update E devname s) = change s) as ->
    by (intros s; unfold store_update; repeat (case_match; st_simpl); done).
  unfold update_resync, update_summaries, update_minor, update_sparc, say_if.
  repeat (case_match; st_simpl); done.
Qed.

Lemma commit_change devname stb st :
  change (commit verbose devname stb st) = change st.
Proof. unfold commit, say_if. repeat (case_match; st_simpl); done. Qed.

Lemma probe_step_change inargv devname st :
  change match probe_step E ident update verbose inargv st devname with
         | Exit _ st' => st' | Go st' => st' end = change st.
Proof.
  unfold probe_step.
  destruct (not_listed ident devname); [unfold say_if; case_match; done|].
  pose proof (probe_change inargv devname st) as Hp.
  destruct (probe E verbose inargv devname st) as [st1 stb]. simpl in Hp.
  destruct (ident_mismatch _ _ _ _); [unfold say_if; case_match; done|].
  destruct stb as [stb|]; [|done].
  destruct (compare_super _ _) as [f r].
  destruct (truthy r); [done|].
  destruct (_ <=? _); [done|].
  rewrite commit_change. destruct update; [rewrite apply_update_change|]; done.
Qed.

Lemma probe_loop_change inargv devlist : forall st,
  change match probe_loop E ident update verbose inargv devlist st with
         | Exit _ st' => st' | Go st' => st' end = change st.
Proof.
  induction devlist as [|d l IH]; intros st; simpl; [done|].
  pose proof (probe_step_change inargv d st) as Hs.
  destruct (probe_step _ _ _ _ _ _ _); [done|].
  rewrite IH. done.
Qed.

Lemma avail_scan_change st : change (avail_scan force st) = change st.
Proof.
  unfold avail_scan.
  set (st0 := set_sparecnt _ _). change (change st) with (change st0).
  generalize (best st0) as b. intros b.
  apply (for_range_ind (fun _ s => change s = change st0)); [done|].
  intros k s _ Hs. rewrite <- Hs.
  unfold scan_slot, store_avail, mark_uptodate. repeat (case_match; st_simpl); done.
Qed.

Lemma choose_drive_change n : forall i st,
  change match choose_drive E n i st with
         | Exit _ st' => st' | Go st' => st' end = change st.
Proof.
  induction n as [|n IH]; intros i st; simpl; [done|].
  destruct (0 <=? chosen_drive st); [done|].
  destruct (best_at (best st) i <? 0); [apply IH|].
  destruct (negb _); [apply IH|].
  destruct (sys_open _ _ _ _); simpl; [|done].
  destruct (load_super _ _ _ _) as [r sb].
  destruct (truthy r); [done|].
  rewrite IH. done.
Qed.

Lemma force_loop_off fuel st :
  force = false -> force_loop E force (S fuel) st = Some st.
Proof. intros Hf. simpl. unfold force_iter. rewrite Hf. done. Qed.

(** X1.  Without [force] and without [update], [Assemble] writes to no
    device: it opens none for writing and stores no superblock. *)
Theorem plain_assembly_never_writes conffile devlist code st :
  update = None -> force = false ->
  Assemble E ident update runstop verbose force conffile devlist = Some (code, st) ->
  written (log st) = [].
Proof.
  intros Hu Hf. unfold Assemble.
  destruct (md_get_version E <=? 0); [intros [= <- <-]; done|].
  destruct (md_get_version E <? 9000); [intros [= <- <-]; done|].
  destruct (_ >=? 0); [intros [= <- <-]; done|].
  destruct (_ && _); [intros [= <- <-]; done|].
  set (inargv := negb _). set (devs := if bool_decide _ then _ else _).
  set (s2 := say_if verbose looking_for_devices _).
  assert (written (log s2) = []) as H2 by (subst s2; crunch_written).
  assert (change s2 = 0) as Hc2 by (subst s2; unfold say_if; case_match; done).
  pose proof (probe_loop_written inargv devs s2 Hu) as Hpl.
  pose proof (probe_loop_change inargv devs s2) as Hpc.
  destruct (probe_loop _ _ _ _ _ _ _) as [c s3|s3].
  { intros [= <- <-]. congruence. }
  unfold assemble_devices.
  destruct (devcnt s3 =? 0).
  { intros [= <- <-]. rewrite written_say. congruence. }
  rewrite (force_loop_off _ _ Hf).
  set (s4 := set_chosen_drive (-1) (avail_scan force s3)).
  assert (written (log s4) = []) as H4.
  { subst s4. st_simpl. rewrite avail_scan_log. congruence. }
  assert (change s4 = 0) as Hc4.
  { subst s4. st_simpl. rewrite avail_scan_change. congruence. }
  pose proof (choose_drive_written (length (best (avail_scan force s3))) 0 s4) as Hcw.
  pose proof (choose_drive_change (length (best (avail_scan force s3))) 0 s4) as Hcc.
  destruct (choose_drive _ _ _ _) as [c s5|s5].
  { intros [= <- <-]. congruence. }
  pose proof (reconcile_change s5 ltac:(congruence)) as Hrc.
  pose proof (must_write_state (get_linux_version E <? 2004000) _ Hrc) as Hmw.
  rewrite Hf in Hmw. simpl in Hmw.
  pose proof (write_back_spec (get_linux_version E <? 2004000) (reconcile force s5))
    as Hwb.
  destruct (write_back _ _ _ _) as [c s6|s6].
  { destruct Hwb as (_ & Hmust & _). congruence. }
  destruct Hwb as [[_ ->]|[Hmust _]]; [|congruence].
  intros Hplan.
  pose proof (plan_written (get_linux_version E <? 2004000)
                (count_req (first_super (reconcile force s5)))
                (start_partial_ok force devlist) (reconcile force s5)) as Hpw.
  rewrite reconcile_log_written in Hpw.
  destruct (negb (get_linux_version E <? 2004000));
    apply (inj Some) in Hplan; rewrite Hplan in Hpw; simpl in Hpw; congruence.
Qed.

(** ** The exit status *)




(** X5.  When the driver is not md or too old, when the array is active
    already, or when nothing identifies the array (no device named, no
    uuid, no super-minor, no device pattern), [Assemble] returns 1 and
    opens no device; in the first two cases it does not send [STOP_ARRAY]
    either. *)
Theorem refused_before_any_device conffile devlist code st :
  Assemble E ident update runstop verbose force conffile devlist = Some (code, st) ->
  (md_get_version E < 9000 \/ 0 <= ioctl E [] GET_ARRAY_INFO ->
   code = 1 /\ opened (log st) = [] /\ ~ In STOP_ARRAY (ioctls (log st)))
  /\ (devlist = [] /\ Ident.uuid_set ident = 0 /\ Ident.super_minor ident < 0
      /\ Ident.devices ident = None ->
      code = 1 /\ opened (log st) = []).
Proof.
  unfold Assemble.
  destruct (Z.leb_spec (md_get_version E) 0) as [Hv0|Hv0].
  { intros [= <- <-]. split; intros _; repeat split; try done. intros []. }
  destruct (Z.ltb_spec (md_get_version E) 9000) as [Hv|Hv].
  { intros [= <- <-]. split; intros _; repeat split; try done. intros []. }
  change (log init_locals) with (@nil event).
  destruct (Z.geb_spec (ioctl E [] GET_ARRAY_INFO) 0) as [Hg|Hg].
  { intros [= <- <-]. split; intros _; repeat split; try done.
    simpl. intros [|[]]; done. }
  intros Hrun. split; [lia|].
  intros (Hd & Hu & Hm & Hp). rewrite Hd, Hu, Hp in Hrun.
  replace (Ident.super_minor ident <? 0) with true in Hrun
    by (symmetry; apply Z.ltb_lt; done).
  simpl in Hrun. injection Hrun as <- <-. done.
Qed.

(** ** The newest device and the slot map after the probe loop *)

Lemma dev_at_snoc_below devs d k :
  0 <= k < Z.of_nat (length devs) -> dev_at (devs ++ [d]) k = dev_at devs k.
Proof.
  intros Hk. rewrite <- (Z2Nat.id k) by lia. apply dev_at_snoc_old. lia.
Qed.

Lemma newer_newest_first devs d m :
  (devs = [] /\ m = 0) \/ newest_first devs m ->
  newest_first (devs ++ [d]) (newer (devs ++ [d]) m (Z.of_nat (length devs))).
Proof.
  intros [[-> ->]|[Hm Hall]].
  - change (newer ([] ++ [d]) 0 (Z.of_nat (length (@nil Dev.t)))) with 0.
    change ([] ++ [d]) with [d].
    split; [simpl; lia|].
    intros k Hk. simpl in Hk. assert (k = 0) as -> by lia. lia.
  - unfold newer.
    replace (m <? Z.of_nat (length devs)) with true by (symmetry; apply Z.ltb_lt; lia).
    rewrite dev_at_snoc_new, (dev_at_snoc_below devs d m) by lia.
    assert (forall k, 0 <= k < Z.of_nat (length (devs ++ [d])) ->
              (k < Z.of_nat (length devs) /\ dev_at (devs ++ [d]) k = dev_at devs k)
              \/ (k = Z.of_nat (length devs) /\ dev_at (devs ++ [d]) k = d)) as Hcase.
    { intros k Hk. rewrite length_app in Hk. simpl in Hk.
      destruct (decide (k = Z.of_nat (length devs))) as [->|Hne].
      - right. split; [done|apply dev_at_snoc_new].
      - left. split; [lia|]. apply dev_at_snoc_below. lia. }
    destruct (Dev.events d >? Dev.events (dev_at devs m)) eqn:Hgt.
    + apply Z.gtb_lt in Hgt. split; [rewrite length_app; simpl; lia|].
      intros k Hk. rewrite dev_at_snoc_new.
      destruct (Hcase k Hk) as [[Hlt ->]|[-> ->]]; [|lia].
      destruct (Hall k ltac:(lia)) as [Hle _]. lia.
    + assert (Dev.events d <= Dev.events (dev_at devs m)) as Hle.
      { destruct (Z.gtb_spec (Dev.events d) (Dev.events (dev_at devs m))); [lia|done]. }
      split; [rewrite length_app; simpl; lia|].
      intros k Hk. rewrite (dev_at_snoc_below devs d m) by lia.
      destruct (Hcase k Hk) as [[Hlt ->]|[-> ->]]; [apply Hall; lia|lia].
Qed.

Lemma probe_step_newest inargv st devname st' :
  probe_step E ident update verbose inargv st devname = Go st' ->
  (devices st = [] /\ most_recent st = 0) \/ newest_first (devices st) (most_recent st) ->
  (devices st' = [] /\ most_recent st' = 0)
  \/ newest_first (devices st') (most_recent st').
Proof.
  intros Hstep Hinv.
  apply probe_step_commits in Hstep
    as [(Hd & _ & Hm)|(stb & st2 & (Hd & _ & Hm) & _ & ->)].
  - rewrite Hd, Hm. done.
  - right. destruct (commit_state devname stb st2) as (Hd' & _ & Hm' & _).
    cbn zeta in Hd', Hm'. rewrite Hm', Hd'. unfold devcnt. rewrite Hd, Hm.
    apply newer_newest_first. done.
Qed.

(** X6.  When the probe loop, entered with no candidate, has committed at
    least one device, [most_recent] is the index of the candidate with the
    largest event counter, the first to arrive among equals. *)
Theorem most_recent_is_newest inargv devlist : forall st0 st,
  devices st0 = [] -> most_recent st0 = 0 ->
  probe_loop E ident update verbose inargv devlist st0 = Go st ->
  0 < devcnt st ->
  newest_first (devices st) (most_recent st).
Proof.
  assert (forall st0 st,
    (devices st0 = [] /\ most_recent st0 = 0)
    \/ newest_first (devices st0) (most_recent st0) ->
    probe_loop E ident update verbose inargv devlist st0 = Go st ->
    (devices st = [] /\ most_recent st = 0)
    \/ newest_first (devices st) (most_recent st)) as Hinv.
  { induction devlist as [|d l IH]; intros st0 st Hi; simpl.
    - intros [= <-]. done.
    - destruct (probe_step E ident update verbose inargv st0 d) as [|s1] eqn:Hstep;
        [done|].
      apply IH. apply (probe_step_newest _ _ _ _ Hstep Hi). }
  intros st0 st Hd Hm Hloop Hcnt.
  destruct (Hinv st0 st (or_introl (conj Hd Hm)) Hloop) as [[Hnil _]|Hn]; [|done].
  unfold devcnt in Hcnt. rewrite Hnil in Hcnt. simpl in Hcnt. lia.
Qed.

(** X7.  After the probe loop every entry of the slot map is -1 or the
    index of a committed device; a device sits in one slot at most, and
    only in a slot below 10000. *)
Theorem slot_map_entries_valid inargv devlist st0 st :
  devices st0 = [] -> best st0 = [] ->
  probe_loop E ident update verbose inargv devlist st0 = Go st ->
  (forall i, best_at (best st) i = -1 \/ 0 <= best_at (best st) i < devcnt st)
  /\ (forall i i',
        0 <= best_at (best st) i -> best_at (best st) i = best_at (best st) i' ->
        i = i' /\ 0 <= i < 10000).
Proof.
  intros Hd0 Hb0 Hloop.
  destruct (probe_loop_commits inargv devlist st0 st [] Hloop Hd0 Hb0)
    as (xs & Hd & Hb).
  destruct (commit_all_state xs) as [Hdx Hbx].
  rewrite <- Hb in Hbx.
  assert (devcnt st = Z.of_nat (length xs)) as Hcnt.
  { unfold devcnt. rewrite Hd, Hdx, length_fmap. done. }
  split.
  - intros i. destruct (Hbx i) as [[-> _]|(j & -> & Hj & _)]; [left; done|].
    right. apply claimed_slot_lt in Hj. lia.
  - intros i i' Hi Heq.
    destruct (Hbx i) as [[Hn _]|(j & Hbi & Hj & _)]; [lia|].
    destruct (Hbx i') as [[Hn _]|(j' & Hbi' & Hj' & _)]; [lia|].
    assert (j' = j) as -> by lia.
    assert (i = i') as <- by congruence.
    split; [done|].
    unfold claimed_slot in Hj. destruct (xs !! j) as [x|]; [|done].
    destruct (Z.ltb_spec (slot_key (Super.level x.2) (candidate_of x) (Z.of_nat j)) 10000)
      as [Hlt|]; [|done].
    injection Hj as <-.
    pose proof (slot_key_range (Super.level x.2) (candidate_of x) (Z.of_nat j)). lia.
Qed.

(** ** The devices the probe loop opens *)

Lemma probe_opened inargv devname st :
  exists k, opened (log (probe E verbose inargv devname st).1)
            = opened (log st) ++ replicate k devname.
Proof.
  unfold probe, say_if, say, record.
  repeat (case_match; st_simpl); rewrite ?opened_app; simpl; rewrite ?app_nil_r;
    by (exists 1%nat).
Qed.

Lemma apply_update_opened u devname st :
  exists k, opened (log (apply_update E verbose u devname st))
            = opened (log st) ++ replicate k devname.
Proof.
  unfold apply_update.
  set (s := update_resync _ _).
  assert (opened (log s) = opened (log st)) as Hs.
  { subst s. unfold update_resync, update_summaries, update_minor, update_sparc, say_if.
    repeat (case_match; st_simpl); rewrite ?opened_app; simpl; rewrite ?app_nil_r;
      done. }
  clearbody s. rewrite <- Hs.
  unfold store_update, say, record.
  repeat (case_match; st_simpl); rewrite ?opened_app; simpl; rewrite ?app_nil_r;
    by (exists 1%nat).
Qed.

Lemma commit_opened devname stb st :
  opened (log (commit verbose devname stb st)) = opened (log st).
Proof.
  unfold commit, say_if. case_match; st_simpl; rewrite ?opened_app; simpl;
    rewrite ?app_nil_r; done.
Qed.

Lemma opened_say m st : opened (log (say m st)) = opened (log st).
Proof. unfold say, record. simpl. rewrite opened_app. simpl. apply app_nil_r. Qed.

Lemma opened_say_if b m st : opened (log (say_if b m st)) = opened (log st).
Proof. destruct b; simpl; [apply opened_say | done]. Qed.

Lemma probe_step_opened inargv devname st :
  exists k,
    opened (log match probe_step E ident update verbose inargv st devname with
                 | Exit _ st' => st' | Go st' => st' end)
    = opened (log st) ++ replicate k devname
    /\ (not_listed ident devname = true -> k = 0%nat).
Proof.
  unfold probe_step.
  destruct (not_listed ident devname).
  { exists 0%nat. rewrite opened_say_if, app_nil_r. done. }
  destruct (probe_opened inargv devname st) as [k Hp].
  destruct (probe E verbose inargv devname st) as [st1 stb]. simpl in Hp.
  destruct (ident_mismatch _ _ _ _); [exists k; rewrite opened_say_if; done|].
  destruct stb as [stb|]; [|exists k; rewrite opened_say; done].
  destruct (compare_super _ _) as [f r].
  destruct (truthy r); [exists k; rewrite opened_say; done|].
  destruct (_ <=? _); [exists k; rewrite opened_say; done|].
  rewrite commit_opened. destruct update as [u|]; [|exists k; done].
  destruct (apply_update_opened u devname (set_first_super f st1)) as [k' ->].
  exists (k + k')%nat. st_simpl. rewrite Hp, replicate_add, app_assoc. done.
Qed.

(** X8.  The probe loop opens no device but those of its list, and none
    that the device pattern of [ident] leaves out. *)
Theorem probe_opens_listed_only inargv devlist : forall st name,
  In name (opened (log match probe_loop E ident update verbose inargv devlist st with
                       | Exit _ st' => st' | Go st' => st' end)) ->
  In name (opened (log st))
  \/ (In name devlist /\ not_listed ident name = false).
Proof.
  induction devlist as [|d l IH]; intros st name; simpl; [auto|].
  destruct (probe_step_opened inargv d st) as (k & Hk & Hnot).
  assert (In name (opened (log st) ++ replicate k d) ->
          In name (opened (log st)) \/ ((d = name \/ In name l)
                                        /\ not_listed ident name = false)) as Hstep.
  { intros Hin. apply in_app_or in Hin as [Hin|Hin]; [auto|].
    apply list_elem_of_In, elem_of_replicate in Hin as [-> Hk0].
    right. split; [auto|].
    destruct (not_listed ident d); [|done]. destruct Hk0. auto. }
  destruct (probe_step _ _ _ _ _ _ _) as [c s1|s1].
  - rewrite Hk. apply Hstep.
  - intros Hin. apply IH in Hin as [Hin|[Hin Hl]]; [|auto].
    rewrite Hk in Hin. apply Hstep in Hin. done.
Qed.

(** ** The reference drive *)

Lemma choose_drive_chosen n i st :
  0 <= chosen_drive st -> choose_drive E n i st = Go st.
Proof.
  intros Hc. destruct n; simpl; [done|].
  replace (0 <=? chosen_drive st) with true by (symmetry; apply Z.leb_le; done).
  done.
Qed.

Lemma choose_drive_first n : forall i st st',
  chosen_drive st < 0 ->
  choose_drive E n i st = Go st' ->
  (st' = st /\ forall k, i <= k < i + Z.of_nat n -> usable st k = false)
  \/ exists k,
       i <= k < i + Z.of_nat n /\ usable st k = true
       /\ (forall k', i <= k' < k -> usable st k' = false)
       /\ let name := Dev.devname (dev_at (devices st) (best_at (best st) k)) in
          let st1 := record (EvOpen name O_RDONLY_EXCL true)
                       (set_chosen_drive (best_at (best st) k) st) in
          load_super E (log st1) name (super st) = (0, super st')
          /\ st' = set_super (super st') st1.
Proof.
  induction n as [|n IH]; intros i st st' Hc; simpl.
  { intros [= <-]. left. split; [done|]. intros k Hk. lia. }
  replace (0 <=? chosen_drive st) with false by (symmetry; apply Z.leb_gt; done).
  assert (usable st i = false ->
          choose_drive E n (i + 1) st = Go st' ->
          (st' = st /\ forall k, i <= k < i + Z.pos (Pos.of_succ_nat n) ->
                                 usable st k = false)
          \/ exists k,
               i <= k < i + Z.pos (Pos.of_succ_nat n) /\ usable st k = true
               /\ (forall k', i <= k' < k -> usable st k' = false)
               /\ let name := Dev.devname (dev_at (devices st) (best_at (best st) k)) in
                  let st1 := record (EvOpen name O_RDONLY_EXCL true)
                               (set_chosen_drive (best_at (best st) k) st) in
                  load_super E (log st1) name (super st) = (0, super st')
                  /\ st' = set_super (super st') st1) as Hskip.
  { intros Hu Hrest. apply IH in Hrest as [[-> Hall]|(k & Hk & Huk & Hfirst & Hload)];
      [| |done].
    - left. split; [done|]. intros k Hk.
      destruct (decide (k = i)) as [->|Hne]; [done|]. apply Hall. lia.
    - right. exists k. split; [lia|]. split; [done|]. split; [|done].
      intros k' Hk'. destruct (decide (k' = i)) as [->|Hne]; [done|].
      apply Hfirst. lia. }
  unfold usable in Hskip at 1.
  destruct (Z.ltb_spec (best_at (best st) i) 0) as [Hj|Hj].
  { apply Hskip. replace (0 <=? best_at (best st) i) with false
      by (symmetry; apply Z.leb_gt; done). done. }
  destruct (Dev.uptodate (dev_at (devices st) (best_at (best st) i))) eqn:Hup;
    cbn [negb].
  2: { apply Hskip. rewrite andb_false_r. done. }
  clear Hskip. st_simpl.
  set (name := Dev.devname (dev_at (devices st) (best_at (best st) i))).
  destruct (sys_open E (log st) name O_RDONLY_EXCL); cbn [negb]; [|done].
  st_simpl.
  destruct (load_super E (log st ++ [EvOpen name O_RDONLY_EXCL true]) name (super st))
    as [r sb] eqn:Hload.
  destruct (truthy r) eqn:Hr; [done|].
  apply truthy_false in Hr. subst r.
  rewrite choose_drive_chosen by (st_simpl; done).
  intros [= <-]. right. exists i. split; [lia|]. split.
  { unfold usable. rewrite Hup.
    replace (0 <=? best_at (best st) i) with true by (symmetry; apply Z.leb_le; done).
    done. }
  split; [intros k' Hk'; lia|].
  st_simpl. fold name. split; done.
Qed.

(** X9.  The reference drive is the drive of the lowest slot whose drive is
    up to date, and [super] is reloaded from it; when no slot has such a
    drive, [chosen_drive] stays -1 and nothing is opened. *)
Theorem reference_drive_is_first_up_to_date st st' :
  chosen_drive st = -1 ->
  choose_drive E (length (best st)) 0 st = Go st' ->
  devices st' = devices st /\ best st' = best st
  /\ ((chosen_drive st' = -1 /\ log st' = log st
       /\ forall k, 0 <= k < bestcnt st -> usable st k = false)
      \/ exists k,
           0 <= k < bestcnt st /\ usable st k = true
           /\ (forall k', 0 <= k' < k -> usable st k' = false)
           /\ chosen_drive st' = best_at (best st) k
           /\ exists tr,
                load_super E tr (Dev.devname (dev_at (devices st) (chosen_drive st')))
                  (super st)
                = (0, super st')).
Proof.
  intros Hc Hrun.
  apply choose_drive_first in Hrun as [[-> Hall]|(k & Hk & Hu & Hfirst & Hload & ->)];
    [| |lia].
  - split; [done|]. split; [done|]. left. split; [done|]. split; [done|].
    intros k Hk. apply Hall. unfold bestcnt in Hk. lia.
  - split; [done|]. split; [done|]. right. exists k.
    split; [unfold bestcnt; lia|]. split; [done|]. split; [done|].
    split; [done|]. eexists. st_simpl. exact Hload.
Qed.

(** ** The count of the disks the driver refuses *)

Lemma u32_pred_add a b f : u32 (u32 (a - 1) + b + (f + 1)) = u32 (a + b + f).
Proof.
  unfold u32. rewrite <- Z.add_assoc, Zplus_mod_idemp_l. f_equal. lia.
Qed.

Lemma u32_add_pred a b f : u32 (a + u32 (b - 1) + (f + 1)) = u32 (a + b + f).
Proof.
  unfold u32.
  replace (a + (b - 1) mod 2 ^ 32 + (f + 1)) with ((b - 1) mod 2 ^ 32 + (a + f + 1))
    by lia.
  rewrite Zplus_mod_idemp_l. f_equal. lia.
Qed.

Lemma refused_adds_snoc tr req r :
  refused_adds (tr ++ [EvIoctl req r])
  = refused_adds tr + (if refused_add (req, r) then 1 else 0).
Proof.
  unfold refused_adds. rewrite kcalls_app. simpl.
  rewrite filter_app, length_app, filter_cons, filter_nil.
  destruct (decide (refused_add (req, r) = true)) as [->|Hn]; simpl; [lia|].
  destruct (refused_add (req, r)); [done|]. lia.
Qed.

Lemma refused_adds_msg tr m : refused_adds (tr ++ [EvMsg m]) = refused_adds tr.
Proof. unfold refused_adds. rewrite kcalls_app. simpl. rewrite app_nil_r. done. Qed.

Lemma add_disk_accounting i st :
  let st' := add_disk E verbose i st in
  refused_adds (log st) <= refused_adds (log st')
  /\ u32 (okcnt st' + sparecnt st' + refused_adds (log st'))
     = u32 (okcnt st + sparecnt st + refused_adds (log st))
  /\ (refused_adds (log st') = refused_adds (log st) ->
      okcnt st' = okcnt st /\ sparecnt st' = sparecnt st).
Proof.
  unfold add_disk.
  destruct (_ && _); [cbn zeta; split; [lia|done]|].
  set (j := if _ <? _ then _ else _).
  destruct (0 <=? j).
  2: { cbn zeta. unfold say_if, say, record. case_match; st_simpl;
         rewrite ?refused_adds_msg; split; (lia || done). }
  set (req := ADD_NEW_DISK _ _). set (r := ioctl E (log st) req).
  cbn zeta. unfold truthy.
  destruct (Z.eqb_spec r 0) as [Hr|Hr]; cbn [negb].
  - unfold say_if, say, record. case_match; st_simpl;
      rewrite ?refused_adds_msg, refused_adds_snoc; unfold refused_add; simpl;
      rewrite Hr; simpl; rewrite Z.add_0_r; split; (lia || done).
  - assert (refused_add (req, r) = true) as Href.
    { unfold refused_add. simpl. apply negb_true_iff, Z.eqb_neq. done. }
    unfold say, record. case_match; st_simpl;
      rewrite refused_adds_msg, refused_adds_snoc, Href.
    + split; [lia|]. split; [apply u32_pred_add|lia].
    + split; [lia|]. split; [apply u32_add_pred|lia].
Qed.

(** X10.  The loop that hands the disks to the driver takes one from
    [okcnt] or from [sparecnt] (modulo 2^32) for every [ADD_NEW_DISK] that
    the driver refuses, and leaves both as they are when it refuses
    none. *)
Theorem add_disks_accounting st :
  u32 (okcnt (add_disks E verbose st) + sparecnt (add_disks E verbose st)
       + refused_adds (log (add_disks E verbose st)))
  = u32 (okcnt st + sparecnt st + refused_adds (log st))
  /\ (refused_adds (log (add_disks E verbose st)) = refused_adds (log st) ->
      okcnt (add_disks E verbose st) = okcnt st
      /\ sparecnt (add_disks E verbose st) = sparecnt st).
Proof.
  unfold add_disks.
  assert (refused_adds (log st)
          <= refused_adds (log (for_range 0 (S (length (best st))) (add_disk E verbose) st))
          /\ u32 (okcnt (for_range 0 (S (length (best st))) (add_disk E verbose) st)
                  + sparecnt (for_range 0 (S (length (best st))) (add_disk E verbose) st)
                  + refused_adds
                      (log (for_range 0 (S (length (best st))) (add_disk E verbose) st)))
             = u32 (okcnt st + sparecnt st + refused_adds (log st))
          /\ (refused_adds
                (log (for_range 0 (S (length (best st))) (add_disk E verbose) st))
              = refused_adds (log st) ->
              okcnt (for_range 0 (S (length (best st))) (add_disk E verbose) st)
              = okcnt st
              /\ sparecnt (for_range 0 (S (length (best st))) (add_disk E verbose) st)
                 = sparecnt st)) as (_ & Hsum & Hnone); [|done].
  apply (for_range_ind (fun _ s =>
    refused_adds (log st) <= refused_adds (log s)
    /\ u32 (okcnt s + sparecnt s + refused_adds (log s))
       = u32 (okcnt st + sparecnt st + refused_adds (log st))
    /\ (refused_adds (log s) = refused_adds (log st) ->
        okcnt s = okcnt st /\ sparecnt s = sparecnt st))).
  { split; [lia|done]. }
  intros k s _ (Hle & Hsum & Hnone).
  destruct (add_disk_accounting k s) as (Hle' & Hsum' & Hnone').
  cbn zeta in Hle', Hsum', Hnone'.
  split; [lia|]. split; [congruence|].
  intros Heq.
  destruct Hnone' as [-> ->]; [lia|]. apply Hnone. lia.
Qed.

(** ** The superblock of a forced drive *)

Lemma events_words n :
  Z.lor (Z.shiftl (Z.land (Z.shiftr n 32) 4294967295) 32) (Z.land n 4294967295)
  = n mod 2 ^ 64.
Proof.
  change 4294967295 with (Z.ones 32).
  rewrite !Z.land_ones, Z.shiftr_div_pow2, Z.shiftl_mul_pow2 by lia.
  assert (Z.land ((n / 2 ^ 32) mod 2 ^ 32 * 2 ^ 32) (n mod 2 ^ 32) = 0) as Hdisj.
  { apply Z.bits_inj'. intros k Hk. rewrite Z.land_spec, Z.bits_0.
    destruct (decide (k < 32)) as [Hlt|Hge].
    - rewrite <- Z.shiftl_mul_pow2 by lia. rewrite Z.shiftl_spec_low by done. done.
    - rewrite (Z.mod_pow2_bits_high n 32 k) by lia. apply andb_false_r. }
  pose proof (Z.add_lor_land ((n / 2 ^ 32) mod 2 ^ 32 * 2 ^ 32) (n mod 2 ^ 32)) as Hadd.
  rewrite Hdisj, Z.add_0_r in Hadd. rewrite Hadd.
  change (2 ^ 64) with (2 ^ 32 * 2 ^ 32).
  rewrite Z.rem_mul_r by lia. lia.
Qed.

(** X11.  The superblock written to a forced drive carries the event
    counter of the newest device in its two words, so that reading it
    back gives that counter; for level 4 and 5 its state is exactly
    [1 << MD_SB_CLEAN], for other levels the state it had. *)
Theorem forced_super_round_trip newest sb :
  - 2 ^ 63 <= newest < 2 ^ 63 ->
  md_event (forced_super newest sb) = newest
  /\ Super.events_hi (forced_super newest sb) * 2 ^ 32
     + Super.events_lo (forced_super newest sb) = newest mod 2 ^ 64
  /\ 0 <= Super.events_hi (forced_super newest sb) < 2 ^ 32
  /\ 0 <= Super.events_lo (forced_super newest sb) < 2 ^ 32
  /\ Super.state (forced_super newest sb)
     = (if (Super.level sb =? 5) || (Super.level sb =? 4)
        then bit MD_SB_CLEAN else Super.state sb).
Proof.
  intros Hn.
  assert (Super.events_hi (forced_super newest sb)
          = Z.land (Z.shiftr newest 32) 4294967295) as Hhi.
  { unfold forced_super. cbn. case_match; done. }
  assert (Super.events_lo (forced_super newest sb) = Z.land newest 4294967295) as Hlo.
  { unfold forced_super. cbn. case_match; done. }
  assert (Z.land (Z.shiftr newest 32) 4294967295 = (newest / 2 ^ 32) mod 2 ^ 32) as Hhi'.
  { change 4294967295 with (Z.ones 32).
    rewrite Z.land_ones, Z.shiftr_div_pow2 by lia. done. }
  assert (Z.land newest 4294967295 = newest mod 2 ^ 32) as Hlo'.
  { change 4294967295 with (Z.ones 32). rewrite Z.land_ones by lia. done. }
  split; [|split; [|split; [|split]]].
  - unfold md_event. rewrite Hhi, Hlo, events_words.
    unfold s64. rewrite Zplus_mod_idemp_l.
    rewrite Z.mod_small by lia. lia.
  - rewrite Hhi, Hlo, Hhi', Hlo'.
    change (2 ^ 64) with (2 ^ 32 * 2 ^ 32).
    rewrite (Z.rem_mul_r newest) by lia. lia.
  - rewrite Hhi, Hhi'. apply Z.mod_pos_bound. lia.
  - rewrite Hlo, Hlo'. apply Z.mod_pos_bound. lia.
  - unfold forced_super. cbn. case_match; done.
Qed.

(** ** The [summaries] update *)

Lemma disk_set_disk i d s c :
  Super.disk (Super.set_disk i d s) c
  = if decide (c = i /\ 0 <= i < Z.of_nat (length (Super.disks s)))
    then d else Super.disk s c.
Proof.
  unfold Super.disk, Super.set_disk. cbn [Super.disks Super.set_disks].
  rewrite zlookup_zinsert. destruct (decide _); done.
Qed.

Lemma disk_outside s i :
  ~ (0 <= i < Z.of_nat (length (Super.disks s))) -> Super.disk s i = Disk.zero.
Proof.
  intros Hi. unfold Super.disk, zlookup.
  destruct (i <? 0) eqn:Hlt; [done|]. apply Z.ltb_ge in Hlt.
  rewrite (proj2 (lookup_ge_None _ _)); [done|lia].
Qed.

Lemma u32_add_succ_r a b : u32 (a + u32 (b + 1)) = u32 (u32 (a + b) + 1).
Proof. unfold u32. rewrite Zplus_mod_idemp_r, Zplus_mod_idemp_l. f_equal. lia. Qed.

Lemma u32_add_succ_l a b : u32 (u32 (a + 1) + b) = u32 (u32 (a + b) + 1).
Proof. unfold u32. rewrite !Zplus_mod_idemp_l. f_equal. lia. Qed.

Lemma summaries_slot_step sb k s :
  0 <= k < MD_SB_DISKS -> summed_to sb k s -> summed_to sb (k + 1) (summaries_slot k s).
Proof.
  intros Hk (Hnr & Hac & Hfa & Hwo & Hsp & Hsum & Hdisk & Hlen & Hrd & Hlv & Hst
             & Hhi & Hlo).
  unfold count_below in Hnr, Hac, Hfa, Hwo, Hsp.
  assert (Super.disk s k = Super.disk sb k) as Hdk.
  { rewrite Hdisk. replace (k <? k) with false by (symmetry; apply Z.ltb_ge; lia).
    done. }
  assert (forall c, c <> k ->
            (if (c <? k + 1) && cleared_slot sb c
             then Disk.set_state 0 (Super.disk sb c) else Super.disk sb c)
            = Super.disk s c) as Hother.
  { intros c Hc. rewrite Hdisk.
    replace (c <? k + 1) with (c <? k); [done|].
    destruct (Z.ltb_spec c (k + 1)), (Z.ltb_spec c k); lia. }
  assert ((k <? k + 1) = true) as Hkk by (apply Z.ltb_lt; lia).
  unfold summed_to, count_below.
  rewrite !(count_snoc _ k) by lia. rewrite !u32_count.
  unfold summaries_slot. rewrite Hdk.
  fold (named_slot sb k). fold (slot_flag sb MD_DISK_REMOVED k).
  fold (slot_flag sb MD_DISK_ACTIVE k). fold (slot_flag sb MD_DISK_FAULTY k).
  destruct (named_slot sb k) eqn:Hnamed.
  - assert (cleared_slot sb k = false) as Hcl.
    { unfold cleared_slot. rewrite Hnamed. cbn [negb]. rewrite andb_false_r. done. }
    assert (forall c,
              (if (c <? k + 1) && cleared_slot sb c
               then Disk.set_state 0 (Super.disk sb c) else Super.disk sb c)
              = Super.disk s c) as Hall.
    { intros c. destruct (decide (c = k)) as [->|Hne]; [|apply Hother; done].
      rewrite Hcl, andb_false_r. done. }
    destruct (slot_flag sb MD_DISK_REMOVED k) eqn:Hrem.
    + assert (counted_slot sb k = false) as ->
        by (unfold counted_slot; rewrite Hnamed, Hrem; done).
      cbn [andb]. split_and!; try done; intros c; symmetry; apply Hall.
    + assert (counted_slot sb k = true) as ->
        by (unfold counted_slot; rewrite Hnamed, Hrem; done).
      cbn [andb negb Super.nr_disks Super.active_disks Super.failed_disks
           Super.working_disks Super.spare_disks Super.set_counts Super.disks
           Super.raid_disks Super.level Super.state Super.events_hi
           Super.events_lo].
      rewrite <- Hnr, <- Hac, <- Hfa, <- Hwo, <- Hsp.
      split_and!; try done;
        try (intros c; rewrite Hall; done);
        try (rewrite <- Hsum);
        destruct (slot_flag sb MD_DISK_FAULTY k); cbn [negb]; try done;
        first [apply u32_add_succ_r | apply u32_add_succ_l].
  - assert (counted_slot sb k = false) as ->
      by (unfold counted_slot; rewrite Hnamed; done).
    assert (cleared_slot sb k
            = (Super.raid_disks s <=? k) && (Disk.number (Super.disk sb k) =? 0)) as Hcl.
    { unfold cleared_slot. rewrite Hnamed, Hrd.
      replace (0 <=? k) with true by (symmetry; apply Z.leb_le; lia).
      replace (k <? MD_SB_DISKS) with true by (symmetry; apply Z.ltb_lt; lia).
      done. }
    rewrite <- Hcl. cbn [andb].
    destruct (cleared_slot sb k) eqn:Hc.
    + cbn [Super.nr_disks Super.active_disks Super.failed_disks Super.working_disks
           Super.spare_disks Super.set_disk Super.set_disks Super.disks
           Super.raid_disks Super.level Super.state Super.events_hi Super.events_lo].
      split_and!; try done; try (rewrite length_zinsert; done).
      intros c. fold (Super.set_disk k (Disk.set_state 0 (Super.disk sb k)) s).
      rewrite disk_set_disk.
      destruct (decide (c = k)) as [->|Hne].
      * rewrite Hkk, Hc. cbn [andb].
        destruct (decide (k = k /\ 0 <= k < Z.of_nat (length (Super.disks s))))
          as [_|Hout]; [done|].
        rewrite Hdk, (disk_outside sb k) by (rewrite <- Hlen; tauto). done.
      * rewrite decide_False by tauto. symmetry. apply Hother. done.
    + split_and!; try done.
      all: intros c; destruct (decide (c = k)) as [->|Hne];
        [rewrite Hc, andb_false_r; done|symmetry; apply Hother; done].
Qed.

(** X12.  The [summaries] update sets the five counters of the superblock to
    the numbers (as [unsigned int]) of the slots that name a device and are
    not removed, and of those among them that are active, faulty, not
    faulty, and of state 0; so the working and the failed disks add up to
    [nr_disks].  It clears the state of the slots past the data slots that
    name no device and have number 0, and changes no other slot, nor the
    level, the number of data slots, the state or the event counter. *)
Theorem summaries_counts sb :
  Super.nr_disks (summaries sb) = count_slots (counted_slot sb)
  /\ Super.active_disks (summaries sb)
     = count_slots (fun i => counted_slot sb i && slot_flag sb MD_DISK_ACTIVE i)
  /\ Super.failed_disks (summaries sb)
     = count_slots (fun i => counted_slot sb i && slot_flag sb MD_DISK_FAULTY i)
  /\ Super.working_disks (summaries sb)
     = count_slots (fun i => counted_slot sb i && negb (slot_flag sb MD_DISK_FAULTY i))
  /\ Super.spare_disks (summaries sb)
     = count_slots (fun i => counted_slot sb i
                             && (s32 (Disk.state (Super.disk sb i)) =? 0))
  /\ u32 (Super.working_disks (summaries sb) + Super.failed_disks (summaries sb))
     = Super.nr_disks (summaries sb)
  /\ (forall c, Super.disk (summaries sb) c
                = if cleared_slot sb c
                  then Disk.set_state 0 (Super.disk sb c) else Super.disk sb c)
  /\ Super.raid_disks (summaries sb) = Super.raid_disks sb
  /\ Super.level (summaries sb) = Super.level sb
  /\ Super.state (summaries sb) = Super.state sb
  /\ md_event (summaries sb) = md_event sb.
Proof.
  assert (summed_to sb (0 + Z.of_nat (Z.to_nat MD_SB_DISKS)) (summaries sb)) as Hs.
  { unfold summaries. apply (for_range_ind (summed_to sb)).
    - unfold summed_to, count_below. rewrite seqZ_nil by lia.
      split_and!; try done.
      intros c. unfold cleared_slot.
      destruct (Z.ltb_spec c 0); [|done].
      replace (0 <=? c) with false by (symmetry; apply Z.leb_gt; done). done.
    - intros k s Hk. apply summaries_slot_step. lia. }
  rewrite Z.add_0_l in Hs.
  assert (seqZ 0 (Z.of_nat (Z.to_nat MD_SB_DISKS)) = seqZ 0 MD_SB_DISKS) as Hseq.
  { destruct (decide (0 <= MD_SB_DISKS)).
    - rewrite Z2Nat.id by done. done.
    - rewrite Z2Nat.nonpos by lia. rewrite !seqZ_nil by lia. done. }
  destruct Hs as (Hnr & Hac & Hfa & Hwo & Hsp & Hsum & Hdisk & _ & Hrd & Hlv & Hst
                  & Hhi & Hlo).
  unfold count_below in Hnr, Hac, Hfa, Hwo, Hsp.
  rewrite Hseq in Hnr, Hac, Hfa, Hwo, Hsp.
  unfold count_slots, count_below. repeat (split; [done|]).
  split.
  { intros c. rewrite Hdisk.
    destruct (cleared_slot sb c) eqn:Hc; [|rewrite andb_false_r; done].
    replace (c <? Z.of_nat (Z.to_nat MD_SB_DISKS)) with true; [done|].
    symmetry. apply Z.ltb_lt. unfold cleared_slot in Hc.
    rewrite !andb_true_iff in Hc. destruct Hc as [[[[H0 H1] _] _] _].
    apply Z.leb_le in H0. apply Z.ltb_lt in H1. lia. }
  repeat (split; [done|]).
  unfold md_event. rewrite Hhi, Hlo. done.
Qed.

(** ** The counter of the availability scan *)

Lemma count_agree (P Q : Z -> bool) n m :
  (forall i, 0 <= i -> P i && (i <? n) = Q i && (i <? m)) ->
  forall k : nat,
    length (filter (fun i => P i = true) (seqZ 0 (Z.min (Z.of_nat k) n)))
    = length (filter (fun i => Q i = true) (seqZ 0 (Z.min (Z.of_nat k) m))).
Proof.
  intros Hpq. induction k as [|k IH].
  { rewrite !seqZ_nil by lia. done. }
  specialize (Hpq (Z.of_nat k) ltac:(lia)).
  assert (forall (R : Z -> bool) b,
            length (filter (fun i => R i = true) (seqZ 0 (Z.min (Z.of_nat (S k)) b)))
            = (length (filter (fun i => R i = true) (seqZ 0 (Z.min (Z.of_nat k) b)))
               + (if R (Z.of_nat k) && (Z.of_nat k <? b)%Z then 1 else 0))%nat)
    as Hstep.
  { intros R b. destruct (Z.ltb_spec (Z.of_nat k) b) as [Hlt|Hge].
    - replace (Z.min (Z.of_nat (S k)) b) with (Z.of_nat k + 1) by lia.
      replace (Z.min (Z.of_nat k) b) with (Z.of_nat k) by lia.
      rewrite (count_snoc R) by lia. rewrite andb_true_r. done.
    - replace (Z.min (Z.of_nat (S k)) b) with (Z.min (Z.of_nat k) b) by lia.
      rewrite andb_false_r. lia. }
  rewrite (Hstep P n), (Hstep Q m), IH, Hpq. done.
Qed.

Lemma set_bytes_count l : forall k : nat,
  (k <= length l)%nat ->
  length (filter (fun b => b = true) (take k l))
  = length (filter (fun i => is_set l i = true) (seqZ 0 (Z.of_nat k))).
Proof.
  induction k as [|k IH]; intros Hk.
  { rewrite take_0, seqZ_nil by lia. done. }
  destruct (lookup_lt_is_Some_2 l k ltac:(lia)) as [b Hb].
  rewrite (take_S_r _ _ _ Hb), filter_app, length_app, (IH ltac:(lia)).
  replace (Z.of_nat (S k)) with (Z.of_nat k + 1) by lia.
  rewrite (count_snoc (is_set l)) by lia. f_equal.
  unfold is_set, zlookup.
  replace (Z.of_nat k <? 0) with false by (symmetry; apply Z.ltb_ge; lia).
  rewrite Nat2Z.id, Hb, filter_cons, filter_nil.
  destruct b; done.
Qed.

(** X13.  After the availability scan, started on candidates none of which
    is marked up to date, [okcnt] is the number of bytes of [avail] that
    are set; [avail] has [first_super.raid_disks] bytes and no byte was
    stored outside it. *)
Theorem scan_counts_available st :
  Forall (fun d => Dev.uptodate d = false) (devices st) ->
  okcnt (avail_scan force st) = u32 (set_bytes (avail (avail_scan force st)))
  /\ length (avail (avail_scan force st))
     = Z.to_nat (Super.raid_disks (first_super st))
  /\ overrun (avail_scan force st) = overrun st.
Proof.
  intros Hfresh.
  destruct (avail_scan_scanned st Hfresh)
    as [_ _ _ _ Hlen Hov _ Hav Hok _].
  split; [|done].
  set (s := avail_scan force st) in *.
  rewrite Hok. unfold set_bytes. f_equal. f_equal.
  rewrite <- (take_ge (avail s) (length (avail s))) at 1 by lia.
  rewrite set_bytes_count by lia.
  set (n := bestcnt st). set (m := Z.of_nat (length (avail s))).
  assert (forall i, 0 <= i ->
            ok_slot force st i && (i <? n) = is_set (avail s) i && (i <? m)) as Hpq.
  2: { pose proof (count_agree _ _ n m Hpq (Z.to_nat (Z.max n m))) as Hagree.
       replace (Z.min (Z.of_nat (Z.to_nat (Z.max n m))) n) with n in Hagree
         by (unfold n, bestcnt; lia).
       replace (Z.min (Z.of_nat (Z.to_nat (Z.max n m))) m) with m in Hagree
         by (unfold m; lia).
       done. }
  intros i Hi.
  assert (is_set (avail s) i = true <-> zlookup (avail s) i = Some true) as Hset.
  { unfold is_set. destruct (zlookup (avail s) i) as [[|]|]; split; done. }
  apply eq_true_iff_eq. rewrite !andb_true_iff, Hset, Hav, !Z.ltb_lt.
  unfold ok_slot. rewrite !andb_true_iff, Z.leb_le, Z.ltb_lt.
  assert (zlookup (avail s) i = Some true -> i < m) as Hin.
  { intros Hl. apply zlookup_Some in Hl as [_ Hl].
    apply lookup_lt_Some in Hl. unfold m. lia. }
  split.
  - intros [[[Hb Hp] Hr] Hn]. split; [tauto|].
    unfold m. rewrite Hlen. lia.
  - intros [(Hn & Hr & Hb & Hp) Hm]. fold n in Hn. tauto.
Qed.

(** ** The drive the force loop picks, and when the loop is left *)

(** The selection loop of lines 428-437 ends with -1 when no data slot has
    a stale drive, and else with the newest of the stale drives, that of
    the lowest slot among equals. *)
Lemma pick_stale_choice st :
  let n := Z.min (Super.raid_disks (first_super st)) (bestcnt st) in
  (pick_stale st = -1
   /\ forall i, 0 <= i < n -> stale (devices st) (best_at (best st) i) = false)
  \/ exists i,
       0 <= i < n /\ pick_stale st = best_at (best st) i
       /\ stale (devices st) (pick_stale st) = true
       /\ forall i', 0 <= i' < n ->
            stale (devices st) (best_at (best st) i') = true ->
            Dev.events (dev_at (devices st) (best_at (best st) i'))
            <= Dev.events (dev_at (devices st) (pick_stale st))
            /\ (i' < i ->
                Dev.events (dev_at (devices st) (best_at (best st) i'))
                < Dev.events (dev_at (devices st) (pick_stale st))).
Proof.
  intros n. unfold pick_stale. fold n.
  set (inv := fun (k c : Z) =>
    (c = -1
     /\ forall i, 0 <= i < k -> stale (devices st) (best_at (best st) i) = false)
    \/ exists i,
         0 <= i < k /\ c = best_at (best st) i
         /\ stale (devices st) c = true
         /\ forall i', 0 <= i' < k ->
              stale (devices st) (best_at (best st) i') = true ->
              Dev.events (dev_at (devices st) (best_at (best st) i'))
              <= Dev.events (dev_at (devices st) c)
              /\ (i' < i ->
                  Dev.events (dev_at (devices st) (best_at (best st) i'))
                  < Dev.events (dev_at (devices st) c))).
  assert (inv (0 + Z.of_nat (Z.to_nat n)) (for_range 0 (Z.to_nat n) (pick_slot st) (-1)))
    as Hinv.
  { apply (for_range_ind inv).
    - left. split; [done|]. intros i Hi. lia.
    - intros k c Hk Hc. unfold pick_slot.
      set (j := best_at (best st) k).
      assert (stale (devices st) j
              = (0 <=? j) && negb (Dev.uptodate (dev_at (devices st) j))
                && (Dev.events (dev_at (devices st) j) >? 0)) as Hst by done.
      rewrite <- Hst.
      destruct (stale (devices st) j) eqn:Hj; cbn [andb].
      + destruct Hc as [[-> Hnone]|(i & Hi & -> & Hsi & Hmax)].
        * cbn [Z.ltb Z.compare orb]. right. exists k. split; [lia|]. split; [done|].
          split; [done|]. intros i' Hi' Hs'.
          destruct (decide (i' = k)) as [->|Hne]; [fold j; lia|].
          rewrite Hnone in Hs' by lia. done.
        * set (c := best_at (best st) i) in *.
          replace (c <? 0) with false.
          2: { symmetry. apply Z.ltb_ge. apply stale_valid in Hsi. lia. }
          cbn [orb].
          destruct (Z.gtb_spec (Dev.events (dev_at (devices st) j))
                      (Dev.events (dev_at (devices st) c))) as [Hgt|Hle].
          -- right. exists k. split; [lia|]. split; [done|]. split; [done|].
             intros i' Hi' Hs'.
             destruct (decide (i' = k)) as [->|Hne]; [fold j; lia|].
             destruct (Hmax i' ltac:(lia) Hs') as [Hle' _]. lia.
          -- right. exists i. split; [lia|]. split; [done|]. split; [done|].
             intros i' Hi' Hs'.
             destruct (decide (i' = k)) as [->|Hne]; [fold j; lia|].
             apply Hmax; [lia|done].
      + destruct Hc as [[-> Hnone]|(i & Hi & -> & Hsi & Hmax)].
        * left. split; [done|]. intros i Hi.
          destruct (decide (i = k)) as [->|Hne]; [done|]. apply Hnone. lia.
        * right. exists i. split; [lia|]. split; [done|]. split; [done|].
          intros i' Hi' Hs'.
          destruct (decide (i' = k)) as [->|Hne]; [fold j in Hs'; congruence|].
          apply Hmax; [lia|done]. }
  assert (forall i, 0 <= i < n -> 0 <= i < 0 + Z.of_nat (Z.to_nat n)) as Hr by lia.
  destruct Hinv as [[Hc Hnone]|(i & Hi & Hc & Hs & Hmax)].
  - left. split; [done|]. intros i Hi. apply Hnone, Hr, Hi.
  - right. exists i. split; [lia|]. split; [done|]. split; [done|].
    intros i' Hi'. apply Hmax, Hr, Hi'.
Qed.

Lemma filter_nothing (P : Z -> bool) l :
  Forall (fun x => P x = false) l -> filter (fun x => P x = true) l = [].
Proof.
  induction 1 as [|x l Hx _ IH]; [done|].
  rewrite filter_cons_False by congruence. done.
Qed.

Lemma no_stale_slot st :
  (forall i, 0 <= i < Z.min (Super.raid_disks (first_super st)) (bestcnt st) ->
             stale (devices st) (best_at (best st) i) = false) ->
  stale_slots st = 0%nat.
Proof.
  intros Hnone. unfold stale_slots.
  rewrite (filter_nothing (stale (devices st))); [done|].
  apply Forall_forall. intros j Hin. apply list_elem_of_lookup in Hin as [i Hi].
  unfold data_slots in Hi. apply lookup_take_Some in Hi as [Hi Hlt].
  specialize (Hnone (Z.of_nat i)).
  assert (best_at (best st) (Z.of_nat i) = j) as Hb.
  { unfold best_at, zlookup.
    replace (Z.of_nat i <? 0) with false by (symmetry; apply Z.ltb_ge; lia).
    rewrite Nat2Z.id, Hi. done. }
  rewrite Hb in Hnone. rewrite Hnone; [done|].
  apply lookup_lt_Some in Hi. unfold bestcnt. lia.
Qed.

(** X14.  The force loop is left only when [force] is off, when [enough]
    accepts the drives that are available, or when no data slot has a
    drive left that is not up to date and has a positive event counter.
    It changes neither the slot map nor the reference superblock nor the
    number of candidates. *)
Theorem force_loop_exit_condition fuel : forall st st',
  force_loop E force fuel st = Some st' ->
  best st' = best st /\ first_super st' = first_super st
  /\ length (devices st') = length (devices st)
  /\ (force = false \/ enough_now st' = true \/ stale_slots st' = 0%nat).
Proof.
  induction fuel as [|fuel IH]; intros st st'; simpl; [done|].
  destruct (force_iter E force st) as [s1 again] eqn:Hit.
  destruct again.
  - intros Hloop. apply force_iter_turn in Hit as (_ & _ & _ & Hb & Hf & _ & Hl & _).
    destruct (IH _ _ Hloop) as (Hb' & Hf' & Hl' & Hend).
    split; [congruence|]. split; [congruence|]. split; [congruence|done].
  - intros [= <-]. unfold force_iter in Hit.
    destruct force; [|injection Hit as <-; tauto].
    destruct (enough_now st) eqn:Hen; cbn [negb andb] in Hit.
    { injection Hit as <-. tauto. }
    st_simpl.
    destruct (Z.ltb_spec (pick_stale st) 0) as [Hneg|Hpos].
    + injection Hit as <-. st_simpl. split; [done|]. split; [done|]. split; [done|].
      right. right.
      destruct (pick_stale_choice st) as [[_ Hnone]|(i & _ & _ & Hs & _)].
      * apply (no_stale_slot (set_chosen_drive (pick_stale st) st)). exact Hnone.
      * apply stale_valid in Hs. lia.
    + repeat case_match; congruence.
Qed.

(** X15.  A turn of the force loop that finds too few drives available
    picks, among the drives of the data slots that are not up to date and
    have a positive event counter, one with the largest event counter,
    that of the lowest slot among equals; it leaves the loop, with
    [chosen_drive] at -1, only when there is no such drive. *)
Theorem force_picks_newest_stale st st' again :
  force_iter E force st = (st', again) ->
  force = true -> enough_now st = false ->
  let n := Z.min (Super.raid_disks (first_super st)) (bestcnt st) in
  (chosen_drive st' = -1 /\ again = false
   /\ forall i, 0 <= i < n -> stale (devices st) (best_at (best st) i) = false)
  \/ exists i,
       0 <= i < n /\ chosen_drive st' = best_at (best st) i /\ again = true
       /\ stale (devices st) (chosen_drive st') = true
       /\ forall i', 0 <= i' < n ->
            stale (devices st) (best_at (best st) i') = true ->
            Dev.events (dev_at (devices st) (best_at (best st) i'))
            <= Dev.events (dev_at (devices st) (chosen_drive st'))
            /\ (i' < i ->
                Dev.events (dev_at (devices st) (best_at (best st) i'))
                < Dev.events (dev_at (devices st) (chosen_drive st'))).
Proof.
  intros Hit Hf Hen n.
  assert (chosen_drive st' = pick_stale st
          /\ again = negb (pick_stale st <? 0)) as [Hc Ha].
  { unfold force_iter in Hit. rewrite Hf, Hen in Hit. cbn [negb andb] in Hit.
    st_simpl.
    destruct (pick_stale st <? 0) eqn:Hneg.
    - injection Hit as <- <-. done.
    - unfold set_dev_events, mark_uptodate, store_avail, say in Hit.
      repeat case_match; st_simpl; injection Hit as <- <-; split; done. }
  rewrite Hc, Ha.
  destruct (pick_stale_choice st) as [[Hp Hnone]|(i & Hi & Hp & Hs & Hmax)].
  - left. rewrite Hp. done.
  - right. exists i. split; [done|]. split; [done|]. split; [|done].
    apply stale_valid in Hs.
    replace (pick_stale st <? 0) with false by (symmetry; apply Z.ltb_ge; lia).
    done.
Qed.

(** ** The slot table after the reconciler *)

Lemma disk_eta d :
  Disk.mk (Disk.number d) (Disk.major d) (Disk.minor d) (Disk.raid_disk d)
    (Disk.state d) = d.
Proof. destruct d; done. Qed.

Lemma patch_numbers_disks i d s :
  same_but_super s (patch_numbers i d s)
  /\ forall c, 0 <= c < Z.of_nat (length (Super.disks (super s))) ->
       Super.disk (super (patch_numbers i d s)) c
       = if decide (c = i)
         then Disk.set_major_minor (Dev.oldmajor d) (Dev.oldminor d)
                (Super.disk (super s) i)
         else Super.disk (super s) c.
Proof.
  unfold patch_numbers, same_but_super.
  destruct (_ || _) eqn:Hdiff; st_simpl.
  - cbn [Super.set_disk Super.set_disks Super.disks Super.raid_disks Super.level
         Super.state].
    split_and!; try done; [apply length_zinsert|].
    intros c Hc.
    fold (Super.set_disk i
            (Disk.set_major_minor (Dev.oldmajor d) (Dev.oldminor d)
               (Super.disk (super s) i)) (super s)).
    rewrite disk_set_disk.
    destruct (decide (c = i)) as [->|Hne].
    + rewrite decide_True by done. done.
    + rewrite decide_False by tauto. done.
  - split_and!; try done. intros c Hc.
    destruct (decide (c = i)) as [->|Hne]; [|done].
    apply orb_false_elim in Hdiff as [Hma Hmi].
    apply negb_false_iff, Z.eqb_eq in Hma, Hmi.
    unfold Disk.set_major_minor. rewrite Hma, Hmi. symmetry. apply disk_eta.
Qed.

Lemma patch_state_disks i j desired d s :
  Dev.uptodate d = true ->
  same_but_super s (patch_state force i j desired d s)
  /\ forall c, 0 <= c < Z.of_nat (length (Super.disks (super s))) ->
       Super.disk (super (patch_state force i j desired d s)) c
       = if decide (c = i)
         then (if force then Disk.set_state desired (Super.disk (super s) i)
               else Super.disk (super s) i)
         else Super.disk (super s) c.
Proof.
  intros Hup. unfold patch_state, same_but_super. rewrite Hup. cbn [andb].
  destruct (Z.eqb_spec (Disk.state (Super.disk (super s) i)) desired) as [Heq|Hne];
    cbn [negb].
  - split_and!; try done. intros c Hc.
    destruct (decide (c = i)) as [->|Hne]; [|done].
    destruct force; [|done].
    unfold Disk.set_state. rewrite <- Heq. symmetry. apply disk_eta.
  - destruct force; st_simpl.
    + cbn [Super.set_disk Super.set_disks Super.disks Super.raid_disks Super.level
           Super.state].
      split_and!; try done; [apply length_zinsert|].
      intros c Hc.
      fold (Super.set_disk i (Disk.set_state desired (Super.disk (super s) i))
              (super s)).
      rewrite disk_set_disk.
      destruct (decide (c = i)) as [->|Hne'].
      * rewrite decide_True by done. done.
      * rewrite decide_False by tauto. done.
    + split_and!; try done. intros c Hc. destruct (decide (c = i)) as [->|]; done.
Qed.

Lemma reconcile_slot_disks i s :
  same_but_super s (reconcile_slot force i s)
  /\ forall c, 0 <= c < Z.of_nat (length (Super.disks (super s))) ->
       Super.disk (super (reconcile_slot force i s)) c
       = if decide (c = i) then
           (if usable s i then reconciled_disk force s i else Super.disk (super s) c)
         else Super.disk (super s) c.
Proof.
  unfold reconcile_slot, usable.
  destruct (Z.ltb_spec (best_at (best s) i) 0) as [Hj|Hj].
  { replace (0 <=? best_at (best s) i) with false by (symmetry; apply Z.leb_gt; done).
    split; [done|]. intros c _. destruct (decide _); done. }
  replace (0 <=? best_at (best s) i) with true by (symmetry; apply Z.leb_le; done).
  destruct (Dev.uptodate (dev_at (devices s) (best_at (best s) i))) eqn:Hup;
    cbn [negb andb].
  2: { split; [done|]. intros c _. destruct (decide _); done. }
  set (d := dev_at (devices s) (best_at (best s) i)) in *.
  destruct (patch_numbers_disks i d s) as [(Hd1 & Hb1 & Ho1 & Hr1 & Hl1 & Hs1 & Hn1) Hk1].
  set (s1 := patch_numbers i d s) in *.
  set (desired := if i <? Super.raid_disks (super s) then _ else _).
  destruct (patch_state_disks i (best_at (best s) i) desired d s1 Hup)
    as [(Hd2 & Hb2 & Ho2 & Hr2 & Hl2 & Hs2 & Hn2) Hk2].
  set (s2 := patch_state force i (best_at (best s) i) desired d s1) in *.
  unfold same_but_super. split; [split_and!; congruence|].
  intros c Hc. rewrite Hk2 by lia.
  destruct (decide (c = i)) as [->|Hne]; [|apply Hk1 in Hc; rewrite Hc, decide_False; done].
  rewrite (Hk1 i Hc), decide_True by done.
  unfold reconciled_disk. fold d. unfold desired_state. fold desired.
  destruct force; done.
Qed.

(** X16.  The reconciler makes every slot of [super] whose drive is up to
    date carry the numbers that drive recorded for itself and, with
    [force], the state the slot should have (active and in sync for a data
    slot, 0 past them); it leaves the other slots, and without [force] the
    states, as they were.  With [force] it sets the state of a level 4 or
    5 array that lacks exactly one drive to clean. *)
Theorem reconcile_slot_table st :
  (forall c, 0 <= c < Z.of_nat (length (Super.disks (super st))) ->
     Super.disk (super (reconcile force st)) c
     = if usable st c then reconciled_disk force st c else Super.disk (super st) c)
  /\ Super.state (super (reconcile force st))
     = (if force
           && ((Super.level (super st) =? 4) || (Super.level (super st) =? 5))
           && (okcnt st =? u32 (Super.raid_disks (super st) - 1))
        then bit MD_SB_CLEAN else Super.state (super st))
  /\ devices (reconcile force st) = devices st
  /\ best (reconcile force st) = best st.
Proof.
  set (inv := fun (k : Z) (s : locals) =>
    same_but_super st s
    /\ forall c, 0 <= c < Z.of_nat (length (Super.disks (super st))) ->
         Super.disk (super s) c
         = if (c <? k) && usable st c
           then reconciled_disk force st c else Super.disk (super st) c).
  assert (inv (0 + Z.of_nat (length (best st)))
            (for_range 0 (length (best st)) (reconcile_slot force) st))
    as [(Hd & Hb & Ho & Hr & Hl & Hs & Hn) Hk].
  { apply (for_range_ind inv).
    - split; [done|]. intros c Hc.
      replace (c <? 0) with false by (symmetry; apply Z.ltb_ge; lia). done.
    - intros k s Hk [(Hd & Hb & Ho & Hr & Hl & Hs & Hn) Hdisk].
      destruct (reconcile_slot_disks k s) as [(Hd' & Hb' & Ho' & Hr' & Hl' & Hs' & Hn') Hk'].
      split; [unfold same_but_super; split_and!; congruence|].
      intros c Hc. rewrite Hk' by lia. rewrite Hdisk by done.
      assert (usable s k = usable st k) as Hu by (unfold usable; rewrite Hd, Hb; done).
      destruct (decide (c = k)) as [->|Hne].
      + replace (k <? k) with false by (symmetry; apply Z.ltb_ge; lia).
        replace (k <? k + 1) with true by (symmetry; apply Z.ltb_lt; lia).
        cbn [andb]. rewrite Hu. destruct (usable st k); [|done].
        unfold reconciled_disk, desired_state. rewrite Hd, Hb, Hr.
        rewrite (Hdisk k Hc).
        replace (k <? k) with false by (symmetry; apply Z.ltb_ge; lia). done.
      + replace (c <? k + 1) with (c <? k); [done|].
        destruct (Z.ltb_spec c (k + 1)), (Z.ltb_spec c k); lia. }
  set (s := for_range 0 (length (best st)) (reconcile_slot force) st) in *.
  unfold reconcile. fold s.
  assert (forall c, Super.disk (super (force_clean force s)) c = Super.disk (super s) c)
    as Hfc by (intros c; unfold force_clean; case_match; done).
  split_and!.
  - intros c Hc. rewrite Hfc, (Hk c Hc).
    destruct (usable st c) eqn:Hu; [|rewrite andb_false_r; done].
    replace (c <? 0 + Z.of_nat (length (best st))) with true; [done|].
    symmetry. apply Z.ltb_lt. unfold usable in Hu.
    apply andb_true_iff in Hu as [Hu _]. apply Z.leb_le in Hu.
    unfold best_at, zlookup in Hu. destruct (c <? 0); [simpl in Hu; lia|].
    destruct (best st !! Z.to_nat c) eqn:Hl'; [|simpl in Hu; lia].
    apply lookup_lt_Some in Hl'. lia.
  - unfold force_clean. rewrite Hl, Hr, Ho.
    case_match; st_simpl; [done|]. exact Hs.
  - unfold force_clean. case_match; st_simpl; done.
  - unfold force_clean. case_match; st_simpl; done.
Qed.

(** ** The [resync] update *)

Lemma testbit_bit c n : 0 <= c -> 0 <= n -> Z.testbit (bit c) n = (n =? c).
Proof.
  intros Hc Hn. unfold bit.
  destruct (Z.eqb_spec n c) as [->|Hne].
  - rewrite Z.shiftl_spec by done. rewrite Z.sub_diag. done.
  - destruct (decide (n < c)).
    + apply Z.shiftl_spec_low. done.
    + rewrite Z.shiftl_spec by done. apply Z.bits_above_log2; [lia|].
      change (Z.log2 1) with 0. lia.
Qed.

(** X17.  The [resync] update clears the clean bit of the state, leaves the
    other 31 bits as they were, and sets [recovery_cp] to 0. *)
Theorem resync_clears_clean_only sb :
  0 <= MD_SB_CLEAN < 32 ->
  has_bit (Super.state (resync sb)) MD_SB_CLEAN = false
  /\ (forall n, 0 <= n < 32 -> n <> MD_SB_CLEAN ->
        Z.testbit (Super.state (resync sb)) n = Z.testbit (Super.state sb) n)
  /\ 0 <= Super.state (resync sb) < 2 ^ 32
  /\ Super.recovery_cp (resync sb) = 0.
Proof.
  intros Hc.
  assert (Super.state (resync sb)
          = Z.land (Super.state sb) (Z.lnot (bit MD_SB_CLEAN)) mod 2 ^ 32) as Hst by done.
  assert (forall n, 0 <= n < 32 ->
            Z.testbit (Super.state (resync sb)) n
            = Z.testbit (Super.state sb) n && negb (n =? MD_SB_CLEAN)) as Hbits.
  { intros n Hn. rewrite Hst, Z.mod_pow2_bits_low by lia.
    rewrite Z.land_spec, Z.lnot_spec, testbit_bit by lia. done. }
  split_and!.
  - unfold has_bit. apply negb_false_iff, Z.eqb_eq.
    apply Z.bits_inj'. intros n Hn.
    rewrite Z.land_spec, Z.bits_0, testbit_bit by lia.
    destruct (Z.eqb_spec n MD_SB_CLEAN) as [->|Hne]; [|apply andb_false_r].
    rewrite Hbits by done. rewrite Z.eqb_refl. cbn [negb]. rewrite andb_false_r. done.
  - intros n Hn Hne. rewrite Hbits by done.
    replace (n =? MD_SB_CLEAN) with false by (symmetry; apply Z.eqb_neq; done).
    apply andb_true_r.
  - rewrite Hst. apply Z.mod_pos_bound. lia.
  - rewrite Hst. apply Z.mod_pos_bound. lia.
  - done.
Qed.

(** ** The disks handed to the driver *)

Lemma add_disk_request i st :
  ioctls (log (add_disk E verbose i st))
  = ioctls (log st)
    ++ (if (i <? bestcnt st) && (best_at (best st) i =? chosen_drive st) then []
        else if 0 <=? (if i <? bestcnt st then best_at (best st) i else chosen_drive st)
             then [add_request (devices st)
                     (if i <? bestcnt st then best_at (best st) i else chosen_drive st)]
             else []).
Proof.
  destruct (add_disk_shape i st) as [_ Hk].
  rewrite !ioctls_kcalls, Hk, fmap_app. f_equal.
  unfold added_by. repeat case_match; done.
Qed.

(** X18.  The loop of lines 601-630 sends one [ADD_NEW_DISK] for every drive
    of the slot map but the chosen one, in the order of the slots and
    whether the drive is up to date or not, and then one for the chosen
    drive if there is one; each with the device numbers the drive has
    now. *)
Theorem add_disks_requests st :
  ioctls (log (add_disks E verbose st))
  = ioctls (log st)
    ++ (add_request (devices st)
          <$> filter (fun j => added_in_turn (chosen_drive st) j = true) (best st))
    ++ (if 0 <=? chosen_drive st
        then [add_request (devices st) (chosen_drive st)] else []).
Proof.
  unfold add_disks. rewrite for_range_last.
  set (n := length (best st)).
  set (inv := fun (k : Z) (s : locals) =>
    same_plan_vars st s
    /\ ioctls (log s)
       = ioctls (log st)
         ++ (add_request (devices st)
               <$> filter (fun j => added_in_turn (chosen_drive st) j = true)
                     (take (Z.to_nat k) (best st)))).
  assert (inv (0 + Z.of_nat n) (for_range 0 n (add_disk E verbose) st))
    as [(Hd & Hb & Hc & _) Hlog].
  { apply (for_range_ind inv).
    - split; [done|]. simpl. rewrite app_nil_r. done.
    - intros k s Hk [(Hd & Hb & Hc & Hf & Ha) Hlog].
      destruct (add_disk_shape k s) as [(Hd' & Hb' & Hc' & Hf' & Ha') _].
      split; [unfold same_plan_vars; split_and!; congruence|].
      rewrite add_disk_request, Hlog, <- app_assoc. f_equal.
      unfold bestcnt. rewrite Hb, Hc, Hd.
      replace (k <? Z.of_nat (length (best st))) with true
        by (symmetry; apply Z.ltb_lt; subst n; lia).
      cbn [andb].
      destruct (lookup_lt_is_Some_2 (best st) (Z.to_nat k) ltac:(subst n; lia))
        as [j Hj].
      assert (best_at (best st) k = j) as ->.
      { unfold best_at, zlookup.
        replace (k <? 0) with false by (symmetry; apply Z.ltb_ge; lia).
        rewrite Hj. done. }
      replace (Z.to_nat (k + 1)) with (S (Z.to_nat k)) by lia.
      rewrite (take_S_r _ _ _ Hj), filter_app, fmap_app. f_equal.
      rewrite filter_cons, filter_nil. unfold added_in_turn.
      destruct (j =? chosen_drive st); cbn [negb].
      + rewrite andb_false_r. rewrite decide_False by done. done.
      + rewrite andb_true_r. destruct (0 <=? j); [rewrite decide_True by done|
                                                   rewrite decide_False by done]; done. }
  rewrite add_disk_request, Hlog, <- app_assoc. f_equal.
  rewrite Z.add_0_l, Nat2Z.id. subst n. rewrite take_ge by lia. f_equal.
  unfold bestcnt. rewrite Hb, Hc, Hd.
  replace (Z.of_nat (length (best st)) <? Z.of_nat (length (best st))) with false
    by (symmetry; apply Z.ltb_ge; lia).
  done.
Qed.

(** ** The candidates and the device list *)

Lemma probe_step_candidates inargv st devname st' :
  probe_step E ident update verbose inargv st devname = Go st' ->
  devices st' = devices st
  \/ (not_listed ident devname = false
      /\ exists d, Dev.devname d = devname /\ devices st' = devices st ++ [d]).
Proof.
  intros Hstep.
  destruct (not_listed ident devname) eqn:Hnl.
  { unfold probe_step in Hstep. rewrite Hnl in Hstep. injection Hstep as <-.
    left. unfold say_if. case_match; done. }
  apply probe_step_commits in Hstep as [(Hd & _)|(stb & st2 & (Hd & _) & _ & ->)];
    [left; done|].
  right. split; [done|].
  destruct (commit_state devname stb st2) as (Hd' & _). cbn zeta in Hd'.
  eexists. split; [|rewrite Hd', Hd; done]. done.
Qed.

(** X19.  The names of the candidates, in the order of [devices], are a
    sublist of the device list, and none is left out by the device pattern
    of [ident]: the probe loop commits a device at most once per entry of
    the list, so [devices] never holds more than [num_devs] records. *)
Theorem candidates_follow_the_list inargv devlist : forall st0 st,
  probe_loop E ident update verbose inargv devlist st0 = Go st ->
  exists new,
    devices st = devices st0 ++ new
    /\ sublist (Dev.devname <$> new) devlist
    /\ Forall (fun d => not_listed ident (Dev.devname d) = false) new
    /\ (length new <= length devlist)%nat.
Proof.
  induction devlist as [|name l IH]; intros st0 st; simpl.
  { intros [= <-]. exists []. rewrite app_nil_r. split_and!; done. }
  destruct (probe_step E ident update verbose inargv st0 name) as [|s1] eqn:Hstep;
    [done|].
  intros Hloop. apply IH in Hloop as (new & Hd & Hsub & Hall & Hlen).
  apply probe_step_candidates in Hstep as [Hsame|(Hnl & d & Hname & Hd1)].
  - exists new. split; [congruence|]. split; [apply sublist_cons; done|].
    split; [done|lia].
  - exists (d :: new). split; [rewrite Hd, Hd1, <- app_assoc; done|].
    split; [rewrite fmap_cons, Hname; apply sublist_skip; done|].
    split; [apply Forall_cons_2; [congruence|done]|]. simpl. lia.
Qed.

(** ** Success needs a member *)

Lemma avail_scan_devcnt st : length (devices (avail_scan force st)) = length (devices st).
Proof.
  unfold avail_scan.
  set (st0 := set_sparecnt _ _).
  change (length (devices st)) with (length (devices st0)).
  generalize (length (best st0)). intros n.
  apply (for_range_ind (fun _ s => length (devices s) = length (devices st0))); [done|].
  intros k s _ Hs. rewrite <- Hs.
  unfold scan_slot, store_avail, mark_uptodate.
  repeat (case_match; st_simpl); rewrite ?length_zinsert; done.
Qed.

Lemma force_loop_devcnt fuel : forall st st',
  force_loop E force fuel st = Some st' -> length (devices st') = length (devices st).
Proof.
  induction fuel as [|fuel IH]; intros st st'; simpl; [done|].
  destruct (force_iter E force st) as [s1 again] eqn:Hit.
  destruct again.
  - intros Hloop. apply force_iter_turn in Hit as (_ & _ & _ & _ & _ & _ & Hl & _).
    rewrite (IH _ _ Hloop). done.
  - intros [= <-]. unfold force_iter in Hit.
    repeat case_match; injection Hit as <-; done.
Qed.

Lemma choose_drive_devices n : forall i st,
  devices match choose_drive E n i st with
          | Exit _ st' => st' | Go st' => st' end = devices st.
Proof.
  induction n as [|n IH]; intros i st; simpl; [done|].
  destruct (0 <=? chosen_drive st); [done|].
  destruct (best_at (best st) i <? 0); [apply IH|].
  destruct (negb _); [apply IH|].
  destruct (sys_open _ _ _ _); simpl; [|done].
  destruct (load_super _ _ _ _) as [r sb].
  destruct (truthy r); [done|].
  rewrite IH. done.
Qed.

Lemma reconcile_devices st : devices (reconcile force st) = devices st.
Proof.
  unfold reconcile.
  assert (devices (for_range 0 (length (best st)) (reconcile_slot force) st)
          = devices st) as Hr.
  { apply (for_range_ind (fun _ s => devices s = devices st)); [done|].
    intros k s _ Hs. destruct (reconcile_slot_disks k s) as [(Hd & _) _].
    congruence. }
  unfold force_clean. case_match; st_simpl; done.
Qed.

Lemma write_back_devices old_linux st :
  devices match write_back E force old_linux st with
          | Exit _ st' => st' | Go st' => st' end = devices st.
Proof.
  unfold write_back. destruct (must_write _ _ _); [|done].
  destruct (sys_open _ _ _ _); simpl; [|done].
  destruct (truthy _); done.
Qed.

(** X20.  [Assemble] returns 0 only with at least one candidate: when every
    device of the list was skipped it returns 1. *)
Theorem success_needs_a_member conffile devlist st :
  Assemble E ident update runstop verbose force conffile devlist = Some (0, st) ->
  0 < devcnt st.
Proof.
  unfold Assemble.
  destruct (md_get_version E <=? 0); [done|].
  destruct (md_get_version E <? 9000); [done|].
  destruct (_ >=? 0); [done|].
  destruct (_ && _); [done|].
  destruct (probe_loop _ _ _ _ _ _ _) as [c s3|s3] eqn:Hloop.
  { apply probe_loop_exit in Hloop. intros [= -> _]. done. }
  unfold assemble_devices.
  destruct (Z.eqb_spec (devcnt s3) 0) as [|Hcnt]; [done|].
  destruct (force_loop _ _ _ _) as [s4|] eqn:Hforce; [|done].
  apply force_loop_devcnt in Hforce. rewrite avail_scan_devcnt in Hforce.
  pose proof (choose_drive_devices (length (best s4)) 0 (set_chosen_drive (-1) s4))
    as Hch.
  destruct (choose_drive _ _ _ _) as [c s5|s5] eqn:Hcd.
  { apply choose_drive_exit in Hcd. intros [= -> _]. done. }
  pose proof (reconcile_devices s5) as Hrd.
  pose proof (write_back_spec (get_linux_version E <? 2004000) (reconcile force s5))
    as Hwb.
  pose proof (write_back_devices (get_linux_version E <? 2004000) (reconcile force s5))
    as Hd6.
  destruct (write_back _ _ _ _) as [c s6|s6].
  { destruct Hwb as [-> _]. done. }
  intros Hplan.
  assert (devices st = devices s6) as Hfin.
  { destruct (negb (get_linux_version E <? 2004000)); apply (inj Some) in Hplan.
    - destruct (modern_plan_shape (count_req (first_super s6))
                  (start_partial_ok force devlist) s6) as ((Hd & _) & _).
      rewrite Hplan in Hd. done.
    - apply (f_equal snd) in Hplan. simpl in Hplan. subst st.
      destruct (truthy _); reflexivity. }
  unfold devcnt in *. rewrite Hfin, Hd6, Hrd, Hch. st_simpl. lia.
Qed.

End Properties.

(** * The claims at concrete inputs *)

(** From here on the headers are those of [md_0_90]. *)
#[local] Existing Instance md_0_90.

(** C1: what the code does at an input where the claim fails.  Four drives
    of a three-drive RAID-5 array are named: slot 0 current, a second and
    older drive for slot 0, and stale drives for slots 1 and 2, that of
    slot 2 being [devices[3]].  With [force] the loop rewrites the drive
    of slot 2 and counts it ([okcnt] is 2), but the byte it sets is
    [avail[3]], one past the end of the three bytes of [avail], and
    [avail[2]] stays clear. *)
Theorem force_loop_marks_device_index :
  exists st,
    assemble_named 2004020 kernel_ok true stale_slot2_disks = Some (0, st)
    /\ best_at (best st) 2 = 3
    /\ stores (log st) = ["/dev/sdc1"; "/dev/sda1"]
    /\ okcnt st = 2
    /\ length (avail st) = 3%nat
    /\ zlookup (avail st) 2 = Some false
    /\ overrun st = [3].
Proof. eexists. vm_compute. repeat split; reflexivity. Qed.

(** C2: what the code does at an input where the claim fails.  On a 2.2
    kernel the driver refuses [START_ARRAY]; [Assemble] reports it and
    returns 0. *)
Theorem legacy_start_failure_returns_0 :
  exists st,
    assemble_named 2002019 kernel_no_start false clean_disks = Some (0, st)
    /\ kcalls (log st)
       = [(GET_ARRAY_INFO, -1); (STOP_ARRAY, 0); (START_ARRAY 2049, -1)]
    /\ messages (log st) = [cannot_start_array].
Proof. eexists. vm_compute. repeat split; reflexivity. Qed.

(** C3 as stated fails: four devices are named, the first has no
    superblock, no identity is given, and the assembly aborts on that
    device although three good drives follow it. *)
Lemma missing_superblock_counterexample :
  exists st,
    assemble_named 2004020 kernel_ok false blank_first_disks = Some (1, st)
    /\ length blank_first_disks = 4%nat
    /\ messages (log st)
       = [no_raid_superblock "/dev/sdx"; no_superblock_aborted "/dev/sdx"]
    /\ devices st = [].
Proof. eexists. vm_compute. repeat split; reflexivity. Qed.

Lemma missing_superblock_fatal_iff_unfiltered_witness :
  probe_step blank_world no_ident None false true init_locals "/dev/sdx"
  = Exit 1
      (say (no_superblock_aborted "/dev/sdx")
         (probe blank_world false true "/dev/sdx" init_locals).1).
Proof.
  assert (not_listed no_ident "/dev/sdx" = false) as Hlisted by reflexivity.
  assert (probe blank_world false true "/dev/sdx" init_locals
          = ((probe blank_world false true "/dev/sdx" init_locals).1, None)) as Hprobe
    by (vm_compute; reflexivity).
  assert (identity_unset no_ident) as Hunset
    by (unfold identity_unset; simpl; repeat split; reflexivity).
  exact (proj1 (missing_superblock_fatal_iff_unfiltered blank_world no_ident None false
                  true init_locals "/dev/sdx"
                  (probe blank_world false true "/dev/sdx" init_locals).1
                  Hlisted Hprobe) Hunset).
Defined.

(** C4 as stated fails: on a 2.2 kernel, without [force], the drive of
    slot 1 recorded (8,17) for itself while the reference superblock has
    the slot on (8,18).  The reconciler patches the slot in memory and
    records the value 2, not 1, and the superblock is not written back. *)
Lemma renumber_counterexample :
  exists st,
    assemble_named 2002019 kernel_ok false moved_disks = Some (0, st)
    /\ Disk.minor (Super.disk (super st) 1) = 17
    /\ change st = CHANGE_STATE
    /\ Z.land (change st) CHANGE_RENUMBER = 0
    /\ stores (log st) = []
    /\ ioctls (log st) = [GET_ARRAY_INFO; STOP_ARRAY; START_ARRAY 2049].
Proof. eexists. vm_compute. repeat split; reflexivity. Qed.

Lemma reconciler_write_back_witness :
  match write_back (world 2004020 moved_disks kernel_ok) true false
          (reconcile true moved_chosen) with
  | Go st' =>
      (must_write true false (reconcile true moved_chosen) = false
       /\ st' = reconcile true moved_chosen)
      \/ (must_write true false (reconcile true moved_chosen) = true
          /\ log st'
             = log (reconcile true moved_chosen)
               ++ [EvOpen (Dev.devname (dev_at (devices moved_chosen)
                                          (chosen_drive moved_chosen)))
                     O_RDWR_EXCL true;
                   EvStore (Dev.devname (dev_at (devices moved_chosen)
                                           (chosen_drive moved_chosen)))
                     (Super.set_sb_csum
                        (calc_sb_csum (super (reconcile true moved_chosen)))
                        (super (reconcile true moved_chosen))) 0])
  | Exit code st' =>
      code = 1 /\ must_write true false (reconcile true moved_chosen) = true
      /\ exists m, last (log st') = Some (EvMsg m)
                   /\ (m = reconcile_cannot_open
                             (Dev.devname (dev_at (devices moved_chosen)
                                             (chosen_drive moved_chosen)))
                       \/ m = reconcile_not_rewritten
                                (Dev.devname (dev_at (devices moved_chosen)
                                                (chosen_drive moved_chosen))))
  end.
Proof.
  assert (change moved_chosen = 0) as Hchange by (vm_compute; reflexivity).
  assert (0 <= chosen_drive moved_chosen < devcnt moved_chosen) as Hchosen
    by (split; [vm_compute; discriminate | vm_compute; reflexivity]).
  assert (slots_in_table moved_chosen = true) as Hslots by (vm_compute; reflexivity).
  exact (proj2 (proj2 (proj2 (reconciler_write_back
                                (world 2004020 moved_disks kernel_ok) true false
                                moved_chosen Hchange)))
           Hchosen Hslots).
Defined.

(** C5 as stated fails: a spare is the only device named.  It is not up to
    date, so no drive is chosen ([chosen_drive] stays -1), yet it is handed
    to the driver: the last [ADD_NEW_DISK] is not that of a chosen drive. *)
Lemma chosen_drive_counterexample :
  exists st,
    assemble_named 2004020 kernel_ok false spare_only = Some (1, st)
    /\ ioctls (log st)
       = [GET_ARRAY_INFO; STOP_ARRAY; SET_ARRAY_INFO; ADD_NEW_DISK 8 65]
    /\ chosen_drive st = -1
    /\ zlookup (devices st) (chosen_drive st) = None
    /\ Forall (fun d => Dev.uptodate d = false) (devices st).
Proof.
  eexists. vm_compute. repeat split; try reflexivity.
  repeat constructor.
Qed.

Lemma modern_plan_order_witness :
  exists pre adds run,
    Forall is_preparation pre /\ Forall is_add adds
    /\ (run = [] \/ exists r, run = [(RUN_ARRAY, r)])
    /\ (kcalls (log (final clean_run)) = pre
        \/ exists r,
             kcalls (log (final clean_run)) = pre ++ (SET_ARRAY_INFO, r) :: adds ++ run)
    /\ (0 <= chosen_drive (final clean_run) ->
        In (SET_ARRAY_INFO, 0) (kcalls (log (final clean_run))) ->
        fst <$> last adds
        = Some (ADD_NEW_DISK
                  (Dev.major (dev_at (devices (final clean_run))
                                (chosen_drive (final clean_run))))
                  (Dev.minor (dev_at (devices (final clean_run))
                                (chosen_drive (final clean_run)))))).
Proof.
  assert (Assemble clean_world no_ident None 0 false false "mdadm.conf" clean_names
          = Some (status clean_run, final clean_run)) as Hrun
    by (vm_compute; reflexivity).
  assert (2004000 <= get_linux_version clean_world) as Hlinux
    by (vm_compute; discriminate).
  exact (modern_plan_order clean_world no_ident None 0 false false "mdadm.conf"
           clean_names (status clean_run) (final clean_run) Hrun Hlinux).
Defined.



(** C7 as stated fails: the stale drive of slot 1 cannot be opened for
    writing; the turn of the force loop that picks it goes round again
    with [okcnt] as it was. *)
Lemma force_turn_counterexample :
  exists st',
    force_iter readonly_world true readonly_scanned = (st', true)
    /\ okcnt st' = 1
    /\ okcnt readonly_scanned = 1
    /\ messages (log st')
       = [forcing_event_count "/dev/sdb1" 1 95 100; force_cannot_open "/dev/sdb1"].
Proof. eexists. vm_compute. repeat split; reflexivity. Qed.

Lemma force_loop_progress_witness :
  (stale_slots (force_iter readonly_world true readonly_scanned).1
   < stale_slots readonly_scanned)%nat.
Proof.
  assert (force_iter readonly_world true readonly_scanned
          = ((force_iter readonly_world true readonly_scanned).1, true)) as Hturn
    by (vm_compute; reflexivity).
  exact (proj1 (proj1 (force_loop_progress readonly_world true)
                  readonly_scanned (force_iter readonly_world true readonly_scanned).1
                  Hturn)).
Defined.


Lemma scan_marks_available_witness :
  Dev.uptodate (dev_at (devices (avail_scan false one_stale_probed)) 2) = true
  <-> zlookup (avail (avail_scan false one_stale_probed)) 2 = Some true.
Proof.
  assert (Forall (fun d => Dev.uptodate d = false) (devices one_stale_probed)) as Hfresh
    by (vm_compute; repeat constructor).
  assert (0 <= 2 < Super.raid_disks (first_super one_stale_probed)) as Hslot
    by (vm_compute; split; [discriminate|reflexivity]).
  assert (zlookup (best one_stale_probed) 2 = Some 2) as Hbest
    by (vm_compute; reflexivity).
  assert (0 <= 2 < devcnt one_stale_probed) as Hdev
    by (vm_compute; split; [discriminate|reflexivity]).
  assert (- 2 ^ 63
          <= Dev.events (dev_at (devices one_stale_probed) 2) + event_margin false
          < 2 ^ 63) as Hrange
    by (vm_compute; split; [discriminate|reflexivity]).
  exact (proj1 (proj2 (proj2 (scan_marks_available false one_stale_probed 2 2
                                Hfresh Hslot Hbest Hdev Hrange)))).
Defined.

(** C10 as stated fails: 28 mirrors are held when a drive of another
    array is named.  It passes the four tests of the identity (none is
    set), and it is not skipped with a warning: it does not agree with the
    reference superblock, and the assembly is aborted with status 1. *)
Lemma too_many_counterexample :
  exists st,
    stranger_run = Some (1, st)
    /\ devcnt st = MD_SB_DISKS
    /\ ident_mismatch no_ident true (super st) "/dev/sdz1" = None
    /\ messages (log st) = [superblock_mismatch_aborted "/dev/sdz1"].
Proof. eexists. vm_compute. repeat split; reflexivity. Qed.

Lemma too_many_devices_skipped_witness :
  same_candidates full_probed
    (say (too_many_devices one_too_many)
       (set_first_super (first_super full_probed)
          (probe full_world false true one_too_many full_probed).1)).
Proof.
  assert (MD_SB_DISKS <= devcnt full_probed) as Hfull by (vm_compute; discriminate).
  assert (not_listed no_ident one_too_many = false) as Hlisted by reflexivity.
  assert (probe full_world false true one_too_many full_probed
          = ((probe full_world false true one_too_many full_probed).1,
             Some (Build_stat true 8 28))) as Hprobe
    by (vm_compute; reflexivity).
  assert (ident_mismatch no_ident true
            (super (probe full_world false true one_too_many full_probed).1)
            one_too_many = None) as Hident
    by (vm_compute; reflexivity).
  assert (compare_super
            (first_super (probe full_world false true one_too_many full_probed).1)
            (super (probe full_world false true one_too_many full_probed).1)
          = (first_super full_probed, 0)) as Hcompare
    by (vm_compute; reflexivity).
  exact (proj1 (proj2 (proj1 (proj2 (too_many_devices_skipped full_world no_ident
                                       None false))
                         true full_probed one_too_many
                         (probe full_world false true one_too_many full_probed).1
                         (Build_stat true 8 28) (first_super full_probed)
                         Hfull Hlisted Hprobe Hident Hcompare))).
Defined.

(** * The further properties at concrete inputs *)

Lemma plain_assembly_never_writes_witness : written (log (final clean_run)) = [].
Proof.
  assert (@None string = None) as Hupdate by reflexivity.
  assert (false = false) as Hforce by reflexivity.
  assert (Assemble clean_world no_ident None 0 false false "mdadm.conf" clean_names
          = Some (status clean_run, final clean_run)) as Hrun
    by (vm_compute; reflexivity).
  exact (plain_assembly_never_writes clean_world no_ident None 0 false false
           "mdadm.conf" clean_names (status clean_run) (final clean_run)
           Hupdate Hforce Hrun).
Defined.




Lemma refused_before_any_device_witness :
  (status active_run = 1 /\ opened (log (final active_run)) = []
   /\ ~ In STOP_ARRAY (ioctls (log (final active_run))))
  /\ (status active_run = 1 /\ opened (log (final active_run)) = []).
Proof.
  assert (Assemble active_world blank_ident None 0 false false "mdadm.conf" []
          = Some (status active_run, final active_run)) as Hrun
    by (vm_compute; reflexivity).
  assert (md_get_version active_world < 9000
          \/ 0 <= ioctl active_world [] GET_ARRAY_INFO) as Hactive
    by (right; vm_compute; discriminate).
  assert (@nil string = [] /\ Ident.uuid_set blank_ident = 0
          /\ Ident.super_minor blank_ident < 0
          /\ Ident.devices blank_ident = None) as Hblank
    by (repeat split; reflexivity).
  split.
  - exact (proj1 (refused_before_any_device active_world blank_ident None 0 false
                    false "mdadm.conf" [] (status active_run) (final active_run) Hrun)
             Hactive).
  - exact (proj2 (refused_before_any_device active_world blank_ident None 0 false
                    false "mdadm.conf" [] (status active_run) (final active_run) Hrun)
             Hblank).
Defined.

Lemma most_recent_is_newest_witness :
  newest_first (devices one_stale_loop) (most_recent one_stale_loop).
Proof.
  assert (devices init_locals = []) as Hdevices by reflexivity.
  assert (most_recent init_locals = 0) as Hrecent by reflexivity.
  assert (probe_loop one_stale_world no_ident None false true one_stale_names
            init_locals = Go one_stale_loop) as Hloop
    by (vm_compute; reflexivity).
  assert (0 < devcnt one_stale_loop) as Hcnt by (vm_compute; reflexivity).
  exact (most_recent_is_newest one_stale_world no_ident None false true
           one_stale_names init_locals one_stale_loop Hdevices Hrecent Hloop Hcnt).
Defined.

Lemma slot_map_entries_valid_witness :
  (forall i, best_at (best clean_probed) i = -1
             \/ 0 <= best_at (best clean_probed) i < devcnt clean_probed)
  /\ (forall i i',
        0 <= best_at (best clean_probed) i ->
        best_at (best clean_probed) i = best_at (best clean_probed) i' ->
        i = i' /\ 0 <= i < 10000).
Proof.
  assert (devices init_locals = []) as Hdevices by reflexivity.
  assert (best init_locals = []) as Hbest by reflexivity.
  assert (probe_loop clean_world no_ident None false true clean_names init_locals
          = Go clean_probed) as Hloop
    by (vm_compute; reflexivity).
  exact (slot_map_entries_valid clean_world no_ident None false true clean_names
           init_locals clean_probed Hdevices Hbest Hloop).
Defined.

Lemma probe_opens_listed_only_witness :
  In "/dev/sdb1" (opened (log init_locals))
  \/ (In "/dev/sdb1" clean_names /\ not_listed no_ident "/dev/sdb1" = false).
Proof.
  assert (In "/dev/sdb1"
            (opened (log match probe_loop clean_world no_ident None false true
                                 clean_names init_locals with
                         | Exit _ st' => st' | Go st' => st' end))) as Hopened
    by (vm_compute; right; left; reflexivity).
  exact (probe_opens_listed_only clean_world no_ident None false true clean_names
           init_locals "/dev/sdb1" Hopened).
Defined.

Lemma reference_drive_is_first_up_to_date_witness :
  devices clean_chosen = devices clean_scanned /\ best clean_chosen = best clean_scanned
  /\ ((chosen_drive clean_chosen = -1 /\ log clean_chosen = log clean_scanned
       /\ forall k, 0 <= k < bestcnt clean_scanned -> usable clean_scanned k = false)
      \/ exists k,
           0 <= k < bestcnt clean_scanned /\ usable clean_scanned k = true
           /\ (forall k', 0 <= k' < k -> usable clean_scanned k' = false)
           /\ chosen_drive clean_chosen = best_at (best clean_scanned) k
           /\ exists tr,
                load_super clean_world tr
                  (Dev.devname (dev_at (devices clean_scanned)
                                  (chosen_drive clean_chosen)))
                  (super clean_scanned)
                = (0, super clean_chosen)).
Proof.
  assert (chosen_drive clean_scanned = -1) as Hnone by (vm_compute; reflexivity).
  assert (choose_drive clean_world (length (best clean_scanned)) 0 clean_scanned
          = Go clean_chosen) as Hrun
    by (vm_compute; reflexivity).
  exact (reference_drive_is_first_up_to_date clean_world clean_scanned clean_chosen
           Hnone Hrun).
Defined.

Lemma add_disks_accounting_witness :
  okcnt (add_disks clean_world false clean_chosen) = okcnt clean_chosen
  /\ sparecnt (add_disks clean_world false clean_chosen) = sparecnt clean_chosen.
Proof.
  assert (refused_adds (log (add_disks clean_world false clean_chosen))
          = refused_adds (log clean_chosen)) as Hnone
    by (vm_compute; reflexivity).
  exact (proj2 (add_disks_accounting clean_world false clean_chosen) Hnone).
Defined.

Lemma forced_super_round_trip_witness :
  md_event (forced_super 100 clean_super) = 100
  /\ Super.events_hi (forced_super 100 clean_super) * 2 ^ 32
     + Super.events_lo (forced_super 100 clean_super) = 100 mod 2 ^ 64
  /\ 0 <= Super.events_hi (forced_super 100 clean_super) < 2 ^ 32
  /\ 0 <= Super.events_lo (forced_super 100 clean_super) < 2 ^ 32
  /\ Super.state (forced_super 100 clean_super)
     = (if (Super.level clean_super =? 5) || (Super.level clean_super =? 4)
        then bit MD_SB_CLEAN else Super.state clean_super).
Proof.
  assert (- 2 ^ 63 <= 100 < 2 ^ 63) as Hrange
    by (split; [vm_compute; discriminate | vm_compute; reflexivity]).
  exact (forced_super_round_trip 100 clean_super Hrange).
Defined.

Lemma scan_counts_available_witness :
  okcnt (avail_scan false one_stale_probed)
  = u32 (set_bytes (avail (avail_scan false one_stale_probed)))
  /\ length (avail (avail_scan false one_stale_probed))
     = Z.to_nat (Super.raid_disks (first_super one_stale_probed))
  /\ overrun (avail_scan false one_stale_probed) = overrun one_stale_probed.
Proof.
  assert (Forall (fun d => Dev.uptodate d = false) (devices one_stale_probed)) as Hfresh
    by (vm_compute; repeat constructor).
  exact (scan_counts_available false one_stale_probed Hfresh).
Defined.

Lemma force_loop_exit_condition_witness :
  best readonly_forced = best readonly_scanned
  /\ first_super readonly_forced = first_super readonly_scanned
  /\ length (devices readonly_forced) = length (devices readonly_scanned)
  /\ (true = false \/ enough_now readonly_forced = true
      \/ stale_slots readonly_forced = 0%nat).
Proof.
  assert (force_loop readonly_world true 4 readonly_scanned = Some readonly_forced)
    as Hloop
    by (vm_compute; reflexivity).
  exact (force_loop_exit_condition readonly_world true 4 readonly_scanned
           readonly_forced Hloop).
Defined.

Lemma force_picks_newest_stale_witness :
  let st' := (force_iter readonly_world true readonly_scanned).1 in
  let n := Z.min (Super.raid_disks (first_super readonly_scanned))
             (bestcnt readonly_scanned) in
  (chosen_drive st' = -1 /\ true = false
   /\ forall i, 0 <= i < n ->
        stale (devices readonly_scanned) (best_at (best readonly_scanned) i) = false)
  \/ exists i,
       0 <= i < n /\ chosen_drive st' = best_at (best readonly_scanned) i
       /\ true = true
       /\ stale (devices readonly_scanned) (chosen_drive st') = true
       /\ forall i', 0 <= i' < n ->
            stale (devices readonly_scanned) (best_at (best readonly_scanned) i') = true ->
            Dev.events (dev_at (devices readonly_scanned)
                          (best_at (best readonly_scanned) i'))
            <= Dev.events (dev_at (devices readonly_scanned) (chosen_drive st'))
            /\ (i' < i ->
                Dev.events (dev_at (devices readonly_scanned)
                              (best_at (best readonly_scanned) i'))
                < Dev.events (dev_at (devices readonly_scanned) (chosen_drive st'))).
Proof.
  assert (force_iter readonly_world true readonly_scanned
          = ((force_iter readonly_world true readonly_scanned).1, true)) as Hturn
    by (vm_compute; reflexivity).
  assert (true = true) as Hforce by reflexivity.
  assert (enough_now readonly_scanned = false) as Hfew by (vm_compute; reflexivity).
  exact (force_picks_newest_stale readonly_world true readonly_scanned
           (force_iter readonly_world true readonly_scanned).1 true
           Hturn Hforce Hfew).
Defined.

Lemma reconcile_slot_table_witness :
  Super.disk (super (reconcile true moved_chosen)) 1
  = if usable moved_chosen 1 then reconciled_disk true moved_chosen 1
    else Super.disk (super moved_chosen) 1.
Proof.
  assert (0 <= 1 < Z.of_nat (length (Super.disks (super moved_chosen)))) as Hslot
    by (split; [vm_compute; discriminate | vm_compute; reflexivity]).
  exact (proj1 (reconcile_slot_table true moved_chosen) 1 Hslot).
Defined.

Lemma resync_clears_clean_only_witness :
  has_bit (Super.state (resync clean_super)) MD_SB_CLEAN = false
  /\ (forall n, 0 <= n < 32 -> n <> MD_SB_CLEAN ->
        Z.testbit (Super.state (resync clean_super)) n
        = Z.testbit (Super.state clean_super) n)
  /\ 0 <= Super.state (resync clean_super) < 2 ^ 32
  /\ Super.recovery_cp (resync clean_super) = 0.
Proof.
  assert (0 <= MD_SB_CLEAN < 32) as Hbit
    by (split; [vm_compute; discriminate | vm_compute; reflexivity]).
  exact (resync_clears_clean_only clean_super Hbit).
Defined.

Lemma candidates_follow_the_list_witness :
  exists new,
    devices clean_probed = devices init_locals ++ new
    /\ sublist (Dev.devname <$> new) clean_names
    /\ Forall (fun d => not_listed no_ident (Dev.devname d) = false) new
    /\ (length new <= length clean_names)%nat.
Proof.
  assert (probe_loop clean_world no_ident None false true clean_names init_locals
          = Go clean_probed) as Hloop
    by (vm_compute; reflexivity).
  exact (candidates_follow_the_list clean_world no_ident None false true clean_names
           init_locals clean_probed Hloop).
Defined.

Lemma success_needs_a_member_witness : 0 < devcnt (final clean_run).
Proof.
  assert (Assemble clean_world no_ident None 0 false false "mdadm.conf" clean_names
          = Some (0, final clean_run)) as Hrun
    by (vm_compute; reflexivity).
  exact (success_needs_a_member clean_world no_ident None 0 false false "mdadm.conf"
           clean_names (final clean_run) Hrun).
Defined.
